(** * Zebra path data: the match parser and the competition index

    A shallow embedding of [zebra/path.py]: the class [Match] (its
    constructor and the static method [_scan_path]) and the class
    [Competitions] (constructor, [_read_file], [__getitem__], [__len__],
    [matches]); of [filter_by_event] and [download_match] of
    [pviewer/zebra/data.py]; of [get_level_matches] and
    [update_datasources] of [pviewer/main.py]; and of [json.dumps] and
    [json.loads] of Python's standard library, which [Match] and
    [download_match] call.

    Conventions of the embedding.
    - A Python call that can raise returns [pyres A]: [Ok a] or
      [Raise e], with [e] the class of the exception.
    - A decoded JSON value is a [json]. Subscripting and iteration follow
      Python: [d[k]] on a dictionary raises [KeyError] for an absent key,
      on any other value with a string key it raises [TypeError].
    - A coordinate is a Python float that the code never computes with (it
      only tests [is None]); it is carried as a rational. A path is a list
      of cells, [None] being the missing-value marker.
    - Sample indices and counts are natural numbers; the position given to
      [__getitem__] is an integer, as it may be negative.
    - The TBA keys of the data file ([event], [match], [team_key]) are
      strings and the rows given to [np.array] are equal-length lists of
      numbers and nulls. A record with another JSON value at one of these
      places is outside the embedding: [as_str] and [as_cells] raise
      there, and no statement below rests on such a raise. On rows of
      unequal length [np.array] raises [ValueError], as numpy does from
      version 1.24 on (earlier versions build an array of lists); the
      statements that the rows of a parsed match have one length rest on
      this raise. *)

From Stdlib Require Import QArith ZArith.
From stdpp Require Import gmap strings list fin_maps.
Close Scope Q_scope.
#[local] Set Warnings "-register-all".

(** ** Python exceptions and results *)

Inductive pyexc : Set :=
| KeyError
| TypeError
| IndexError
| ValueError
| UnboundLocalError.

Inductive pyres (A : Type) : Type :=
| Ok (a : A)
| Raise (e : pyexc).
Arguments Ok {A} a.
Arguments Raise {A} e.

#[global] Instance pyres_ret : MRet pyres := λ _ a, Ok a.
#[global] Instance pyres_bind : MBind pyres := λ _ _ f m,
  match m with
  | Ok a => f a
  | Raise e => Raise e
  end.
#[global] Instance pyres_fmap : FMap pyres := λ _ _ f m,
  match m with
  | Ok a => Ok (f a)
  | Raise e => Raise e
  end.

Definition is_raise {A} (r : pyres A) : Prop := ∃ e, r = Raise e.

(** ** Decoded JSON *)

Inductive json : Type :=
| JNull
| JBool (b : bool)
| JNum (q : Q)
| JStr (s : string)
| JArr (l : list json)
| JObj (kvs : list (string * json)).

(** A dictionary is the list of its items; a key is looked up at its first
    item (a decoded dictionary has each key once). *)
Fixpoint assoc (k : string) (kvs : list (string * json)) : option json :=
  match kvs with
  | [] => None
  | (k', v) :: kvs' => if decide (k = k') then Some v else assoc k kvs'
  end.

(** [d[k]] for a string [k]. *)
Definition getitem (d : json) (k : string) : pyres json :=
  match d with
  | JObj kvs => match assoc k kvs with
                | Some v => Ok v
                | None => Raise KeyError
                end
  | _ => Raise TypeError
  end.

Definition chars (s : string) : list json :=
  (λ c, JStr (String c EmptyString)) <$> String.list_ascii_of_string s.

(** [for x in d]: the items of a list, the keys of a dictionary, the
    characters of a string; other values are not iterable. *)
Definition py_iter (d : json) : pyres (list json) :=
  match d with
  | JArr l => Ok l
  | JObj kvs => Ok ((λ kv, JStr kv.1) <$> kvs)
  | JStr s => Ok (chars s)
  | _ => Raise TypeError
  end.

(** [d is None]. *)
Definition is_null (d : json) : bool :=
  match d with
  | JNull => true
  | _ => false
  end.

(** Places where the data file has a string. *)
Definition as_str (d : json) : pyres string :=
  match d with
  | JStr s => Ok s
  | _ => Raise TypeError
  end.

(** ** Paths *)

Abbreviation cell := (option Q).

#[global] Instance Q_eq_dec : EqDecision Q.
Proof. solve_decision. Defined.

Definition is_None (c : cell) : bool :=
  match c with
  | None => true
  | Some _ => false
  end.

Definition as_cell (d : json) : pyres cell :=
  match d with
  | JNull => Ok None
  | JNum q => Ok (Some q)
  | _ => Raise ValueError
  end.

Definition as_cells (d : json) : pyres (list cell) :=
  match d with
  | JArr l => mapM as_cell l
  | _ => Raise ValueError
  end.

Definition cell_json (c : cell) : json :=
  match c with
  | None => JNull
  | Some q => JNum q
  end.

(** [np.array(paths)] on the rows of a match: a two-dimensional array, one
    row per list, all rows of one length. *)
Definition np_array (rows : list json) : pyres (list (list cell)) :=
  a ← mapM as_cells rows;
  match a with
  | [] => Ok []
  | r :: rs => if forallb (λ r', Nat.eqb (length r') (length r)) rs
               then Ok a else Raise ValueError
  end.

(** [a[i]] on an array or a list, for [0 <= i]. *)
Definition index {A} (a : list A) (i : nat) : pyres A :=
  match a !! i with
  | Some x => Ok x
  | None => Raise IndexError
  end.

(** [enumerate(l)], counting from [i]. *)
Fixpoint enumerate_from {A} (i : nat) (l : list A) : list (nat * A) :=
  match l with
  | [] => []
  | x :: l' => (i, x) :: enumerate_from (S i) l'
  end.

Definition enumerate {A} (l : list A) : list (nat * A) := enumerate_from 0 l.

(** A loop whose body can raise, threading the value it updates. *)
Fixpoint foldlM {A B} (f : A → B → pyres A) (a : A) (l : list B) : pyres A :=
  match l with
  | [] => Ok a
  | x :: l' => a' ← f a x; foldlM f a' l'
  end.

(** [l[i]] on a Python list for an integer [i]: a negative [i] counts from
    the end of the list. *)
Definition list_getitem {A} (l : list A) (i : Z) : pyres A :=
  let len := Z.of_nat (length l) in
  let i' := if (i <? 0)%Z then (i + len)%Z else i in
  if (0 <=? i')%Z && (i' <? len)%Z then index l (Z.to_nat i')
  else Raise IndexError.

(** ** The class [Match] *)

Module Match.

(** The dictionary returned by [_scan_path]: keys ['start'], ['end'], ['n']
    and ['missing']; [None] is Python's [None]. *)
Record path_stats : Type := {
  st_start : option (Q * Q * nat);
  st_end : option (Q * Q * nat);
  st_n : nat;
  st_missing : option (list nat)
}.

(** The loop of line 57: the indices [t] at which a coordinate is [None]. *)
Fixpoint missing_coords (l : list (nat * (cell * cell))) : list nat :=
  match l with
  | [] => []
  | (t, (x, y)) :: l' =>
      if is_None x || is_None y then t :: missing_coords l'
      else missing_coords l'
  end.

(** The loops of lines 61 and 65 up to their [break]: the first [t] at
    which both coordinates are present, with the coordinates; [None] when
    the loop ends without assigning its variable. *)
Fixpoint first_valid (l : list (nat * (cell * cell))) : option (nat * Q * Q) :=
  match l with
  | [] => None
  | (t, (Some x, Some y)) :: _ => Some (t, x, y)
  | _ :: l' => first_valid l'
  end.

(** The variables [start] and [end] are bound by their loops only; reading
    one that is not bound, at the [return], raises [UnboundLocalError].
    The two differences are those of Python's integers: [t] is below
    [len(xs)] and [missing_coords] is not longer than [xs] (lemmas
    [first_valid_bound] and [missing_coords_length]). *)
Definition _scan_path (xs ys : list cell) : pyres path_stats :=
  if forallb is_None xs && forallb is_None ys then
    Ok {| st_start := None; st_end := None; st_n := 0; st_missing := None |}
  else
    let missing := missing_coords (enumerate (zip xs ys)) in
    let start := (λ '(t, x, y), (x, y, t)) <$>
                 first_valid (enumerate (zip xs ys)) in
    let end_ := (λ '(t, x, y), (x, y, length xs - t)) <$>
                first_valid (enumerate (zip (reverse xs) (reverse ys))) in
    match start, end_ with
    | Some s, Some e =>
        Ok {| st_start := Some s; st_end := Some e;
              st_n := length xs - length missing;
              st_missing := Some missing |}
    | _, _ => Raise UnboundLocalError
    end.

(** An entry of [self.teams]: the dictionary of [_scan_path] with the keys
    ['xs'], ['ys'] and ['station'] added. *)
Record team_data : Type := {
  td_stats : path_stats;
  td_xs : list cell;
  td_ys : list cell;
  td_station : string
}.

(** The attributes of a [Match] ([match_] is [self.match]). *)
Record t : Type := {
  event : string;
  match_ : string;
  blue : list string;
  red : list string;
  paths : list (list cell);
  times : list cell;
  score : json;
  teams : gmap string team_data
}.

Definition stations : list string :=
  ["blue1"; "blue2"; "blue3"; "red1"; "red2"; "red3"]%string.

(** [match_json['zebra']['alliances'][alliance]], as iterated by [for]. *)
Definition alliance (match_json : json) (name : string) : pyres (list json) :=
  z ← getitem match_json "zebra";
  a ← getitem z "alliances";
  l ← getitem a name;
  py_iter l.

(** [[team['team_key'] for team in ...]] (lines 25 to 28). *)
Definition team_keys (match_json : json) (name : string) : pyres (list string) :=
  l ← alliance match_json name;
  mapM (λ team, k ← getitem team "team_key"; as_str k) l.

(** The two inner loops of lines 31 to 33: [xs] then [ys] of each team. *)
Definition team_rows (team : json) : pyres (list json) :=
  xs ← getitem team "xs";
  ys ← getitem team "ys";
  Ok [xs; ys].

Definition alliance_rows (match_json : json) (name : string) : pyres (list json) :=
  l ← alliance match_json name;
  rows ← mapM team_rows l;
  Ok (concat rows).

(** The body of the loop of lines 41 to 49. *)
Definition scan_team (paths : list (list cell))
    (teams : gmap string team_data) (it : nat * string)
    : pyres (gmap string team_data) :=
  let '(idx, tm) := it in
  xs ← index paths (2 * idx);
  ys ← index paths (2 * idx + 1);
  st ← _scan_path xs ys;
  station ← index stations idx;
  Ok (<[tm := {| td_stats := st; td_xs := xs; td_ys := ys;
                 td_station := station |}]> teams).

Section with_json.
Variable json_loads : string → pyres json.

Definition __init__ (match_json : json) : pyres t :=
  match_json ← match match_json with
               | JStr s => json_loads s
               | _ => Ok match_json
               end;
  event ← getitem match_json "event" ≫= as_str;
  match_ ← getitem match_json "match" ≫= as_str;
  blue ← team_keys match_json "blue";
  red ← team_keys match_json "red";
  rows_blue ← alliance_rows match_json "blue";
  rows_red ← alliance_rows match_json "red";
  paths ← np_array (rows_blue ++ rows_red);
  z ← getitem match_json "zebra";
  times ← getitem z "times" ≫= as_cells;
  score ← getitem match_json "score";
  teams ← foldlM (scan_team paths) ∅ (enumerate (blue ++ red));
  Ok {| event := event; match_ := match_; blue := blue; red := red;
        paths := paths; times := times; score := score; teams := teams |}.

End with_json.
End Match.

(** ** The class [Competitions] *)

Module Competitions.

(** The attributes of a [Competitions] ([paths] is the decoded file). *)
Record t : Type := {
  paths : list json;
  event_summary : gmap string nat;
  zmatches : list Match.t;
  mindex : gmap string nat;
  events : gset string
}.

(** An index given to [__getitem__]: an [int] or a TBA match key. *)
Inductive key : Type :=
| KInt (i : Z)
| KStr (s : string).

(** [.groupby('event').agg(path_matches=('path', 'sum'))] on the rows
    (event, path): one entry per event, the sum of its path column. *)
Definition groupby_sum (rows : list (string * nat)) : gmap string nat :=
  foldl (λ m '(e, p), <[e := default 0 (m !! e) + p]> m) ∅ rows.

(** [{zm.match: idx for idx, zm in enumerate(self.zmatches)}]. *)
Definition build_mindex (zmatches : list Match.t) : gmap string nat :=
  foldl (λ m '(idx, zm), <[Match.match_ zm := idx]> m) ∅ (enumerate zmatches).

Section with_json.
Variable json_loads : string → pyres json.

(** The comprehension of lines 140 and 141. *)
Fixpoint read_matches (paths : list json) : pyres (list Match.t) :=
  match paths with
  | [] => Ok []
  | path :: paths' =>
      z ← getitem path "zebra";
      if is_null z then read_matches paths'
      else
        zm ← Match.__init__ json_loads path;
        zms ← read_matches paths';
        Ok (zm :: zms)
  end.

(** [_read_file], given the lines of the file: the values assigned to
    [self.paths], [self.event_summary] and [self.zmatches]. *)
Definition _read_file (lines : list string)
    : pyres (list json * gmap string nat * list Match.t) :=
  paths ← mapM json_loads lines;
  events ← mapM (λ path, getitem path "event" ≫= as_str) paths;
  matches ← mapM (λ path, getitem path "match") paths;
  zebra ← mapM (λ path, z ← getitem path "zebra";
                        Ok (if is_null z then 0 else 1)) paths;
  let event_summary := groupby_sum (zip events zebra) in
  zmatches ← read_matches paths;
  Ok (paths, event_summary, zmatches).

Definition __init__ (lines : list string) : pyres t :=
  '(paths, event_summary, zmatches) ← _read_file lines;
  Ok {| paths := paths; event_summary := event_summary;
        zmatches := zmatches;
        mindex := build_mindex zmatches;
        events := list_to_set (Match.event <$> zmatches) |}.

End with_json.

Definition __getitem__ (self : t) (idx : key) : pyres Match.t :=
  match idx with
  | KInt i => list_getitem (zmatches self) i
  | KStr s =>
      match mindex self !! s with
      | Some i => index (zmatches self) i
      | None => Raise KeyError
      end
  end.

Definition __len__ (self : t) : nat := length (zmatches self).

Definition matches (self : t) (event : string) : list string :=
  Match.match_ <$> filter (λ zm, Match.event zm = event) (zmatches self).

End Competitions.

(** ** Lines of a data file *)

(** The dictionary that [download_match] writes on a line of the file
    (zebra/data.py): the keys ['event'], ['match'], ['zebra'] and
    ['score']; [zebra] is [JNull] for a match without tracking data. *)
Definition match_data (event match_ : string) (zebra score : json) : json :=
  JObj [("event", JStr event); ("match", JStr match_);
        ("zebra", zebra); ("score", score)]%string.

(** The tracking data of a match and the entry of a team in it. *)
Definition zebra_data (blue red : list json) (times : list cell) : json :=
  JObj [("times", JArr (cell_json <$> times));
        ("alliances", JObj [("red", JArr red); ("blue", JArr blue)])]%string.

Definition team_entry (team_key : string) (xs ys : list cell) : json :=
  JObj [("team_key", JStr team_key); ("xs", JArr (cell_json <$> xs));
        ("ys", JArr (cell_json <$> ys))]%string.

(** A file given by its lines, each with the value that [json.loads]
    decodes it to; any other text is not JSON. *)
Definition decoder (file : list (string * json)) (s : string) : pyres json :=
  match list_to_map (M := gmap string json) file !! s with
  | Some d => Ok d
  | None => Raise ValueError
  end.

Definition lines_of (file : list (string * json)) : list string := file.*1.

(** ** The module [zebra/data.py] *)

Module Data.

(** [line_json['event'] == event_key] for a string [event_key]: a value
    that is not a string is not equal to it. *)
Definition event_is (ev : json) (event_key : string) : bool :=
  match ev with
  | JStr s => bool_decide (s = event_key)
  | _ => false
  end.

(** How a request to the API ends without a reply:
    [urllib.error.HTTPError]. *)
Inductive outcome : Set :=
| Done
| HTTPError.

(** The replies of the TBA API to the requests of [download_match];
    [None] is an HTTP error. The keys of events and matches are strings. *)
Record tba : Type := {
  get_events : string → option (list string);
  get_match_keys : string → option (list string);
  get_zebra : string → option json;
  get_match_scores : string → option json
}.

Section with_json.
Variable json_loads : string → pyres json.

(** The test of lines 69 to 71 on a line of the input file; [and] looks
    up [zebra] only when the event is the one asked for. *)
Definition keep_line (event_key : string) (line : string) : pyres bool :=
  line_json ← json_loads line;
  ev ← getitem line_json "event";
  if event_is ev event_key then
    z ← getitem line_json "zebra";
    Ok (negb (is_null z))
  else Ok false.

(** The loop of [filter_by_event] over the lines of the input file, with
    the lines written to the output file so far and their count. A line
    that raises ends the loop; the output file keeps what was written. *)
Fixpoint filter_lines (event_key : string) (ifile ofile : list string)
    (output_lines : nat) : list string * pyres nat :=
  match ifile with
  | [] => (ofile, Ok output_lines)
  | line :: ifile' =>
      match keep_line event_key line with
      | Raise e => (ofile, Raise e)
      | Ok true =>
          filter_lines event_key ifile' (ofile ++ [line]) (S output_lines)
      | Ok false => filter_lines event_key ifile' ofile output_lines
      end
  end.

(** [filter_by_event], given the lines of the input file (another file
    than the output file): the lines of the output file and the count
    that is printed, or the exception. *)
Definition filter_by_event (event_key : string) (input_file : list string)
    : list string * pyres nat :=
  filter_lines event_key input_file [] 0.

End with_json.

Section with_tba.
Variable api : tba.

(** The [try] block of lines 33 to 37: both requests have a reply. *)
Definition fetch (match_key : string) : option (json * json) :=
  zdata ← get_zebra api match_key;
  score_data ← get_match_scores api match_key;
  Some (zdata, score_data).

(** The loop of [_match_path_data] over the matches of one event: the
    dictionaries written for them, in order ([break] ends the list). *)
Fixpoint match_rows (max_no_path_matches : Z) (event_key : string)
    (match_keys : list string) (no_path_matches : Z) (has_path_data : bool)
    : list json :=
  match match_keys with
  | [] => []
  | match_key :: match_keys' =>
      match fetch match_key with
      | Some (zdata, score_data) =>
          match_data event_key match_key zdata score_data
          :: match_rows max_no_path_matches event_key match_keys' 0 true
      | None =>
          let no_path_matches := (no_path_matches + 1)%Z in
          match_data event_key match_key JNull JNull
          :: (if (max_no_path_matches <? no_path_matches)%Z
                 && negb has_path_data
              then []
              else match_rows max_no_path_matches event_key match_keys'
                              no_path_matches has_path_data)
      end
  end.

(** The loop over the events: a request for the match keys of an event
    that fails is not caught and ends the download. *)
Fixpoint event_rows (max_no_path_matches : Z) (event_keys : list string)
    : list json * outcome :=
  match event_keys with
  | [] => ([], Done)
  | event_key :: event_keys' =>
      match get_match_keys api event_key with
      | None => ([], HTTPError)
      | Some match_keys =>
          let rows := match_rows max_no_path_matches event_key match_keys
                                 0 false in
          let '(rows', o) := event_rows max_no_path_matches event_keys' in
          (rows ++ rows', o)
      end
  end.

(** [download_match]: the dictionaries written to the file, one on each
    line (as [json.dumps] prints them), and how the download ended. *)
Definition download_match (key : string) (max_no_path_matches : Z)
    : list json * outcome :=
  match get_events api key with
  | None => ([], HTTPError)
  | Some event_keys => event_rows max_no_path_matches event_keys
  end.

End with_tba.
End Data.

(** ** The viewer: [ZebraViewer] of [pviewer/main.py]

    The methods that compute from the index are embedded as functions of
    the attributes they read; the widgets and the plot are not. Times are
    Python integers. *)

Module Viewer.
Import Stdlib.Strings.Ascii.

Definition STATION_NAMES : list string :=
  ["blue1"; "blue2"; "blue3"; "red1"; "red2"; "red3"]%string.

(** The values of the level selector. *)
Inductive level : Set :=
| qm
| qf
| sf
| f.

Definition level_str (lvl : level) : string :=
  match lvl with
  | qm => "qm"
  | qf => "qf"
  | sf => "sf"
  | f => "f"
  end.

(** The characters before the first underscore of a string and the
    characters after it. *)
Fixpoint split_underscore (s : string) : option (string * string) :=
  match s with
  | EmptyString => None
  | String c s' =>
      if Ascii.eqb c "_"%char then Some (EmptyString, s')
      else '(p, r) ← split_underscore s'; Some (String c p, r)
  end.

Fixpoint has_underscore (s : string) : bool :=
  match s with
  | EmptyString => false
  | String c s' => Ascii.eqb c "_"%char || has_underscore s'
  end.

(** [re.search(ptn, s)] for the pattern [^[^_]+_LEVEL([^_]+)$] of line
    144, the level being one of the four values: the groups 0 and 1 of
    the match. The pattern matches a string made of characters other
    than the underscore, one underscore, the level, and characters other
    than the underscore up to the end, at least one on each side; group 0
    is the string and group 1 what follows the level. *)
Definition search (lvl : level) (s : string) : option (string * string) :=
  '(p, rest) ← split_underscore s;
  if negb (String.eqb p "") && String.prefix (level_str lvl) rest then
    let g := String.substring (String.length (level_str lvl))
               (String.length rest - String.length (level_str lvl)) rest in
    if negb (String.eqb g "") && negb (has_underscore g) then Some (s, g)
    else None
  else None.

Definition digit (c : ascii) : option Z :=
  let n := Z.of_nat (nat_of_ascii c) in
  if (48 <=? n)%Z && (n <=? 57)%Z then Some (n - 48)%Z else None.

Fixpoint digits (acc : Z) (s : string) : option Z :=
  match s with
  | EmptyString => Some acc
  | String c s' => d ← digit c; digits (10 * acc + d)%Z s'
  end.

(** [int(s)] for a string of decimal digits. Python reads more strings
    (a sign, spaces around the digits); for those the embedding raises,
    and no statement rests on that raise. *)
Definition py_int (s : string) : pyres Z :=
  match s with
  | EmptyString => Raise ValueError
  | _ => match digits 0 s with
         | Some z => Ok z
         | None => Raise ValueError
         end
  end.

(** [sorted] on items paired with their keys: the stable sort, which
    keeps items of equal keys in their order. *)
Fixpoint insert_sorted {K A} (le : K → K → bool) (x : K * A)
    (l : list (K * A)) : list (K * A) :=
  match l with
  | [] => [x]
  | y :: l' => if le x.1 y.1 then x :: y :: l'
               else y :: insert_sorted le x l'
  end.

Definition sort_keyed {K A} (le : K → K → bool) (l : list (K * A))
    : list (K * A) :=
  foldr (insert_sorted le) [] l.

(** [sorted(l, key=key)]: the keys are computed first. *)
Definition sorted {K A} (le : K → K → bool) (key : A → pyres K)
    (l : list A) : pyres (list A) :=
  keys ← mapM key l;
  Ok (sort_keyed le (zip keys l)).*2.

(** [get_level_matches], from [self.data], [self.event], [self.level]. *)
Definition get_level_matches (data : Competitions.t) (event : string)
    (lvl : level) : pyres (list (string * string)) :=
  let matches := Competitions.matches data event in
  let matches := omap (search lvl) matches in
  match lvl with
  | qm => sorted Z.leb (λ x, py_int x.2) matches
  | _ => sorted String.leb (λ x, Ok x.2) matches
  end.

(** [l[start:stop]] for integers: an index below zero counts from the
    end, and both are brought into the bounds of the list. *)
Definition slice_index (len i : Z) : Z :=
  if (i <? 0)%Z then Z.max (i + len) 0 else Z.min i len.

Definition py_slice {A} (l : list A) (start stop : Z) : list A :=
  let len := Z.of_nat (length l) in
  let lo := slice_index len start in
  let hi := slice_index len stop in
  take (Z.to_nat (hi - lo)) (drop (Z.to_nat lo) l).

(** [paths.shape[1]]: the length of the rows of a two-dimensional array;
    an array without rows has no second dimension. *)
Definition shape1 (paths : list (list cell)) : pyres nat :=
  match paths with
  | r :: _ => Ok (length r)
  | [] => Raise IndexError
  end.

(** What [update_datasources] assigns to one entry of [self.datasources]
    ([ds_xs], [ds_ys] are the data of ['path'], [ds_x], [ds_y] those of
    ['pos']). *)
Record datasource : Type := {
  ds_match : string;
  ds_position : string;
  ds_team : string;
  ds_xs : list cell;
  ds_ys : list cell;
  ds_x : cell;
  ds_y : cell;
  ds_path_len : nat
}.

(** The body of the loop of lines 217 to 228. *)
Definition station_source (match_value : string) (match_data : Match.t)
    (teams : list string) (start end_ : Z) (idx : nat) : pyres datasource :=
  position ← index STATION_NAMES idx;
  team ← index teams idx;
  xrow ← index (Match.paths match_data) (2 * idx);
  yrow ← index (Match.paths match_data) (2 * idx + 1);
  let xs := py_slice xrow start end_ in
  let ys := py_slice yrow start end_ in
  x ← list_getitem xs (-1);
  y ← list_getitem ys (-1);
  path_len ← shape1 (Match.paths match_data);
  Ok {| ds_match := match_value; ds_position := position; ds_team := team;
        ds_xs := xs; ds_ys := ys; ds_x := x; ds_y := y;
        ds_path_len := path_len |}.

(** [update_datasources], from [self.data], the value of the match
    selector, [self.start_time] and [self.end_time]: the six entries
    assigned. A raise leaves the entries before it assigned; that state
    is not kept here. *)
Definition update_datasources (data : Competitions.t) (match_value : string)
    (start_time end_time : Z) : pyres (list datasource) :=
  match_data ← Competitions.__getitem__ data (Competitions.KStr match_value);
  let teams := Match.blue match_data ++ Match.red match_data in
  let start := (start_time * 10)%Z in
  let end_ := (end_time * 10)%Z in
  mapM (station_source match_value match_data teams start end_) (seq 0 6).

End Viewer.

(** ** Python's [json] module *)

(** [json.dumps] and [json.loads] with their default arguments, as the
    encoder and the decoder of the standard library work on the values of
    [json]. A character of a string is one of the first 256 code points.
    What Python writes for a number and what it reads from a number
    literal ([int.__repr__] and [float.__repr__], [int] and [float]) are
    parameters: floating-point conversion is not modelled. The decoder
    raises [ValueError] (Python's [JSONDecodeError] is a subclass of it);
    it raises too on an escape [\u] beyond 255 and on [NaN], [Infinity]
    and [-Infinity], which the values of [json] do not have. *)

Module Json.
Import Stdlib.Strings.Ascii.
Open Scope string_scope.

Definition quote : ascii := "034"%char.
Definition backslash : ascii := "\"%char.

(** *** The encoder *)

Definition hexdigit (n : nat) : ascii :=
  match String.get n "0123456789abcdef" with
  | Some c => c
  | None => "0"%char
  end.

(** [ESCAPE_DCT] and the replacement of [py_encode_basestring_ascii]:
    the printable ASCII characters but the quote and the backslash are
    written as they are. *)
Definition escape_char (c : ascii) : string :=
  if Ascii.eqb c quote then String backslash (String quote "")
  else if Ascii.eqb c backslash then String backslash (String backslash "")
  else if Ascii.eqb c "010" then "\n"
  else if Ascii.eqb c "013" then "\r"
  else if Ascii.eqb c "009" then "\t"
  else if Ascii.eqb c "012" then "\f"
  else if Ascii.eqb c "008" then "\b"
  else
    let n := nat_of_ascii c in
    if (32 <=? n)%nat && (n <=? 126)%nat then String c ""
    else "\u00" ++ String (hexdigit (n / 16)) (String (hexdigit (n mod 16)) "").

Fixpoint escape (s : string) : string :=
  match s with
  | "" => ""
  | String c s' => escape_char c ++ escape s'
  end.

Definition encode_string (s : string) : string :=
  String quote (escape s ++ String quote "").

Section codec.
(** What Python writes for a number, and the number it reads from a
    number literal. *)
Variable num_repr : Q → string.
Variable num_of : string → Q.

(** [json.dumps(d)]: items are separated by a comma and a space, a key
    and its value by a colon and a space. *)
Fixpoint dumps (d : json) : string :=
  match d with
  | JNull => "null"
  | JBool true => "true"
  | JBool false => "false"
  | JNum q => num_repr q
  | JStr s => encode_string s
  | JArr l => "[" ++ String.concat ", " (map dumps l) ++ "]"
  | JObj kvs =>
      "{" ++ String.concat ", "
               (map (λ kv, encode_string (fst kv) ++ ": " ++ dumps (snd kv)) kvs)
          ++ "}"
  end.

(** *** The decoder *)

Definition is_ws (c : ascii) : bool :=
  Ascii.eqb c " " || Ascii.eqb c "009" || Ascii.eqb c "010"
  || Ascii.eqb c "013".

(** [WHITESPACE.match(s, end).end()]. *)
Fixpoint skip_ws (s : string) : string :=
  match s with
  | String c s' => if is_ws c then skip_ws s' else s
  | "" => ""
  end.

Definition hexval (c : ascii) : option nat :=
  let n := nat_of_ascii c in
  if (48 <=? n)%nat && (n <=? 57)%nat then Some (n - 48)
  else if (97 <=? n)%nat && (n <=? 102)%nat then Some (n - 87)
  else if (65 <=? n)%nat && (n <=? 70)%nat then Some (n - 55)
  else None.

(** [_decode_uXXXX]: four hexadecimal digits. *)
Definition decode_uXXXX (a b c d : ascii) : option nat :=
  a ← hexval a; b ← hexval b; c ← hexval c; d ← hexval d;
  Some (((a * 16 + b) * 16 + c) * 16 + d).

(** The table [BACKSLASH]. *)
Definition unescape (esc : ascii) : option ascii :=
  if Ascii.eqb esc quote then Some quote
  else if Ascii.eqb esc backslash then Some backslash
  else if Ascii.eqb esc "/" then Some "/"%char
  else if Ascii.eqb esc "b" then Some "008"%char
  else if Ascii.eqb esc "f" then Some "012"%char
  else if Ascii.eqb esc "n" then Some "010"%char
  else if Ascii.eqb esc "r" then Some "013"%char
  else if Ascii.eqb esc "t" then Some "009"%char
  else None.

(** [py_scanstring], from the character after the opening quote: the
    string and the text after its closing quote. *)
Fixpoint scanstring (s : string) : pyres (string * string) :=
  match s with
  | "" => Raise ValueError
  | String c r =>
      if Ascii.eqb c quote then Ok ("", r)
      else if Ascii.eqb c backslash then
        match r with
        | "" => Raise ValueError
        | String esc r' =>
            if Ascii.eqb esc "u" then
              match r' with
              | String h1 (String h2 (String h3 (String h4 r''))) =>
                  match decode_uXXXX h1 h2 h3 h4 with
                  | Some uni =>
                      if (uni <? 256)%nat then
                        match scanstring r'' with
                        | Ok (str, rest) =>
                            Ok (String (ascii_of_nat uni) str, rest)
                        | Raise e => Raise e
                        end
                      else Raise ValueError
                  | None => Raise ValueError
                  end
              | _ => Raise ValueError
              end
            else
              match unescape esc with
              | Some char =>
                  match scanstring r' with
                  | Ok (str, rest) => Ok (String char str, rest)
                  | Raise e => Raise e
                  end
              | None => Raise ValueError
              end
        end
      else if (nat_of_ascii c <? 32)%nat then Raise ValueError
      else
        match scanstring r with
        | Ok (str, rest) => Ok (String c str, rest)
        | Raise e => Raise e
        end
  end.

Definition is_digit (c : ascii) : bool :=
  (48 <=? nat_of_ascii c)%nat && (nat_of_ascii c <=? 57)%nat.

(** The longest run of digits at the start of [s], and the rest. *)
Fixpoint digits (s : string) : string * string :=
  match s with
  | String c s' =>
      if is_digit c then let '(ds, rest) := digits s' in (String c ds, rest)
      else ("", s)
  | "" => ("", "")
  end.

(** The three groups of [NUMBER_RE]: an integer with an optional minus
    sign and no leading zero, an optional fraction and an optional
    exponent; the last two are empty when they do not match. *)
Definition match_unsigned (s : string) : option (string * string) :=
  match s with
  | String c r =>
      if Ascii.eqb c "0" then Some ("0", r)
      else if is_digit c then
        let '(ds, rest) := digits r in Some (String c ds, rest)
      else None
  | "" => None
  end.

Definition match_integer (s : string) : option (string * string) :=
  match s with
  | String c r =>
      if Ascii.eqb c "-" then
        match match_unsigned r with
        | Some (i, rest) => Some (String c i, rest)
        | None => None
        end
      else match_unsigned s
  | "" => None
  end.

Definition match_frac (s : string) : string * string :=
  match s with
  | String c r =>
      if Ascii.eqb c "." then
        match digits r with
        | ("", _) => ("", s)
        | (ds, rest) => (String c ds, rest)
        end
      else ("", s)
  | "" => ("", s)
  end.

Definition match_exp (s : string) : string * string :=
  match s with
  | String e r =>
      if Ascii.eqb e "e" || Ascii.eqb e "E" then
        let '(sign, r1) :=
          match r with
          | String c r2 =>
              if Ascii.eqb c "-" || Ascii.eqb c "+" then (String c "", r2)
              else ("", r)
          | "" => ("", r)
          end in
        match digits r1 with
        | ("", _) => ("", s)
        | (ds, rest) => (String e (sign ++ ds), rest)
        end
      else ("", s)
  | "" => ("", s)
  end.

(** [NUMBER_RE.match(s, idx)]: the literal and the text after it. *)
Definition match_number (s : string) : option (string * string) :=
  match match_integer s with
  | Some (integer, s1) =>
      let '(frac, s2) := match_frac s1 in
      let '(exp, s3) := match_exp s2 in
      Some (integer ++ frac ++ exp, s3)
  | None => None
  end.

(** [dict(pairs)]: a key takes the place of its first pair and the value
    of its last one. *)
Fixpoint dict_set (k : string) (v : json) (d : list (string * json))
    : list (string * json) :=
  match d with
  | [] => [(k, v)]
  | (k', v') :: d' =>
      if decide (k = k') then (k, v) :: d' else (k', v') :: dict_set k v d'
  end.

Definition dict (pairs : list (string * json)) : list (string * json) :=
  foldl (λ d kv, dict_set (fst kv) (snd kv) d) [] pairs.

(** The text after [p] in [s], when [s] starts with [p]. *)
Fixpoint after (p s : string) : option string :=
  match p, s with
  | "", _ => Some s
  | String a p', String b s' => if Ascii.eqb b a then after p' s' else None
  | String _ _, "" => None
  end.

(** [scan_once], [JSONArray] from its first value and [JSONObject] from
    the character after the opening quote of a key. The first argument
    bounds the number of calls: a call reads at least one character
    before the next call but the first call of a loop, and [loads] gives
    more than twice the length of the text. *)
Fixpoint scan_once (n : nat) (s : string) {struct n} : pyres (json * string) :=
  match n with
  | 0 => Raise ValueError
  | S n =>
      match s with
      | "" => Raise ValueError
      | String c r =>
          if Ascii.eqb c quote then
            '(str, rest) ← scanstring r; Ok (JStr str, rest)
          else if Ascii.eqb c "{" then
            match skip_ws r with
            | "" => Raise ValueError
            | String c' r' =>
                if Ascii.eqb c' "}" then Ok (JObj [], r')
                else if Ascii.eqb c' quote then
                  '(pairs, rest) ← object_loop n r' [];
                  Ok (JObj (dict pairs), rest)
                else Raise ValueError
            end
          else if Ascii.eqb c "[" then
            match skip_ws r with
            | "" => Raise ValueError
            | String c' r' =>
                if Ascii.eqb c' "]" then Ok (JArr [], r')
                else
                  '(values, rest) ← array_loop n (String c' r') [];
                  Ok (JArr values, rest)
            end
          else
            match after "null" s, after "true" s, after "false" s with
            | Some rest, _, _ => Ok (JNull, rest)
            | _, Some rest, _ => Ok (JBool true, rest)
            | _, _, Some rest => Ok (JBool false, rest)
            | _, _, _ =>
                match match_number s with
                | Some (literal, rest) => Ok (JNum (num_of literal), rest)
                | None => Raise ValueError
                end
            end
      end
  end
with array_loop (n : nat) (s : string) (values : list json) {struct n}
    : pyres (list json * string) :=
  match n with
  | 0 => Raise ValueError
  | S n =>
      '(value, s) ← scan_once n s;
      match skip_ws s with
      | "" => Raise ValueError
      | String c r =>
          if Ascii.eqb c "]" then Ok ((values ++ [value])%list, r)
          else if Ascii.eqb c "," then
            array_loop n (skip_ws r) (values ++ [value])%list
          else Raise ValueError
      end
  end
with object_loop (n : nat) (s : string) (pairs : list (string * json))
    {struct n} : pyres (list (string * json) * string) :=
  match n with
  | 0 => Raise ValueError
  | S n =>
      '(key, s) ← scanstring s;
      match skip_ws s with
      | "" => Raise ValueError
      | String c r =>
          if Ascii.eqb c ":" then
            '(value, s) ← scan_once n (skip_ws r);
            match skip_ws s with
            | "" => Raise ValueError
            | String c r =>
                if Ascii.eqb c "}" then Ok ((pairs ++ [(key, value)])%list, r)
                else if Ascii.eqb c "," then
                  match skip_ws r with
                  | "" => Raise ValueError
                  | String c' r' =>
                      if Ascii.eqb c' quote then
                        object_loop n r' (pairs ++ [(key, value)])%list
                      else Raise ValueError
                  end
                else Raise ValueError
            end
          else Raise ValueError
      end
  end.

(** [json.loads(s)]: one value, with whitespace before and after it and
    nothing else. *)
Definition loads (s : string) : pyres json :=
  '(obj, rest) ← scan_once (S (2 * String.length s)) (skip_ws s);
  match skip_ws rest with
  | "" => Ok obj
  | _ => Raise ValueError
  end.

(** The text after a value in the text of a list or of a dictionary, and
    at the end of the whole text. *)
Definition delimited (rest : string) : bool :=
  match rest with
  | "" => true
  | String c _ => Ascii.eqb c "," || Ascii.eqb c "]" || Ascii.eqb c "}"
  end.

(** What the round trip of a value rests on: [unique_keys d], each
    dictionary of [d] has each key once, as a dictionary of Python has;
    [numbers_kept d], Python writes each number of [d] as a number
    literal and reads the same number from it. *)
Fixpoint unique_keys (d : json) : bool :=
  match d with
  | JArr l => forallb unique_keys l
  | JObj kvs =>
      bool_decide (NoDup (fst <$> kvs))
      && forallb (λ kv, unique_keys (snd kv)) kvs
  | _ => true
  end.

Fixpoint numbers_kept (d : json) : bool :=
  match d with
  | JNum q =>
      bool_decide (match_number (num_repr q) = Some (num_repr q, ""))
      && bool_decide (num_of (num_repr q) = q)
  | JArr l => forallb numbers_kept l
  | JObj kvs => forallb (λ kv, numbers_kept (snd kv)) kvs
  | _ => true
  end.

End codec.
End Json.

(** ** Sample files *)

Module Sample.
Open Scope string_scope.

(** The path of the specification's scenario for one station. *)
Definition gap_xs : list cell := [None; None; Some 5.0%Q; Some 6.0%Q; None].
Definition gap_ys : list cell := [None; None; Some 1.0%Q; Some 2.0%Q; None].

(** A path of two valid samples. *)
Definition two_xs : list cell := [Some 1.5%Q; Some 2.5%Q].
Definition two_ys : list cell := [Some 0.0%Q; Some 0.5%Q].

Definition blue3 : list json :=
  [team_entry "frc2046" two_xs two_ys; team_entry "frc360" two_xs two_ys;
   team_entry "frc1318" two_xs two_ys].

Definition red3 : list json :=
  [team_entry "frc2910" two_xs two_ys; team_entry "frc4911" two_xs two_ys;
   team_entry "frc2557" two_xs two_ys].

Definition tracked : json := zebra_data blue3 red3 [Some 0.0%Q; Some 0.1%Q].

(** The file of the specification's scenario: three matches of one
    event, the second one without tracking data. *)
Definition qm1 : json := match_data "2020wasno" "2020wasno_qm1" tracked JNull.
Definition qm2 : json := match_data "2020wasno" "2020wasno_qm2" JNull JNull.
Definition qm3 : json := match_data "2020wasno" "2020wasno_qm3" tracked JNull.

Definition scenario : list (string * json) :=
  [("line 1", qm1); ("line 2", qm2); ("line 3", qm3)].

(** A file with the key of [qm1] on two lines that differ in their score. *)
Definition qm1_replay : json :=
  match_data "2020wasno" "2020wasno_qm1" tracked
             (JObj [("winning_alliance", JStr "red")]).

Definition replayed : list (string * json) :=
  [("line 1", qm1); ("line 2", qm1_replay)].

(** A file without tracking data. *)
Definition untracked : list (string * json) := [("line 1", qm2)].

(** A record with two teams in the blue alliance. *)
Definition two_blue : json :=
  match_data "2020wasno" "2020wasno_qm4"
    (zebra_data [team_entry "frc2046" two_xs two_ys;
                 team_entry "frc360" two_xs two_ys]
                red3 [Some 0.0%Q; Some 0.1%Q])
    JNull.

(** A record whose first blue team has no [xs]. *)
Definition no_xs : json :=
  match_data "2020wasno" "2020wasno_qm5"
    (zebra_data [JObj [("team_key", JStr "frc2046");
                       ("ys", JArr (cell_json <$> two_ys))];
                 team_entry "frc360" two_xs two_ys;
                 team_entry "frc1318" two_xs two_ys]
                red3 [Some 0.0%Q; Some 0.1%Q])
    JNull.

(** A record of three and three teams with rows of one length, in which
    station blue1 has no valid sample and a y that is present. *)
Definition lone_y : json :=
  match_data "2020wasno" "2020wasno_qm6"
    (zebra_data [team_entry "frc2046" [None; None] [None; Some 0.5%Q];
                 team_entry "frc360" two_xs two_ys;
                 team_entry "frc1318" two_xs two_ys]
                red3 [Some 0.0%Q; Some 0.1%Q])
    JNull.

End Sample.

(** ** Raw match records, in the words of the specification *)

(** A team entry and a raw match record as the input format has them. *)
Record team : Type := {
  team_key : string;
  xs : list cell;
  ys : list cell
}.

Record raw_match : Type := {
  r_event : string;
  r_match : string;
  r_blue : list team;
  r_red : list team;
  r_times : list cell;
  r_score : json
}.

(** The decoded dictionary [t] is the team entry [e]. *)
Definition is_team (t : json) (e : team) : Prop :=
  getitem t "team_key" = Ok (JStr (team_key e)) ∧
  getitem t "xs" = Ok (JArr (cell_json <$> xs e)) ∧
  getitem t "ys" = Ok (JArr (cell_json <$> ys e)).

(** The decoded dictionary [d] is the raw match record [r]. *)
Definition is_record (d : json) (r : raw_match) : Prop :=
  getitem d "event" = Ok (JStr (r_event r)) ∧
  getitem d "match" = Ok (JStr (r_match r)) ∧
  getitem d "score" = Ok (r_score r) ∧
  ∃ z a bl rd,
    getitem d "zebra" = Ok z ∧
    getitem z "times" = Ok (JArr (cell_json <$> r_times r)) ∧
    getitem z "alliances" = Ok a ∧
    getitem a "blue" = Ok (JArr bl) ∧ Forall2 is_team bl (r_blue r) ∧
    getitem a "red" = Ok (JArr rd) ∧ Forall2 is_team rd (r_red r).

(** The rows of a list of teams in station order: [xs] then [ys] of each. *)
Definition rows_of (ts : list team) : list (list cell) :=
  t ← ts; [xs t; ys t].

(** ** Samples of a path, in the words of the specification *)

(** Sample [i] is missing when its x or its y is the missing-value marker. *)
Definition missing_at (xs ys : list cell) (i : nat) : Prop :=
  xs !! i = Some None ∨ ys !! i = Some None.

#[global] Instance missing_at_dec xs ys i : Decision (missing_at xs ys i).
Proof. unfold missing_at. apply _. Defined.

(** Sample [i] is valid, with coordinates [x] and [y]. *)
Definition valid_at (xs ys : list cell) (i : nat) (x y : Q) : Prop :=
  xs !! i = Some (Some x) ∧ ys !! i = Some (Some y).

(** The 0-based indices of the missing samples, in increasing order. *)
Definition missing_indices (xs ys : list cell) : list nat :=
  filter (missing_at xs ys) (seq 0 (length xs)).

(** The 0-based indices of the samples that are not missing. *)
Definition valid_indices (xs ys : list cell) : list nat :=
  filter (λ i, ¬ missing_at xs ys i) (seq 0 (length xs)).

(** A pair of coordinates one of which is the missing-value marker. *)
Definition gap (p : cell * cell) : Prop := p.1 = None ∨ p.2 = None.

(** [i] is the last valid sample: every later sample is missing. *)
Definition last_valid_at (xs ys : list cell) (i : nat) (x y : Q) : Prop :=
  valid_at xs ys i x y ∧
  ∀ j, i < j → j < length xs → missing_at xs ys j.

(** [i] is the first valid sample: every earlier sample is missing. *)
Definition first_valid_at (xs ys : list cell) (i : nat) (x y : Q) : Prop :=
  valid_at xs ys i x y ∧ ∀ j, j < i → missing_at xs ys j.

(** ** Lines of the file, in the words of the specification *)

(** The decoded line [p] is a line of event [e]. *)
Definition line_event (p : json) (e : string) : bool :=
  match getitem p "event" with
  | Ok (JStr s) => bool_decide (s = e)
  | _ => false
  end.

(** The decoded line [p] carries tracking data: its [zebra] is not null. *)
Definition has_zebra (p : json) : bool :=
  match getitem p "zebra" with
  | Ok z => negb (is_null z)
  | Raise _ => false
  end.

(** The sum of the path column over the rows of event [e]. *)
Definition group_total (rows : list (string * nat)) (e : string) : nat :=
  sum_list (snd <$> filter (λ r, r.1 = e) rows).

(** The text [line] decodes to a line of event [e] with tracking data. *)
Definition tracked_line (json_loads : string → pyres json) (e : string)
    (line : string) : bool :=
  match json_loads line with
  | Ok d => line_event d e && has_zebra d
  | Raise _ => false
  end.

(** The dictionary of a match in the downloaded file: the two replies, or
    nulls when a request for the match fails. *)
Definition row_of (api : Data.tba) (event_key match_key : string) : json :=
  match Data.fetch api match_key with
  | Some (zdata, score_data) => match_data event_key match_key zdata score_data
  | None => match_data event_key match_key JNull JNull
  end.

Definition failed (api : Data.tba) (match_key : string) : bool :=
  match Data.fetch api match_key with
  | Some _ => false
  | None => true
  end.

(** The number of matches tried before an event without data is given
    up: one more than [max_no_path_matches], and 1 when that is negative. *)
Definition tries (max_no_path_matches : Z) : nat :=
  S (Z.to_nat max_no_path_matches).

(** The sum of the counts of a summary over its events. *)
Definition summary_sum (summary : gmap string nat) : nat :=
  map_fold (λ _ n acc, n + acc) 0 summary.

From Stdlib Require Import DecimalString.

(** Decimal conversion for the numbers of the samples: the rational
    [n / 10^k] is written with [k] digits after the point (for [k = 0],
    as an integer), and a literal without exponent is read as its digits
    over the power of ten of its fraction. *)
Module Decimal.
Import Stdlib.Strings.Ascii.
Open Scope string_scope.

Fixpoint zeros (n : nat) : string :=
  match n with
  | 0 => ""
  | S n => String "0" (zeros n)
  end.

Definition num_repr (q : Q) : string :=
  let k := String.length (NilZero.string_of_uint (Pos.to_uint (Qden q))) - 1 in
  let ds := NilZero.string_of_uint (N.to_uint (Z.abs_N (Qnum q))) in
  let ds := zeros (S k - String.length ds) ++ ds in
  let n := String.length ds - k in
  (if (Qnum q <? 0)%Z then "-" else "")
  ++ String.substring 0 n ds
  ++ (if Nat.eqb k 0 then "" else String "." (String.substring n k ds)).

Fixpoint without_point (s : string) : string * option nat :=
  match s with
  | "" => ("", None)
  | String c s' =>
      let '(ds, k) := without_point s' in
      if Ascii.eqb c "." then (ds, Some (String.length ds))
      else (String c ds, k)
  end.

Definition num_of (s : string) : Q :=
  let '(neg, s) := match s with
                   | String c s' => if Ascii.eqb c "-" then (true, s')
                                    else (false, s)
                   | "" => (false, s)
                   end in
  let '(ds, k) := without_point s in
  match NilZero.uint_of_string ds with
  | Some u =>
      let n := Z.of_N (N.of_uint u) in
      Qmake (if neg then - n else n) (Z.to_pos (10 ^ Z.of_nat (default 0 k)))
  | None => 0%Q
  end.

End Decimal.

(** ** Further sample files *)

Module Season.
Import Sample.
Open Scope string_scope.

(** The entry of a team with the path of two valid samples. *)
Definition team_of (k : string) : team :=
  {| team_key := k; xs := two_xs; ys := two_ys |}.

Definition blue_teams : list team :=
  [team_of "frc2046"; team_of "frc360"; team_of "frc1318"].

Definition red_teams : list team :=
  [team_of "frc2910"; team_of "frc4911"; team_of "frc2557"].

(** The raw record of [Sample.qm1]. *)
Definition qm1_record : raw_match :=
  {| r_event := "2020wasno"; r_match := "2020wasno_qm1";
     r_blue := blue_teams; r_red := red_teams;
     r_times := [Some 0.0%Q; Some 0.1%Q]; r_score := JNull |}.

(** A record with four teams in the blue alliance. *)
Definition seven : json :=
  match_data "2020wasno" "2020wasno_qm7"
    (zebra_data (blue3 ++ [team_entry "frc4450" two_xs two_ys]) red3
                [Some 0.0%Q; Some 0.1%Q])
    JNull.

Definition seven_record : raw_match :=
  {| r_event := "2020wasno"; r_match := "2020wasno_qm7";
     r_blue := blue_teams ++ [team_of "frc4450"]; r_red := red_teams;
     r_times := [Some 0.0%Q; Some 0.1%Q]; r_score := JNull |}.

(** A file with the lines of two events. *)
Definition other : json := match_data "2020wasam" "2020wasam_qm1" tracked JNull.

Definition mixed : list (string * json) :=
  [("line 1", qm1); ("line 2", other); ("line 3", qm2); ("line 4", qm3)].

(** A file with a line that is not parsed. *)
Definition broken : list (string * json) :=
  [("line 1", qm1); ("line 2", lone_y)].

(** A file with matches of two levels, out of the order of their numbers. *)
Definition qm10 : json := match_data "2020wasno" "2020wasno_qm10" tracked JNull.
Definition qf1m1 : json :=
  match_data "2020wasno" "2020wasno_qf1m1" tracked JNull.

Definition levels : list (string * json) :=
  [("line 1", qm10); ("line 2", qf1m1); ("line 3", qm3)].

(** Replies of the server for one event of two matches, the second one
    without tracking data. *)
Definition api : Data.tba :=
  {| Data.get_events key :=
       if String.eqb key "2020" then Some ["2020wasno"] else None;
     Data.get_match_keys event_key :=
       if String.eqb event_key "2020wasno"
       then Some ["2020wasno_qm1"; "2020wasno_qm2"] else None;
     Data.get_zebra match_key :=
       if String.eqb match_key "2020wasno_qm1" then Some tracked else None;
     Data.get_match_scores _ := Some JNull |}.

End Season.

(** * Properties *)

(** ** The scan of a path *)

Section scan.
Import Match.

Lemma first_valid_found (l : list (cell * cell)) k j x y :
  l !! j = Some (Some x, Some y) →
  (∀ j' p, j' < j → l !! j' = Some p → gap p) →
  first_valid (enumerate_from k l) = Some (k + j, x, y).
Proof.
  revert k j. induction l as [|[a b] l IH]; intros k j Hj Hbefore; [done|].
  destruct j as [|j]; simpl in *.
  - injection Hj as -> ->. by rewrite Nat.add_0_r.
  - assert (gap (a, b)) as Hab by (apply (Hbefore 0); [lia|done]).
    rewrite (IH (S k) j Hj).
    + replace (S k + j) with (k + S j) by lia.
      destruct Hab as [Ha|Hb]; simpl in *; subst; [done|by destruct a].
    + intros j' p Hlt Hp. apply (Hbefore (S j')); [lia|done].
Qed.

Lemma first_valid_absent (l : list (cell * cell)) k :
  (∀ j p, l !! j = Some p → gap p) →
  first_valid (enumerate_from k l) = None.
Proof.
  revert k. induction l as [|[a b] l IH]; intros k Hall; [done|].
  assert (gap (a, b)) as Hab by (by apply (Hall 0)).
  simpl. rewrite IH; [|intros j p Hp; by apply (Hall (S j))].
  destruct Hab as [Ha|Hb]; simpl in *; subst; [done|by destruct a].
Qed.

Lemma first_valid_bound (l : list (cell * cell)) k t x y :
  first_valid (enumerate_from k l) = Some (t, x, y) → k ≤ t < k + length l.
Proof.
  revert k. induction l as [|[[a|] [b|]] l IH]; intros k H; simplify_eq/=;
    try lia; apply IH in H; lia.
Qed.

Lemma missing_coords_length (l : list (cell * cell)) k :
  length (missing_coords (enumerate_from k l)) ≤ length l.
Proof.
  revert k. induction l as [|[a b] l IH]; intros k; simpl; [done|].
  specialize (IH (S k)). destruct (is_None a || is_None b); simpl; lia.
Qed.

Lemma zip_gap (xs ys : list cell) j p :
  zip xs ys !! j = Some p → missing_at xs ys j → gap p.
Proof.
  rewrite lookup_zip_with. unfold missing_at, gap.
  destruct (xs !! j), (ys !! j); intros Hp [H|H]; simplify_eq/=; auto.
Qed.

Lemma zip_valid (xs ys : list cell) j x y :
  valid_at xs ys j x y → zip xs ys !! j = Some (Some x, Some y).
Proof.
  intros [Hx Hy]. rewrite lookup_zip_with.
  destruct (xs !! j), (ys !! j); by simplify_eq/=.
Qed.

Lemma forallb_is_None_lookup (xs : list cell) i x :
  xs !! i = Some (Some x) → forallb is_None xs = false.
Proof.
  revert i. induction xs as [|a xs IH]; intros [|i] H; simplify_eq/=; [done|].
  rewrite (IH i H). apply andb_false_r.
Qed.

Lemma forallb_is_None_all (xs : list cell) :
  forallb is_None xs = true ↔ ∀ i, i < length xs → xs !! i = Some None.
Proof.
  induction xs as [|a xs IH]; simpl.
  - split; [intros _ i Hi; lia|done].
  - rewrite andb_true_iff, IH. split.
    + intros [Ha H] [|i] Hi; simpl; [by destruct a|apply H; lia].
    + intros H. split.
      * specialize (H 0 ltac:(lia)). simpl in H. by simplify_eq.
      * intros i Hi. apply (H (S i)). lia.
Qed.

Lemma filter_ext_elem {A} (P1 P2 : A → Prop)
    `{!∀ x, Decision (P1 x), !∀ x, Decision (P2 x)} (l : list A) :
  (∀ x, x ∈ l → P1 x ↔ P2 x) → filter P1 l = filter P2 l.
Proof.
  induction l as [|a l IH]; intros Hiff; [done|].
  rewrite !filter_cons, IH by (intros x Hx; apply Hiff; by right).
  destruct (decide (P1 a)) as [H1|H1], (decide (P2 a)) as [H2|H2];
    try done; exfalso; apply (Hiff a) in H1 || apply (Hiff a) in H2;
    done || by left.
Qed.

(** The list built by the loop of line 57 is the list of the missing
    indices. *)
Lemma missing_coords_from (xs ys : list cell) k :
  length xs = length ys →
  missing_coords (enumerate_from k (zip xs ys))
  = filter (λ i, missing_at xs ys (i - k)) (seq k (length xs)).
Proof.
  revert ys k. induction xs as [|a xs IH]; intros [|b ys] k Hlen;
    simplify_eq/=; [done|].
  rewrite IH by done.
  assert (filter (λ i, missing_at xs ys (i - S k)) (seq (S k) (length xs))
          = filter (λ i, missing_at (a :: xs) (b :: ys) (i - k))
                   (seq (S k) (length xs))) as ->.
  { apply filter_ext_elem. intros i Hi.
    apply elem_of_seq in Hi. unfold missing_at.
    replace (i - k) with (S (i - S k)) by lia. done. }
  rewrite filter_cons. unfold missing_at at 2. rewrite Nat.sub_diag. simpl.
  destruct a, b; simpl; repeat case_decide; naive_solver.
Qed.

Lemma missing_coords_indices (xs ys : list cell) :
  length xs = length ys →
  missing_coords (enumerate (zip xs ys)) = missing_indices xs ys.
Proof.
  intros Hlen. unfold enumerate, missing_indices.
  rewrite missing_coords_from by done.
  apply list_filter_iff. intros i. by rewrite Nat.sub_0_r.
Qed.

Lemma missing_indices_le (xs ys : list cell) :
  length (missing_indices xs ys) ≤ length xs.
Proof.
  unfold missing_indices. etrans; [apply length_filter|].
  by rewrite length_seq.
Qed.

Lemma missing_indices_all (xs ys : list cell) :
  (∀ i, i < length xs → missing_at xs ys i) →
  missing_indices xs ys = seq 0 (length xs).
Proof.
  intros Hall. unfold missing_indices.
  rewrite (filter_ext_elem _ (λ _, True)).
  - induction (seq 0 (length xs)) as [|a l IH]; [done|].
    by rewrite filter_cons_True, IH.
  - intros i Hi. apply elem_of_seq in Hi. split; [done|].
    intros _. apply Hall. lia.
Qed.

Lemma first_valid_some (l : list (cell * cell)) k j x y :
  l !! j = Some (Some x, Some y) →
  is_Some (first_valid (enumerate_from k l)).
Proof.
  revert k j. induction l as [|[a b] l IH]; intros k [|j] Hj; simplify_eq/=.
  - eauto.
  - destruct a, b; eauto.
Qed.

Lemma valid_at_reverse (xs ys : list cell) i x y :
  length xs = length ys → valid_at xs ys i x y →
  valid_at (reverse xs) (reverse ys) (length xs - S i) x y.
Proof.
  intros Hlen [Hx Hy].
  pose proof (lookup_lt_Some _ _ _ Hx) as Hi.
  split.
  - rewrite reverse_lookup by lia.
    by replace (length xs - S (length xs - S i)) with i by lia.
  - rewrite reverse_lookup by lia. rewrite <-Hlen.
    by replace (length xs - S (length xs - S i)) with i by lia.
Qed.

Lemma missing_at_reverse (xs ys : list cell) j :
  length xs = length ys → j < length xs →
  missing_at xs ys (length xs - S j) →
  missing_at (reverse xs) (reverse ys) j.
Proof.
  intros Hlen Hj. unfold missing_at.
  rewrite !reverse_lookup by lia. by rewrite <-Hlen.
Qed.

(** Both coordinate lists entirely missing: the guard of line 53. *)
Lemma scan_path_entirely_missing (xs ys : list cell) :
  (∀ i, i < length xs → xs !! i = Some None) →
  (∀ i, i < length ys → ys !! i = Some None) →
  _scan_path xs ys
  = Ok {| st_start := None; st_end := None; st_n := 0; st_missing := None |}.
Proof.
  intros Hx Hy. unfold _scan_path.
  apply forallb_is_None_all in Hx. apply forallb_is_None_all in Hy.
  by rewrite Hx, Hy.
Qed.

(** Past the guard, the result is put together from the three loops. *)
Lemma scan_path_loops (xs ys : list cell) i x t a b t' a' b' :
  length xs = length ys →
  xs !! i = Some (Some x) →
  first_valid (enumerate (zip xs ys)) = Some (t, a, b) →
  first_valid (enumerate (zip (reverse xs) (reverse ys))) = Some (t', a', b') →
  _scan_path xs ys
  = Ok {| st_start := Some (a, b, t);
          st_end := Some (a', b', length xs - t');
          st_n := length xs - length (missing_indices xs ys);
          st_missing := Some (missing_indices xs ys) |}.
Proof.
  intros Hlen Hx Hs He. unfold _scan_path.
  rewrite (forallb_is_None_lookup xs i x) by done. simpl.
  by rewrite missing_coords_indices, Hs, He.
Qed.

(** With a valid sample, both loops find one and the scan returns. *)
Lemma scan_path_valid (xs ys : list cell) i x y :
  length xs = length ys → valid_at xs ys i x y →
  ∃ s e,
    _scan_path xs ys
    = Ok {| st_start := Some s; st_end := Some e;
            st_n := length xs - length (missing_indices xs ys);
            st_missing := Some (missing_indices xs ys) |}.
Proof.
  intros Hlen Hv.
  destruct (first_valid_some (zip xs ys) 0 i x y) as [[[t a] b] Hs];
    [by apply zip_valid|].
  destruct (first_valid_some (zip (reverse xs) (reverse ys)) 0
              (length xs - S i) x y) as [[[t' a'] b'] He];
    [by apply zip_valid, valid_at_reverse|].
  eexists _, _. eapply scan_path_loops; [done|apply Hv|done..].
Qed.

(** C1 (as the code has it): with [i] the last valid sample of a path, the
    scan returns and records as ['end'] the coordinates of sample [i]
    together with the index [i + 1], one more than the 0-based index of
    that sample. *)
Theorem scan_path_end (xs ys : list cell) i x y :
  length xs = length ys → last_valid_at xs ys i x y →
  ∃ st, _scan_path xs ys = Ok st ∧ st_end st = Some (x, y, S i).
Proof.
  intros Hlen [Hv Hlast].
  pose proof (lookup_lt_Some _ _ _ (proj1 Hv)) as Hi.
  destruct (first_valid_some (zip xs ys) 0 i x y) as [[[t a] b] Hs];
    [by apply zip_valid|].
  eexists. split.
  - eapply scan_path_loops; [done|apply Hv|done|].
    apply (first_valid_found _ 0 (length xs - S i) x y).
    + by apply zip_valid, valid_at_reverse.
    + intros j p Hj Hp. apply (zip_gap _ _ _ _ Hp).
      apply missing_at_reverse; [done|lia|]. apply Hlast; lia.
  - simpl. do 2 f_equal. lia.
Qed.

(** The first loop is right: with [i] the first valid sample, ['start'] is
    that sample with its 0-based index. *)
Lemma scan_path_start (xs ys : list cell) i x y :
  length xs = length ys → first_valid_at xs ys i x y →
  ∃ st, _scan_path xs ys = Ok st ∧ st_start st = Some (x, y, i).
Proof.
  intros Hlen [Hv Hfirst].
  destruct (first_valid_some (zip (reverse xs) (reverse ys)) 0
              (length xs - S i) x y) as [[[t' a'] b'] He];
    [by apply zip_valid, valid_at_reverse|].
  exists {| st_start := Some (x, y, i);
            st_end := Some (a', b', length xs - t');
            st_n := length xs - length (missing_indices xs ys);
            st_missing := Some (missing_indices xs ys) |}.
  split; [|done].
  eapply scan_path_loops; [done|apply Hv| |done].
  apply (first_valid_found _ 0 i x y); [by apply zip_valid|].
  intros j p Hj Hp. apply (zip_gap _ _ _ _ Hp). by apply Hfirst.
Qed.

(** C2 (amended): for a path with a valid sample, ['missing'] is the list
    of the indices at which x or y is missing and ['n'] is the length of
    the path minus the number of these indices; for a path whose xs and ys
    are both entirely missing, ['missing'] is [None] and ['n'] is 0, again
    the length minus the number of missing indices. *)
Theorem scan_path_missing_count (xs ys : list cell) :
  length xs = length ys →
  ((∃ i x y, valid_at xs ys i x y) →
   ∃ st, _scan_path xs ys = Ok st ∧
         st_missing st = Some (missing_indices xs ys) ∧
         st_n st = length xs - length (missing_indices xs ys)) ∧
  ((∀ i, i < length xs → xs !! i = Some None ∧ ys !! i = Some None) →
   ∃ st, _scan_path xs ys = Ok st ∧
         st_missing st = None ∧ st_n st = 0 ∧
         st_n st = length xs - length (missing_indices xs ys)).
Proof.
  intros Hlen. split.
  - intros (i & x & y & Hv).
    destruct (scan_path_valid xs ys i x y Hlen Hv) as (s & e & ->). eauto.
  - intros Hall. eexists. split.
    + apply scan_path_entirely_missing; [intros; by apply Hall|].
      intros i Hi. apply Hall. by rewrite Hlen.
    + simpl. split; [done|]. split; [done|].
      rewrite missing_indices_all, length_seq; [lia|].
      intros i Hi. left. by apply Hall.
Qed.

(** C3 (as the code has it): a path without a valid sample whose xs and ys
    are not both entirely missing leaves [start] unbound, and the scan
    raises instead of returning. *)
Theorem scan_path_no_valid_raises (xs ys : list cell) :
  length xs = length ys →
  (∀ i, i < length xs → missing_at xs ys i) →
  (∃ i v, xs !! i = Some (Some v) ∨ ys !! i = Some (Some v)) →
  _scan_path xs ys = Raise UnboundLocalError.
Proof.
  intros Hlen Hall (i & v & Hv). unfold _scan_path.
  assert (forallb is_None xs && forallb is_None ys = false) as ->.
  { destruct Hv as [Hv|Hv]; rewrite (forallb_is_None_lookup _ _ _ Hv);
      [done|apply andb_false_r]. }
  unfold enumerate. rewrite first_valid_absent; [done|].
  intros j p Hp. apply (zip_gap _ _ _ _ Hp), Hall.
  apply lookup_lt_Some in Hp. rewrite length_zip_with in Hp. lia.
Qed.

End scan.

(** ** Results and loops *)

(** Inversion of [x ← m; k x = Ok b]: [m] returned. *)
Ltac bind_inv H x Hx :=
  lazymatch type of H with
  | mbind _ ?m = Ok _ =>
      destruct m as [x|] eqn:Hx; cbn [mbind pyres_bind] in H;
      [|discriminate H]
  end.

Lemma is_raise_bind {A B} (m : pyres A) (f : A → pyres B) :
  is_raise m → is_raise (m ≫= f).
Proof. intros [e ->]. by exists e. Qed.

Lemma mapM_raise {A B} (f : A → pyres B) (l : list A) x :
  x ∈ l → is_raise (f x) → is_raise (mapM f l).
Proof.
  intros Hx [e He]. induction l as [|y l IH]; [by apply elem_of_nil in Hx|].
  simpl. apply elem_of_cons in Hx as [<-|Hx].
  - rewrite He. by exists e.
  - destruct (f y); simpl; [|by eexists].
    destruct (IH Hx) as [e' ->]. by exists e'.
Qed.

Lemma mapM_Forall2 {A B} (f : A → pyres B) (l : list A) (k : list B) :
  Forall2 (λ a b, f a = Ok b) l k → mapM f l = Ok k.
Proof. induction 1 as [|a b l k Hab _ IH]; simpl; [done|]. by rewrite Hab, IH. Qed.

Lemma mapM_Ok_Forall2 {A B} (f : A → pyres B) (l : list A) (k : list B) :
  mapM f l = Ok k → Forall2 (λ a b, f a = Ok b) l k.
Proof.
  revert k. induction l as [|a l IH]; intros k H; simpl in H.
  - injection H as <-. constructor.
  - destruct (f a) as [b|] eqn:Hb; simpl in H; [|done].
    destruct (mapM f l) as [k'|] eqn:Hk; simpl in H; [|done].
    injection H as <-. constructor; [done|by apply IH].
Qed.

Lemma as_cells_cell_json (l : list cell) :
  as_cells (JArr (cell_json <$> l)) = Ok l.
Proof.
  simpl. apply mapM_Forall2. induction l as [|[q|] l IH]; by constructor.
Qed.

(** ** The constructor of [Match] *)

Section init.
Variable json_loads : string → pyres json.

Lemma getitem_Ok_obj d k v : getitem d k = Ok v → ∃ kvs, d = JObj kvs.
Proof. destruct d; try done. eauto. Qed.

Lemma alliance_list d name z a l :
  getitem d "zebra" = Ok z → getitem z "alliances" = Ok a →
  getitem a name = Ok (JArr l) → Match.alliance d name = Ok l.
Proof.
  intros Hz Ha Hl. unfold Match.alliance.
  rewrite Hz. cbn [mbind pyres_bind]. rewrite Ha. cbn [mbind pyres_bind].
  by rewrite Hl.
Qed.

Lemma team_keys_raise d name l t kvs :
  Match.alliance d name = Ok l → t ∈ l →
  t = JObj kvs → assoc "team_key" kvs = None →
  is_raise (Match.team_keys d name).
Proof.
  intros Hl Ht -> Hk. unfold Match.team_keys. rewrite Hl. simpl.
  apply (mapM_raise _ _ (JObj kvs)); [done|]. simpl. rewrite Hk. by eexists.
Qed.

Lemma alliance_rows_raise d name l t kvs k :
  Match.alliance d name = Ok l → t ∈ l →
  t = JObj kvs → k = "xs"%string ∨ k = "ys"%string → assoc k kvs = None →
  is_raise (Match.alliance_rows d name).
Proof.
  intros Hl Ht -> Hk Hnone. unfold Match.alliance_rows. rewrite Hl. simpl.
  apply is_raise_bind, (mapM_raise _ _ (JObj kvs)); [done|].
  unfold Match.team_rows. simpl.
  destruct Hk as [-> | ->]; rewrite Hnone; simpl; [by eexists|].
  destruct (assoc "xs" kvs); by eexists.
Qed.

Lemma team_keys_ok d name l ts :
  Match.alliance d name = Ok l → Forall2 is_team l ts →
  Match.team_keys d name = Ok (team_key <$> ts).
Proof.
  intros Hl Hts. unfold Match.team_keys. rewrite Hl.
  cbn [mbind pyres_bind]. apply mapM_Forall2. clear Hl.
  induction Hts as [|t e l' ts (Hk & _ & _) _ IH]; csimpl; constructor;
    try done.
  by rewrite Hk.
Qed.

Lemma alliance_rows_ok d name l ts :
  Match.alliance d name = Ok l → Forall2 is_team l ts →
  Match.alliance_rows d name
  = Ok ((λ r, JArr (cell_json <$> r)) <$> rows_of ts).
Proof.
  intros Hl Hts. unfold Match.alliance_rows. rewrite Hl.
  cbn [mbind pyres_bind].
  rewrite (mapM_Forall2 _ _
             ((λ e, [JArr (cell_json <$> xs e); JArr (cell_json <$> ys e)])
                <$> ts)).
  - cbn [mbind pyres_bind]. f_equal. clear. unfold rows_of.
    induction ts as [|e ts IH]; [done|]. csimpl. by rewrite IH.
  - clear Hl.
    induction Hts as [|t e l' ts' (_ & Hx & Hy) _ IH]; csimpl; constructor;
      try done.
    unfold Match.team_rows. by rewrite Hx, Hy.
Qed.

Lemma np_array_ok (rows : list (list cell)) n :
  Forall (λ r, length r = n) rows →
  np_array ((λ r, JArr (cell_json <$> r)) <$> rows) = Ok rows.
Proof.
  intros Hn. unfold np_array.
  rewrite (mapM_Forall2 _ _ rows).
  - cbn [mbind pyres_bind]. destruct Hn as [|r rs Hr Hrs]; [done|].
    assert (forallb (λ r', length r' =? length r) rs = true) as ->; [|done].
    induction Hrs as [|r' rs Hr' _ IH]; [done|]. simpl.
    rewrite IH, andb_true_r. apply Nat.eqb_eq. congruence.
  - clear. induction rows; constructor; try done. apply as_cells_cell_json.
Qed.

Lemma rows_of_app ts1 ts2 : rows_of (ts1 ++ ts2) = rows_of ts1 ++ rows_of ts2.
Proof. unfold rows_of. apply bind_app. Qed.

Lemma rows_of_lookup ts j t :
  ts !! j = Some t →
  rows_of ts !! (2 * j) = Some (xs t) ∧ rows_of ts !! (2 * j + 1) = Some (ys t).
Proof.
  revert j. induction ts as [|e ts IH]; intros [|j] Hj; simplify_eq/=; [done|].
  replace (j + S (j + 0)) with (S (2 * j)) by lia.
  replace (S (2 * j) + 1) with (S (2 * j + 1)) by lia. simpl.
  by apply IH.
Qed.

Lemma rows_of_length ts n :
  Forall (λ t, length (xs t) = n ∧ length (ys t) = n) ts →
  Forall (λ r, length r = n) (rows_of ts).
Proof.
  induction 1 as [|t ts [Hx Hy] _ IH]; [constructor|].
  by repeat constructor.
Qed.

(** The loop over the teams runs to its end when every scan returns and
    there are at most six teams (the length of [stations]). The entry of
    a key is the one of the last team that has it. *)
Lemma scan_teams_ok (paths : list (list cell)) (ts : list team) k acc :
  k + length ts ≤ 6 →
  (∀ j t, ts !! j = Some t →
     paths !! (2 * (k + j)) = Some (xs t) ∧
     paths !! (2 * (k + j) + 1) = Some (ys t) ∧
     ∃ st, Match._scan_path (xs t) (ys t) = Ok st) →
  ∃ teams,
    foldlM (Match.scan_team paths) acc (enumerate_from k (team_key <$> ts))
    = Ok teams ∧
    (∀ key, (∀ t, t ∈ ts → team_key t ≠ key) → teams !! key = acc !! key) ∧
    (∀ j t, ts !! j = Some t →
       (∀ j' t', j < j' → ts !! j' = Some t' → team_key t' ≠ team_key t) →
       ∃ st station,
         Match._scan_path (xs t) (ys t) = Ok st ∧
         Match.stations !! (k + j) = Some station ∧
         teams !! team_key t
         = Some {| Match.td_stats := st; Match.td_xs := xs t;
                   Match.td_ys := ys t; Match.td_station := station |}).
Proof.
  revert k acc. induction ts as [|t ts IH]; intros k acc Hk Hts.
  { exists acc. split; [done|]. split; [done|]. by intros j t Hj. }
  destruct (Hts 0 t eq_refl) as (Hx & Hy & st & Hst).
  rewrite Nat.add_0_r in Hx, Hy. simpl in Hk.
  destruct (lookup_lt_is_Some_2 Match.stations k) as [stn Hstn];
    [simpl; lia|].
  cbn [fmap list_fmap enumerate_from foldlM Match.scan_team].
  unfold index. rewrite Hx, Hy. cbn [mbind pyres_bind].
  rewrite Hst. cbn [mbind pyres_bind]. rewrite Hstn. cbn [mbind pyres_bind].
  set (acc' := <[team_key t := _]> acc).
  destruct (IH (S k) acc') as (teams & Hteams & Hother & Hlast); [lia| |].
  { intros j t' Hj. replace (S k + j) with (k + S j) by lia. by apply Hts. }
  exists teams. split; [done|]. split.
  - intros key Hkey. rewrite Hother.
    + unfold acc'. apply lookup_insert_ne, Hkey. by left.
    + intros t' Ht'. apply Hkey. by right.
  - intros [|j] t' Hj Hlater; simplify_eq/=.
    + exists st, stn. split; [done|]. rewrite Nat.add_0_r. split; [done|].
      rewrite Hother.
      * unfold acc'. apply lookup_insert_eq.
      * intros t'' [i Hi]%list_elem_of_lookup.
        apply (Hlater (S i)); [lia|done].
    + replace (k + S j) with (S k + j) by lia. apply Hlast; [done|].
      intros j' t'' Hj' Ht''. apply (Hlater (S j')); [lia|done].
Qed.

(** A raw match record of at most six teams with rows of one length, each
    station of which is scanned without a raise, is parsed: the keys of
    the teams in list order, the rows in station order, and for each team
    (the last one of its key) the scan of its rows and its station. *)
Lemma init_record d r n :
  is_record d r →
  Forall (λ t, length (xs t) = n ∧ length (ys t) = n) (r_blue r ++ r_red r) →
  length (r_blue r ++ r_red r) ≤ 6 →
  Forall (λ t, ∃ st, Match._scan_path (xs t) (ys t) = Ok st)
         (r_blue r ++ r_red r) →
  ∃ teams,
    Match.__init__ json_loads d
    = Ok {| Match.event := r_event r; Match.match_ := r_match r;
            Match.blue := team_key <$> r_blue r;
            Match.red := team_key <$> r_red r;
            Match.paths := rows_of (r_blue r ++ r_red r);
            Match.times := r_times r; Match.score := r_score r;
            Match.teams := teams |} ∧
    ∀ j t, (r_blue r ++ r_red r) !! j = Some t →
      (∀ j' t', j < j' → (r_blue r ++ r_red r) !! j' = Some t' →
                team_key t' ≠ team_key t) →
      ∃ st station,
        Match._scan_path (xs t) (ys t) = Ok st ∧
        Match.stations !! j = Some station ∧
        teams !! team_key t
        = Some {| Match.td_stats := st; Match.td_xs := xs t;
                  Match.td_ys := ys t; Match.td_station := station |}.
Proof.
  intros (He & Hm & Hsc & z & a & bl & rd & Hz & Ht & Ha & Hb & Hbl & Hr & Hrd)
         Hlen Hsix Hscan.
  destruct (getitem_Ok_obj _ _ _ He) as [kvs ->].
  pose proof (alliance_list _ _ _ _ _ Hz Ha Hb) as Hab.
  pose proof (alliance_list _ _ _ _ _ Hz Ha Hr) as Har.
  destruct (scan_teams_ok (rows_of (r_blue r ++ r_red r))
              (r_blue r ++ r_red r) 0 ∅)
    as (teams & Hteams & _ & Hlast); [done| |].
  { intros j t Hj. destruct (rows_of_lookup _ _ _ Hj) as [Hx Hy].
    split; [done|]. split; [done|].
    rewrite Forall_forall in Hscan. apply Hscan.
    by apply list_elem_of_lookup_2 in Hj. }
  exists teams. split; [|exact Hlast].
  unfold Match.__init__. cbn [mbind pyres_bind].
  rewrite He, Hm. cbn [mbind pyres_bind as_str].
  rewrite (team_keys_ok _ _ _ _ Hab Hbl), (team_keys_ok _ _ _ _ Har Hrd).
  cbn [mbind pyres_bind].
  rewrite (alliance_rows_ok _ _ _ _ Hab Hbl), (alliance_rows_ok _ _ _ _ Har Hrd).
  cbn [mbind pyres_bind].
  rewrite <-(fmap_app _ (rows_of (r_blue r))), <-rows_of_app, (np_array_ok _ n)
    by by apply rows_of_length.
  cbn [mbind pyres_bind]. rewrite Hz. cbn [mbind pyres_bind].
  rewrite Ht. cbn [mbind pyres_bind].
  rewrite as_cells_cell_json. cbn [mbind pyres_bind].
  rewrite Hsc. cbn [mbind pyres_bind].
  unfold enumerate. rewrite <-(fmap_app team_key), Hteams. done.
Qed.

(** C8 (amended): the parser fails whenever an entry of an alliance list
    lacks the key [team_key], [xs] or [ys]. *)
Theorem init_missing_field_raises d bl rd t kvs k :
  Match.alliance d "blue" = Ok bl → Match.alliance d "red" = Ok rd →
  t ∈ bl ++ rd → t = JObj kvs →
  k ∈ ["team_key"; "xs"; "ys"]%string → assoc k kvs = None →
  is_raise (Match.__init__ json_loads d).
Proof.
  intros Hbl Hrd Ht Hkvs Hk Hnone.
  assert (∃ kvs', d = JObj kvs') as [kvs' ->].
  { unfold Match.alliance in Hbl. destruct d; try done. eauto. }
  unfold Match.__init__. cbn [mbind pyres_bind].
  destruct (getitem (JObj kvs') "event" ≫= as_str);
    cbn [mbind pyres_bind]; [|by eexists].
  destruct (getitem (JObj kvs') "match" ≫= as_str);
    cbn [mbind pyres_bind]; [|by eexists].
  apply elem_of_app in Ht.
  assert (k = "team_key"%string ∨ (k = "xs"%string ∨ k = "ys"%string))
    as [->|Hxy].
  { rewrite !elem_of_cons, elem_of_nil in Hk. tauto. }
  - destruct Ht as [Ht|Ht].
    + apply is_raise_bind. by eapply team_keys_raise.
    + destruct (Match.team_keys (JObj kvs') "blue");
        cbn [mbind pyres_bind]; [|by eexists].
      apply is_raise_bind. by eapply team_keys_raise.
  - destruct (Match.team_keys (JObj kvs') "blue");
      cbn [mbind pyres_bind]; [|by eexists].
    destruct (Match.team_keys (JObj kvs') "red");
      cbn [mbind pyres_bind]; [|by eexists].
    destruct Ht as [Ht|Ht].
    + apply is_raise_bind. by eapply alliance_rows_raise.
    + destruct (Match.alliance_rows (JObj kvs') "blue");
        cbn [mbind pyres_bind]; [|by eexists].
      apply is_raise_bind. by eapply alliance_rows_raise.
Qed.

End init.

(** ** The JSON text of a value *)

Section json_text.
Import Stdlib.Strings.Ascii.
Open Scope string_scope.

Lemma append_cons (x : ascii) (a b : string) :
  String x a ++ b = String x (a ++ b).
Proof. reflexivity. Qed.

Lemma append_nil (b : string) : "" ++ b = b.
Proof. reflexivity. Qed.

Lemma append_assoc (a b c : string) : (a ++ b) ++ c = a ++ (b ++ c).
Proof.
  induction a as [|x a IH]; [done|]. by rewrite !append_cons, IH.
Qed.

Lemma append_length (a b : string) :
  String.length (a ++ b) = (String.length a + String.length b)%nat.
Proof.
  induction a as [|x a IH]; [done|]. rewrite append_cons. simpl. by rewrite IH.
Qed.

Ltac ascii_cases c := destruct c as [[] [] [] [] [] [] [] []].

(** *** Strings *)

Lemma scanstring_escape_char (c : ascii) (tail : string) :
  Json.scanstring (Json.escape_char c ++ tail)
  = match Json.scanstring tail with
    | Ok (str, rest) => Ok (String c str, rest)
    | Raise e => Raise e
    end.
Proof. ascii_cases c; reflexivity. Qed.

Lemma scanstring_escape (s rest : string) :
  Json.scanstring (Json.escape s ++ String Json.quote rest) = Ok (s, rest).
Proof.
  induction s as [|c s IH]; [done|].
  cbn [Json.escape]. by rewrite append_assoc, scanstring_escape_char, IH.
Qed.

(** *** Number literals *)

Lemma delimited_head c rest :
  Json.delimited (String c rest) →
  Json.is_digit c = false ∧ Json.is_ws c = false ∧
  Ascii.eqb c "." = false ∧ Ascii.eqb c "e" = false ∧ Ascii.eqb c "E" = false ∧
  Ascii.eqb c "-" = false ∧ Ascii.eqb c "0" = false.
Proof. ascii_cases c; intros H; try done. Qed.

Lemma digits_app (s rest : string) :
  Json.delimited rest →
  Json.digits (s ++ rest) = ((Json.digits s).1, (Json.digits s).2 ++ rest).
Proof.
  intros Hrest. induction s as [|c s IH].
  - rewrite append_nil. destruct rest as [|c rest]; [done|].
    apply delimited_head in Hrest as (Hd & _). simpl. by rewrite Hd.
  - rewrite append_cons. simpl. destruct (Json.is_digit c); [|done].
    rewrite IH. by destruct (Json.digits s).
Qed.

Lemma match_unsigned_app (s rest i r : string) :
  Json.delimited rest → Json.match_unsigned s = Some (i, r) →
  Json.match_unsigned (s ++ rest) = Some (i, r ++ rest).
Proof.
  intros Hrest. destruct s as [|c s]; [done|]. rewrite append_cons. simpl.
  destruct (Ascii.eqb c "0"); [by intros [= <- <-]|].
  destruct (Json.is_digit c); [|done].
  rewrite digits_app by done. destruct (Json.digits s) as [ds r0].
  by intros [= <- <-].
Qed.

Lemma match_integer_app (s rest i r : string) :
  Json.delimited rest → Json.match_integer s = Some (i, r) →
  Json.match_integer (s ++ rest) = Some (i, r ++ rest).
Proof.
  intros Hrest. destruct s as [|c s]; [done|].
  rewrite append_cons. unfold Json.match_integer.
  destruct (Ascii.eqb c "-").
  - destruct (Json.match_unsigned s) as [[i' r']|] eqn:Hu; [|done].
    intros [= <- <-]. by rewrite (match_unsigned_app _ _ _ _ Hrest Hu).
  - intros Hu. rewrite <- append_cons. by apply match_unsigned_app.
Qed.

Lemma match_frac_app (s rest : string) :
  Json.delimited rest →
  Json.match_frac (s ++ rest)
  = ((Json.match_frac s).1, (Json.match_frac s).2 ++ rest).
Proof.
  intros Hrest. destruct s as [|c s].
  - rewrite append_nil. destruct rest as [|c rest]; [done|].
    apply delimited_head in Hrest as (_ & _ & Hdot & _). simpl. by rewrite Hdot.
  - rewrite append_cons. simpl. destruct (Ascii.eqb c "."); [|done].
    rewrite digits_app by done. destruct (Json.digits s) as [[|d ds] r0]; done.
Qed.

Lemma match_exp_app (s rest : string) :
  Json.delimited rest →
  Json.match_exp (s ++ rest)
  = ((Json.match_exp s).1, (Json.match_exp s).2 ++ rest).
Proof.
  intros Hrest. destruct s as [|e s].
  - rewrite append_nil. destruct rest as [|c rest]; [done|].
    apply delimited_head in Hrest as (_ & _ & _ & He & HE & _).
    simpl. by rewrite He, HE.
  - rewrite append_cons. simpl.
    destruct (Ascii.eqb e "e" || Ascii.eqb e "E"); [|done].
    destruct s as [|c s].
    + rewrite append_nil. destruct rest as [|c rest]; [done|].
      pose proof Hrest as Hrest'.
      apply delimited_head in Hrest as (Hd & _ & _ & _ & _ & Hm & _).
      assert (Ascii.eqb c "+" = false) as Hp.
      { revert Hrest'. clear. ascii_cases c; done. }
      rewrite Hm, Hp. simpl. by rewrite Hd.
    + rewrite append_cons.
      destruct (Ascii.eqb c "-" || Ascii.eqb c "+").
      * rewrite digits_app by done.
        destruct (Json.digits s) as [[|d ds] r0]; done.
      * rewrite <- append_cons. rewrite digits_app by done.
        destruct (Json.digits (String c s)) as [[|d ds] r0]; done.
Qed.

Lemma match_number_app (s rest lit r : string) :
  Json.delimited rest → Json.match_number s = Some (lit, r) →
  Json.match_number (s ++ rest) = Some (lit, r ++ rest).
Proof.
  intros Hrest. unfold Json.match_number.
  destruct (Json.match_integer s) as [[i s1]|] eqn:Hi; [|done].
  rewrite (match_integer_app _ _ _ _ Hrest Hi).
  rewrite match_frac_app by done. destruct (Json.match_frac s1) as [f s2].
  cbn [fst snd]. rewrite match_exp_app by done.
  destruct (Json.match_exp s2) as [e s3]. by intros [= <- <-].
Qed.

(** A number literal starts with a minus sign or a digit. *)
Lemma match_number_head (c : ascii) (s lit r : string) :
  Json.match_number (String c s) = Some (lit, r) →
  Ascii.eqb c Json.quote = false ∧ Ascii.eqb c "{" = false ∧
  Ascii.eqb c "[" = false ∧ Ascii.eqb c "]" = false ∧
  Ascii.eqb c "n" = false ∧ Ascii.eqb c "t" = false ∧
  Ascii.eqb c "f" = false ∧ Json.is_ws c = false.
Proof.
  unfold Json.match_number, Json.match_integer, Json.match_unsigned.
  ascii_cases c; intros H; try done.
Qed.


(** *** Values *)

Lemma json_nested_ind (P : json → Prop) :
  P JNull → (∀ b, P (JBool b)) → (∀ q, P (JNum q)) → (∀ s, P (JStr s)) →
  (∀ l, Forall P l → P (JArr l)) →
  (∀ kvs, Forall (λ kv, P kv.2) kvs → P (JObj kvs)) →
  ∀ d, P d.
Proof.
  intros Hnull Hbool Hnum Hstr Harr Hobj. fix IH 1.
  intros [|b|q|s|l|kvs]; [done..| |].
  - apply Harr. induction l as [|v l IHl]; constructor; [apply IH|done].
  - apply Hobj. induction kvs as [|kv kvs IHk]; constructor; [apply IH|done].
Qed.

Lemma dict_set_fresh k v (d : list (string * json)) :
  k ∉ d.*1 → Json.dict_set k v d = (d ++ [(k, v)])%list.
Proof.
  induction d as [|[k' v'] d IH]; [done|]. simpl.
  intros Hk. apply not_elem_of_cons in Hk as [Hne Hk].
  destruct (decide (k = k')); [done|]. by rewrite IH.
Qed.

Lemma dict_unique (pairs : list (string * json)) :
  NoDup pairs.*1 → Json.dict pairs = pairs.
Proof.
  unfold Json.dict. intros Hnd.
  assert (∀ acc, NoDup (acc ++ pairs)%list.*1 →
            foldl (λ d kv, Json.dict_set kv.1 kv.2 d) acc pairs
            = (acc ++ pairs)%list) as H.
  { clear Hnd. induction pairs as [|[k v] pairs IH]; intros acc Hnd; simpl.
    - by rewrite app_nil_r.
    - rewrite dict_set_fresh.
      + rewrite IH; rewrite <- (assoc_L (++)%list); done.
      + rewrite fmap_app in Hnd. apply NoDup_app in Hnd as (_ & Hnd & _).
        intros Hk. apply (Hnd k Hk). by left. }
  by apply (H []).
Qed.

Section codec.
Variable num_repr : Q → string.
Variable num_of : string → Q.

Lemma scan_once_string n (s rest : string) :
  Json.scan_once num_of (S n) (Json.encode_string s ++ rest)
  = Ok (JStr s, rest).
Proof.
  unfold Json.encode_string. rewrite append_cons, append_assoc, append_cons.
  rewrite append_nil. cbn [Json.scan_once].
  replace (Ascii.eqb Json.quote Json.quote) with true by done.
  by rewrite scanstring_escape.
Qed.

Lemma scan_once_number n (s lit rest : string) :
  Json.match_number s = Some (lit, rest) →
  Json.scan_once num_of (S n) s = Ok (JNum (num_of lit), rest).
Proof.
  intros H. destruct s as [|c s]; [done|].
  destruct (match_number_head _ _ _ _ H)
    as (Hq & Hbrace & Hbracket & _ & Hn & Ht & Hf & _).
  cbn [Json.scan_once Json.after]. by rewrite Hq, Hbrace, Hbracket, Hn, Ht, Hf, H.
Qed.

(** The text of a value starts with a character that is neither
    whitespace nor a closing bracket. *)
Lemma dumps_head d :
  Json.numbers_kept num_repr num_of d →
  ∃ c t, Json.dumps num_repr d = String c t ∧
         Json.is_ws c = false ∧ Ascii.eqb c "]" = false.
Proof.
  destruct d as [|[]|q|s|l|kvs]; intros Hd; try (by eexists _, _).
  simpl in Hd. apply andb_prop_elim in Hd as [Hlit%bool_decide_unpack _].
  simpl. destruct (num_repr q) as [|c t] eqn:Hq; [done|].
  destruct (match_number_head _ _ _ _ Hlit)
    as (_ & _ & _ & Hb & _ & _ & _ & Hws).
  by exists c, t.
Qed.

Lemma skip_ws_dumps d (rest : string) :
  Json.numbers_kept num_repr num_of d →
  Json.skip_ws (Json.dumps num_repr d ++ rest) = Json.dumps num_repr d ++ rest.
Proof.
  intros (c & t & -> & Hws & _)%dumps_head.
  rewrite append_cons. simpl. by rewrite Hws.
Qed.


Lemma concat_cons (sep x y : string) (l : list string) :
  String.concat sep (x :: y :: l) = x ++ sep ++ String.concat sep (y :: l).
Proof. reflexivity. Qed.

Lemma concat_singleton (sep x : string) : String.concat sep [x] = x.
Proof. reflexivity. Qed.

Lemma skip_ws_items (l : list json) (rest : string) :
  Forall (λ v, Json.numbers_kept num_repr num_of v) l → l ≠ [] →
  Json.skip_ws (String.concat ", " (map (Json.dumps num_repr) l) ++ rest)
  = String.concat ", " (map (Json.dumps num_repr) l) ++ rest.
Proof.
  intros Hl Hne. destruct l as [|v l]; [done|].
  apply Forall_cons in Hl as [Hv _]. destruct l as [|v' l].
  - by apply skip_ws_dumps.
  - cbn [map]. rewrite concat_cons, append_assoc. by apply skip_ws_dumps.
Qed.

(** The loop of [JSONArray] reads the items of a list back. *)
Lemma array_loop_items (l : list json) :
  Forall (λ v, Json.numbers_kept num_repr num_of v ∧
               ∀ n rest, (String.length (Json.dumps num_repr v) ≤ n)%nat →
                         Json.delimited rest →
                         Json.scan_once num_of n (Json.dumps num_repr v ++ rest)
                         = Ok (v, rest)) l →
  l ≠ [] →
  ∀ n acc rest,
    (String.length (String.concat ", " (map (Json.dumps num_repr) l)) < n)%nat →
    Json.array_loop num_of n
      (String.concat ", " (map (Json.dumps num_repr) l) ++ String "]" rest) acc
    = Ok ((acc ++ l)%list, rest).
Proof.
  induction l as [|v l IH]; [done|]. intros Hl _ n acc rest Hn.
  apply Forall_cons in Hl as [[Hv Hscan] Hl].
  destruct n as [|n]; [lia|]. destruct l as [|v' l].
  - cbn [map] in *. rewrite concat_singleton in *. cbn [Json.array_loop].
    rewrite Hscan; [|lia|exact I]. cbn [mbind pyres_bind]. done.
  - cbn [map] in *. rewrite concat_cons in *.
    rewrite !append_length in Hn. rewrite !append_assoc.
    cbn [Json.array_loop]. rewrite Hscan; [|lia|exact I].
    cbn [mbind pyres_bind]. rewrite !append_cons, append_nil.
    cbn [Json.skip_ws Json.is_ws Ascii.eqb Bool.eqb orb].
    rewrite (skip_ws_items (v' :: l)); [|by eapply Forall_impl; [done|intros ? []]|done].
    rewrite (IH Hl); [|done|change (String.length ", ") with 2 in Hn;
                          cbn [map]; lia].
    by rewrite <- (assoc_L (++)%list).
Qed.


Lemma dumps_arr (l : list json) :
  Json.dumps num_repr (JArr l)
  = "[" ++ String.concat ", " (map (Json.dumps num_repr) l) ++ "]".
Proof. reflexivity. Qed.

Lemma dumps_obj (kvs : list (string * json)) :
  Json.dumps num_repr (JObj kvs)
  = "{" ++ String.concat ", "
             (map (λ kv, Json.encode_string kv.1 ++ ": "
                         ++ Json.dumps num_repr kv.2) kvs) ++ "}".
Proof. reflexivity. Qed.

(** The text of the members of a dictionary, from its first key on. *)
Lemma members_cons k v (kvs : list (string * json)) (rest : string) :
  String.concat ", "
    (map (λ kv, Json.encode_string kv.1 ++ ": " ++ Json.dumps num_repr kv.2)
         ((k, v) :: kvs)) ++ rest
  = String Json.quote
      (Json.escape k ++ String Json.quote
         (": " ++ Json.dumps num_repr v ++
          match kvs with
          | [] => rest
          | _ :: _ =>
              ", " ++ String.concat ", "
                        (map (λ kv, Json.encode_string kv.1 ++ ": "
                                    ++ Json.dumps num_repr kv.2) kvs) ++ rest
          end)).
Proof.
  destruct kvs as [|kv kvs]; cbn [map fst snd].
  - rewrite concat_singleton. unfold Json.encode_string.
    by rewrite !append_cons, !append_assoc, !append_cons, append_nil.
  - rewrite concat_cons. unfold Json.encode_string.
    by rewrite !append_cons, !append_assoc, !append_cons, append_nil.
Qed.

(** The loop of [JSONObject] reads the members of a dictionary back. *)
Lemma object_loop_members (kvs : list (string * json)) :
  Forall (λ kv, Json.numbers_kept num_repr num_of kv.2 ∧
                ∀ n rest, (String.length (Json.dumps num_repr kv.2) ≤ n)%nat →
                          Json.delimited rest →
                          Json.scan_once num_of n
                            (Json.dumps num_repr kv.2 ++ rest)
                          = Ok (kv.2, rest)) kvs →
  kvs ≠ [] →
  ∀ n acc rest t,
    (String.length
       (String.concat ", "
          (map (λ kv, Json.encode_string kv.1 ++ ": "
                      ++ Json.dumps num_repr kv.2) kvs)) ≤ n)%nat →
    String Json.quote t
    = String.concat ", "
        (map (λ kv, Json.encode_string kv.1 ++ ": "
                    ++ Json.dumps num_repr kv.2) kvs) ++ String "}" rest →
    Json.object_loop num_of n t acc = Ok ((acc ++ kvs)%list, rest).
Proof.
  induction kvs as [|[k v] kvs IH]; [done|].
  intros Hkvs _ n acc rest t Hn Ht.
  apply Forall_cons in Hkvs as [[Hv Hscan] Hkvs]. cbn [snd] in Hv, Hscan.
  rewrite members_cons in Ht. injection Ht as ->.
  assert (String.length (Json.dumps num_repr v) < n)%nat as Hvn.
  { destruct kvs; cbn [map fst snd] in Hn;
      rewrite ?concat_cons, ?concat_singleton, !append_length in Hn;
      change (String.length ": ") with 2 in Hn; lia. }
  destruct n as [|n]; [lia|].
  cbn [Json.object_loop]. rewrite scanstring_escape. cbn [mbind pyres_bind].
  rewrite !append_cons, append_nil.
  cbn [Json.skip_ws Json.is_ws Ascii.eqb Bool.eqb orb].
  rewrite skip_ws_dumps by done. destruct kvs as [|kv' kvs].
  - rewrite Hscan; [|lia|exact I]. by cbn [mbind pyres_bind].
  - rewrite Hscan; [|lia|exact I]. cbn [mbind pyres_bind].
    rewrite ?append_cons, ?append_nil.
    cbn [Json.skip_ws Json.is_ws Ascii.eqb Bool.eqb orb].
    destruct kv' as [k' v'].
    rewrite members_cons.
    cbn [Json.skip_ws Json.is_ws Json.quote Ascii.eqb Bool.eqb orb].
    rewrite (IH Hkvs ltac:(done) n (acc ++ [(k, v)])%list rest).
    + by rewrite <- (assoc_L (++)%list).
    + cbn [map fst snd] in Hn. rewrite concat_cons, !append_length in Hn.
      change (String.length ", ") with 2 in Hn. cbn [map fst snd]. lia.
    + by rewrite members_cons.
Qed.


Lemma append_empty (s : string) : s ++ "" = s.
Proof. induction s as [|c s IH]; [done|]. by rewrite append_cons, IH. Qed.

(** [scan_once] reads the text of a value back, whatever delimiter
    follows it, when it may make as many calls as the text is long. *)
Lemma scan_once_dumps d :
  Json.unique_keys d → Json.numbers_kept num_repr num_of d →
  ∀ n rest, (String.length (Json.dumps num_repr d) ≤ n)%nat →
            Json.delimited rest →
            Json.scan_once num_of n (Json.dumps num_repr d ++ rest)
            = Ok (d, rest).
Proof.
  induction d as [|b|q|s|l IH|kvs IH] using json_nested_ind;
    intros Hu Hk n rest Hn Hrest.
  - destruct n as [|n]; [simpl in Hn; lia|]. reflexivity.
  - destruct n as [|n]; [destruct b; simpl in Hn; lia|]. by destruct b.
  - simpl in Hk.
    apply andb_prop_elim in Hk as [Hlit%bool_decide_unpack Hof%bool_decide_unpack].
    cbn [Json.dumps] in *.
    destruct n as [|n].
    { destruct (num_repr q); [done|simpl in Hn; lia]. }
    rewrite (scan_once_number n _ (num_repr q) rest).
    + by rewrite Hof.
    + by rewrite (match_number_app _ _ _ _ Hrest Hlit).
  - destruct n as [|n]; [simpl in Hn; lia|]. apply scan_once_string.
  - cbn [Json.unique_keys Json.numbers_kept] in Hu, Hk.
    apply forallb_True in Hu. apply forallb_True in Hk.
    rewrite dumps_arr in *. destruct n as [|n]; [simpl in Hn; lia|].
    destruct l as [|v l]; [reflexivity|].
    rewrite !append_cons, !append_nil, append_assoc, !append_cons, !append_nil.
    rewrite append_cons, append_nil in Hn. cbn [String.length] in Hn.
    rewrite append_length in Hn. cbn [String.length] in Hn.
    assert (Forall (λ v, Json.numbers_kept num_repr num_of v ∧
                         ∀ n rest,
                           (String.length (Json.dumps num_repr v) ≤ n)%nat →
                           Json.delimited rest →
                           Json.scan_once num_of n
                             (Json.dumps num_repr v ++ rest) = Ok (v, rest))
                   (v :: l)) as Hl.
    { apply Forall_forall. intros x Hx. split.
      - exact (proj1 (Forall_forall _ _) Hk x Hx).
      - apply (proj1 (Forall_forall _ _) IH x Hx).
        + exact (proj1 (Forall_forall _ _) Hu x Hx).
        + exact (proj1 (Forall_forall _ _) Hk x Hx). }
    cbn [Json.scan_once]. rewrite (skip_ws_items (v :: l));
      [|by eapply Forall_impl; [done|intros ? []]|done].
    pose proof (array_loop_items (v :: l) Hl ltac:(done) n [] rest) as Hloop.
    destruct (dumps_head v) as (c & t & Hc & _ & Hb).
    { apply Forall_cons in Hl as [[Hv _] _]. done. }
    assert (∃ t', String.concat ", " (map (Json.dumps num_repr) (v :: l))
                  ++ String "]" rest = String c t') as [t' Ht'].
    { cbn [map]. destruct l; rewrite ?concat_singleton, ?concat_cons, Hc;
        rewrite ?append_cons; eauto. }
    rewrite Ht' in *. rewrite Hb, Hloop by lia. done.
  - cbn [Json.unique_keys Json.numbers_kept] in Hu, Hk.
    apply andb_prop_elim in Hu as [Hnd%bool_decide_unpack Hu].
    apply forallb_True in Hu. apply forallb_True in Hk.
    rewrite dumps_obj in *. destruct n as [|n]; [simpl in Hn; lia|].
    destruct kvs as [|[k v] kvs]; [reflexivity|].
    rewrite !append_cons, !append_nil, append_assoc, !append_cons, !append_nil.
    rewrite append_cons, append_nil in Hn. cbn [String.length] in Hn.
    rewrite append_length in Hn. cbn [String.length] in Hn.
    assert (Forall (λ kv, Json.numbers_kept num_repr num_of kv.2 ∧
                          ∀ n rest,
                            (String.length (Json.dumps num_repr kv.2) ≤ n)%nat →
                            Json.delimited rest →
                            Json.scan_once num_of n
                              (Json.dumps num_repr kv.2 ++ rest)
                            = Ok (kv.2, rest))
                   ((k, v) :: kvs)) as Hl.
    { apply Forall_forall. intros x Hx. split.
      - exact (proj1 (Forall_forall _ _) Hk x Hx).
      - apply (proj1 (Forall_forall _ _) IH x Hx).
        + exact (proj1 (Forall_forall _ _) Hu x Hx).
        + exact (proj1 (Forall_forall _ _) Hk x Hx). }
    pose proof (object_loop_members ((k, v) :: kvs) Hl ltac:(done) n [] rest)
      as Hloop.
    rewrite members_cons in *.
    cbn [Json.scan_once Json.skip_ws Json.is_ws Json.quote Ascii.eqb
           Bool.eqb orb].
    rewrite (Hloop _ ltac:(lia) eq_refl). cbn [mbind pyres_bind].
    by rewrite dict_unique.
Qed.

(** [json.loads] reads back the value that [json.dumps] wrote. *)
Lemma loads_dumps d :
  Json.unique_keys d → Json.numbers_kept num_repr num_of d →
  Json.loads num_of (Json.dumps num_repr d) = Ok d.
Proof.
  intros Hu Hk. unfold Json.loads.
  rewrite <- (append_empty (Json.dumps num_repr d)) at 2.
  rewrite skip_ws_dumps by done.
  rewrite scan_once_dumps; [done..|lia|done].
Qed.

(** C10: the constructor takes the JSON text of a record or the decoded
    record. For every decoded record, a dictionary of Python whose
    numbers Python writes as literals and reads back, the constructor
    gives for the text that [json.dumps] writes for the record what it
    gives for the record itself: the same [Match] when the record is
    parsed, and the same exception when it is not. *)
Theorem init_dumps_loads (kvs : list (string * json)) :
  Json.unique_keys (JObj kvs) →
  Json.numbers_kept num_repr num_of (JObj kvs) →
  Match.__init__ (Json.loads num_of)
                 (JStr (Json.dumps num_repr (JObj kvs)))
  = Match.__init__ (Json.loads num_of) (JObj kvs).
Proof.
  intros Hu Hk. unfold Match.__init__. by rewrite loads_dumps.
Qed.

End codec.
End json_text.

(** *** The bound of the decoder *)

Section json_bound.
Import Stdlib.Strings.Ascii.
Open Scope string_scope.
Variable num_of : string → Q.

Lemma skip_ws_length (s : string) :
  (String.length (Json.skip_ws s) ≤ String.length s)%nat.
Proof.
  induction s as [|c s IH]; simpl; [done|]. destruct (Json.is_ws c); simpl; lia.
Qed.

Lemma scanstring_length (s str rest : string) :
  Json.scanstring s = Ok (str, rest) →
  (String.length rest < String.length s)%nat.
Proof.
  assert (∀ k t str' rest', (String.length t ≤ k)%nat →
            Json.scanstring t = Ok (str', rest') →
            (String.length rest' < String.length t)%nat) as H;
    [|by apply (H (String.length s))].
  clear. induction k as [|k IHk]; intros s str rest Hle;
    (destruct s as [|c r]; [done|]); [simpl in Hle; lia|].
  assert (∀ t str' rest', (String.length t ≤ k)%nat →
            Json.scanstring t = Ok (str', rest') →
            (String.length rest' < String.length t)%nat) as IH
    by (intros; by eapply IHk).
  simpl in Hle. cbn [Json.scanstring].
  destruct (Ascii.eqb c Json.quote); [intros [= _ <-]; simpl; lia|].
  destruct (Ascii.eqb c Json.backslash).
  - destruct r as [|esc r']; [done|]. destruct (Ascii.eqb esc "u").
    + destruct r' as [|h1 [|h2 [|h3 [|h4 r'']]]]; try done.
      destruct (Json.decode_uXXXX h1 h2 h3 h4) as [uni|]; [|done].
      destruct (uni <? 256)%nat; [|done].
      destruct (Json.scanstring r'') as [[str' rest']|] eqn:Hr; [|done].
      intros [= _ <-]. apply IH in Hr; simpl in *; lia.
    + destruct (Json.unescape esc); [|done].
      destruct (Json.scanstring r') as [[str' rest']|] eqn:Hr; [|done].
      intros [= _ <-]. apply IH in Hr; simpl in *; lia.
  - destruct (nat_of_ascii c <? 32)%nat; [done|].
    destruct (Json.scanstring r) as [[str' rest']|] eqn:Hr; [|done].
    intros [= _ <-]. apply IH in Hr; simpl in *; lia.
Qed.

Lemma digits_length (s : string) :
  (String.length (Json.digits s).2 ≤ String.length s)%nat.
Proof.
  induction s as [|c s IH]; simpl; [done|].
  destruct (Json.is_digit c); [|simpl; lia].
  destruct (Json.digits s); simpl in *; lia.
Qed.

Lemma match_number_length (s lit rest : string) :
  Json.match_number s = Some (lit, rest) →
  (String.length rest < String.length s)%nat.
Proof.
  unfold Json.match_number.
  destruct (Json.match_integer s) as [[i s1]|] eqn:Hi; [|done].
  assert (String.length s1 < String.length s)%nat as H1.
  { assert (∀ t i' r', Json.match_unsigned t = Some (i', r') →
              (String.length r' < String.length t)%nat) as Hu.
    { intros [|c t] i' r'; [done|]. simpl.
      destruct (Ascii.eqb c "0"); [intros [= _ <-]; lia|].
      destruct (Json.is_digit c); [|done].
      pose proof (digits_length t). destruct (Json.digits t).
      intros [= _ <-]. simpl in *. lia. }
    destruct s as [|c s]; [done|]. unfold Json.match_integer in Hi.
    destruct (Ascii.eqb c "-").
    - destruct (Json.match_unsigned s) as [[i' r']|] eqn:Hs; [|done].
      injection Hi as _ <-. apply Hu in Hs. simpl. lia.
    - by apply Hu in Hi. }
  assert (String.length (Json.match_frac s1).2 ≤ String.length s1)%nat as H2.
  { destruct s1 as [|c t]; [done|]. simpl.
    destruct (Ascii.eqb c "."); [|done].
    pose proof (digits_length t). destruct (Json.digits t) as [[|d ds] r0];
      simpl in *; lia. }
  destruct (Json.match_frac s1) as [f s2]. cbn [snd] in H2.
  assert (String.length (Json.match_exp s2).2 ≤ String.length s2)%nat as H3.
  { destruct s2 as [|e t]; [done|]. simpl.
    destruct (Ascii.eqb e "e" || Ascii.eqb e "E"); [|done].
    destruct t as [|c t]; [done|].
    destruct (Ascii.eqb c "-" || Ascii.eqb c "+").
    - pose proof (digits_length t). destruct (Json.digits t) as [[|d ds] r0];
        simpl in *; lia.
    - pose proof (digits_length (String c t)).
      destruct (Json.digits (String c t)) as [[|d ds] r0]; simpl in *; lia. }
  destruct (Json.match_exp s2) as [e s3]. cbn [snd] in H3.
  intros [= _ <-]. lia.
Qed.

Lemma after_length (p s rest : string) :
  Json.after p s = Some rest →
  (String.length rest + String.length p = String.length s)%nat.
Proof.
  revert s. induction p as [|a p IH]; intros [|b s]; simpl; try done.
  - by intros [= <-].
  - intros [= <-]. simpl. lia.
  - destruct (Ascii.eqb b a); [|done]. intros H%IH. lia.
Qed.


(** A call that returns has read at least one character. *)
Lemma scan_progress n :
  (∀ s v rest, Json.scan_once num_of n s = Ok (v, rest) →
               (String.length rest < String.length s)%nat) ∧
  (∀ s acc vs rest, Json.array_loop num_of n s acc = Ok (vs, rest) →
                    (String.length rest < String.length s)%nat) ∧
  (∀ s acc ps rest, Json.object_loop num_of n s acc = Ok (ps, rest) →
                    (String.length rest < String.length s)%nat).
Proof.
  induction n as [|n (IHs & IHa & IHo)]; [done|]. repeat split.
  - intros [|c r] v rest; [done|]. cbn [Json.scan_once].
    destruct (Ascii.eqb c Json.quote).
    { destruct (Json.scanstring r) as [[str rest']|] eqn:Hs; [|done].
      cbn. intros [= _ <-]. apply scanstring_length in Hs. simpl; lia. }
    destruct (Ascii.eqb c "{").
    { pose proof (skip_ws_length r).
      destruct (Json.skip_ws r) as [|c' r']; [done|].
      destruct (Ascii.eqb c' "}"); [intros [= _ <-]; simpl in *; lia|].
      destruct (Ascii.eqb c' Json.quote); [|done].
      destruct (Json.object_loop num_of n r' []) as [[ps rest']|] eqn:Ho;
        [|done].
      cbn. intros [= _ <-]. apply IHo in Ho. simpl in *; lia. }
    destruct (Ascii.eqb c "[").
    { pose proof (skip_ws_length r).
      destruct (Json.skip_ws r) as [|c' r']; [done|].
      destruct (Ascii.eqb c' "]"); [intros [= _ <-]; simpl in *; lia|].
      destruct (Json.array_loop num_of n (String c' r') [])
        as [[vs rest']|] eqn:Ha; [|done].
      cbn. intros [= _ <-]. apply IHa in Ha. simpl in *; lia. }
    destruct (Json.after "null" (String c r)) eqn:Hnull.
    { intros [= _ <-]. apply after_length in Hnull. simpl in *; lia. }
    destruct (Json.after "true" (String c r)) eqn:Htrue.
    { intros [= _ <-]. apply after_length in Htrue. simpl in *; lia. }
    destruct (Json.after "false" (String c r)) eqn:Hfalse.
    { intros [= _ <-]. apply after_length in Hfalse. simpl in *; lia. }
    destruct (Json.match_number (String c r)) as [[lit rest']|] eqn:Hnum;
      [|done].
    intros [= _ <-]. by apply match_number_length in Hnum.
  - intros s acc vs rest. cbn [Json.array_loop].
    destruct (Json.scan_once num_of n s) as [[value s1]|] eqn:Hv; [|done].
    cbn [mbind pyres_bind]. apply IHs in Hv.
    pose proof (skip_ws_length s1).
    destruct (Json.skip_ws s1) as [|c r]; [done|].
    destruct (Ascii.eqb c "]"); [intros [= _ <-]; simpl in *; lia|].
    destruct (Ascii.eqb c ","); [|done].
    intros Ha%IHa. pose proof (skip_ws_length r). simpl in *; lia.
  - intros s acc ps rest. cbn [Json.object_loop].
    destruct (Json.scanstring s) as [[key s1]|] eqn:Hk; [|done].
    cbn [mbind pyres_bind]. apply scanstring_length in Hk.
    pose proof (skip_ws_length s1).
    destruct (Json.skip_ws s1) as [|c r]; [done|].
    destruct (Ascii.eqb c ":"); [|done].
    destruct (Json.scan_once num_of n (Json.skip_ws r))
      as [[value s2]|] eqn:Hv; [|done].
    cbn [mbind pyres_bind]. apply IHs in Hv.
    pose proof (skip_ws_length r). pose proof (skip_ws_length s2).
    destruct (Json.skip_ws s2) as [|c2 r2]; [done|].
    destruct (Ascii.eqb c2 "}"); [intros [= _ <-]; simpl in *; lia|].
    destruct (Ascii.eqb c2 ","); [|done].
    pose proof (skip_ws_length r2).
    destruct (Json.skip_ws r2) as [|c3 r3]; [done|].
    destruct (Ascii.eqb c3 Json.quote); [|done].
    intros Ho%IHo. simpl in *; lia.
Qed.

(** The result of the decoder does not depend on the bound, once it is
    more than twice the length of the text: the bound of [loads] is not
    reached. *)
Lemma scan_bound k :
  (∀ s n m, (String.length s ≤ k)%nat →
            (2 * String.length s < n)%nat → (2 * String.length s < m)%nat →
            Json.scan_once num_of n s = Json.scan_once num_of m s) ∧
  (∀ s n m acc, (String.length s ≤ k)%nat →
                (2 * String.length s + 1 < n)%nat →
                (2 * String.length s + 1 < m)%nat →
                Json.array_loop num_of n s acc = Json.array_loop num_of m s acc) ∧
  (∀ s n m acc, (String.length s ≤ k)%nat →
                (2 * String.length s + 1 < n)%nat →
                (2 * String.length s + 1 < m)%nat →
                Json.object_loop num_of n s acc
                = Json.object_loop num_of m s acc).
Proof.
  induction k as [k IH] using lt_wf_ind.
  assert (∀ s n m, (String.length s ≤ k)%nat →
            (2 * String.length s < n)%nat → (2 * String.length s < m)%nat →
            Json.scan_once num_of n s = Json.scan_once num_of m s) as Hscan.
  { intros [|c r] n m Hk Hn Hm; (destruct n as [|n]; [lia|]);
      (destruct m as [|m]; [lia|]); [done|].
    simpl in Hk, Hn, Hm. cbn [Json.scan_once].
    destruct (Ascii.eqb c Json.quote); [done|].
    pose proof (skip_ws_length r).
    destruct (Ascii.eqb c "{").
    { destruct (Json.skip_ws r) as [|c' r']; [done|].
      destruct (Ascii.eqb c' "}"); [done|].
      destruct (Ascii.eqb c' Json.quote); [|done].
      simpl in *.
      by rewrite (proj2 (proj2 (IH (String.length r') ltac:(lia))) r' n m)
        by lia. }
    destruct (Ascii.eqb c "["); [|done].
    destruct (Json.skip_ws r) as [|c' r'] eqn:Hr; [done|].
    destruct (Ascii.eqb c' "]"); [done|].
    by rewrite (proj1 (proj2 (IH (String.length (String c' r'))
                                 ltac:(simpl in *; lia)))
                  (String c' r') n m) by (simpl in *; lia). }
  split; [done|]. split.
  - intros s n m acc Hk Hn Hm. destruct n as [|n]; [lia|].
    destruct m as [|m]; [lia|]. cbn [Json.array_loop].
    rewrite (Hscan s n m) by lia.
    destruct (Json.scan_once num_of m s) as [[value s1]|] eqn:Hv; [|done].
    cbn [mbind pyres_bind].
    apply (proj1 (scan_progress m)) in Hv.
    pose proof (skip_ws_length s1).
    destruct (Json.skip_ws s1) as [|c r]; [done|].
    destruct (Ascii.eqb c "]"); [done|].
    destruct (Ascii.eqb c ","); [|done].
    pose proof (skip_ws_length r). simpl in *.
    apply (proj1 (proj2 (IH (String.length (Json.skip_ws r)) ltac:(lia))));
      lia.
  - intros s n m acc Hk Hn Hm. destruct n as [|n]; [lia|].
    destruct m as [|m]; [lia|]. cbn [Json.object_loop].
    destruct (Json.scanstring s) as [[key s1]|] eqn:Hkey; [|done].
    cbn [mbind pyres_bind]. apply scanstring_length in Hkey.
    pose proof (skip_ws_length s1).
    destruct (Json.skip_ws s1) as [|c r]; [done|].
    destruct (Ascii.eqb c ":"); [|done].
    pose proof (skip_ws_length r). simpl in *.
    rewrite (Hscan (Json.skip_ws r) n m) by lia.
    destruct (Json.scan_once num_of m (Json.skip_ws r))
      as [[value s2]|] eqn:Hv; [|done].
    cbn [mbind pyres_bind].
    apply (proj1 (scan_progress m)) in Hv.
    pose proof (skip_ws_length s2).
    destruct (Json.skip_ws s2) as [|c2 r2]; [done|].
    destruct (Ascii.eqb c2 "}"); [done|].
    destruct (Ascii.eqb c2 ","); [|done].
    pose proof (skip_ws_length r2).
    destruct (Json.skip_ws r2) as [|c3 r3]; [done|].
    destruct (Ascii.eqb c3 Json.quote); [|done]. simpl in *.
    apply (proj2 (proj2 (IH (String.length r3) ltac:(lia)))); lia.
Qed.

End json_bound.


(** ** The index of a [Competitions] *)

Lemma index_lookup {A} (l : list A) i x : l !! i = Some x → index l i = Ok x.
Proof. intros H. unfold index. by rewrite H. Qed.

Lemma list_getitem_inside {A} (l : list A) (i : Z) :
  (0 ≤ i < Z.of_nat (length l))%Z →
  ∃ x, l !! Z.to_nat i = Some x ∧ list_getitem l i = Ok x.
Proof.
  intros Hi. destruct (lookup_lt_is_Some_2 l (Z.to_nat i)) as [x Hx]; [lia|].
  exists x. split; [done|]. unfold list_getitem.
  destruct (Z.ltb_spec i 0); [lia|].
  destruct (Z.leb_spec 0 i); [|lia].
  destruct (Z.ltb_spec i (Z.of_nat (length l))); [|lia].
  by apply index_lookup.
Qed.

Lemma list_getitem_negative {A} (l : list A) (i : Z) :
  (- Z.of_nat (length l) ≤ i < 0)%Z →
  ∃ x, l !! Z.to_nat (Z.of_nat (length l) + i) = Some x ∧
       list_getitem l i = Ok x.
Proof.
  intros Hi.
  destruct (lookup_lt_is_Some_2 l (Z.to_nat (Z.of_nat (length l) + i)))
    as [x Hx]; [lia|].
  exists x. split; [done|]. unfold list_getitem.
  destruct (Z.ltb_spec i 0); [|lia].
  destruct (Z.leb_spec 0 (i + Z.of_nat (length l))); [|lia].
  destruct (Z.ltb_spec (i + Z.of_nat (length l)) (Z.of_nat (length l))); [|lia].
  simpl. apply index_lookup. by rewrite Z.add_comm.
Qed.

Lemma list_getitem_outside {A} (l : list A) (i : Z) :
  (i < - Z.of_nat (length l) ∨ Z.of_nat (length l) ≤ i)%Z ↔
  list_getitem l i = Raise IndexError.
Proof.
  split.
  - intros Hi. unfold list_getitem.
    destruct (Z.ltb_spec i 0).
    + destruct (Z.leb_spec 0 (i + Z.of_nat (length l))); [lia|done].
    + destruct (Z.leb_spec 0 i); [|lia].
      destruct (Z.ltb_spec i (Z.of_nat (length l))); [lia|done].
  - intros Hraise.
    destruct (decide (i < - Z.of_nat (length l) ∨ Z.of_nat (length l) ≤ i)%Z)
      as [|Hin]; [done|exfalso].
    destruct (decide (i < 0)%Z).
    + destruct (list_getitem_negative l i) as (x & _ & Hx); [lia|congruence].
    + destruct (list_getitem_inside l i) as (x & _ & Hx); [lia|congruence].
Qed.

Lemma enumerate_from_app {A} k (l1 l2 : list A) :
  enumerate_from k (l1 ++ l2)
  = enumerate_from k l1 ++ enumerate_from (k + length l1) l2.
Proof.
  revert k. induction l1 as [|x l1 IH]; intros k; simpl.
  - by rewrite Nat.add_0_r.
  - rewrite IH. do 3 f_equal. lia.
Qed.

(** The dictionary comprehension, one record further. *)
Lemma build_mindex_snoc (l : list Match.t) x :
  Competitions.build_mindex (l ++ [x])
  = <[Match.match_ x := length l]> (Competitions.build_mindex l).
Proof.
  unfold Competitions.build_mindex, enumerate.
  by rewrite enumerate_from_app, foldl_app.
Qed.

(** A key of the comprehension is bound to the last record that has it. *)
Lemma build_mindex_last (l : list Match.t) i r :
  l !! i = Some r →
  ∃ j r', i ≤ j ∧ l !! j = Some r' ∧ Match.match_ r' = Match.match_ r ∧
    (∀ j' r'', j < j' → l !! j' = Some r'' →
               Match.match_ r'' ≠ Match.match_ r) ∧
    Competitions.build_mindex l !! Match.match_ r = Some j.
Proof.
  revert i r. induction l as [|x l IH] using rev_ind; intros i r Hi; [done|].
  rewrite build_mindex_snoc.
  destruct (decide (Match.match_ x = Match.match_ r)) as [Heq|Hne].
  - exists (length l), x.
    pose proof (lookup_lt_Some _ _ _ Hi) as Hlt.
    rewrite length_app in Hlt. simpl in Hlt.
    split; [lia|]. split; [by rewrite list_lookup_middle|].
    split; [done|]. split.
    + intros j' r'' Hj' Hr''. apply lookup_lt_Some in Hr''.
      rewrite length_app in Hr''. simpl in Hr''. lia.
    + rewrite Heq. apply lookup_insert_eq.
  - assert (l !! i = Some r) as Hi'.
    { apply lookup_app_Some in Hi as [Hi|[Hge Hi]]; [done|].
      destruct (i - length l); simplify_eq/=. }
    destruct (IH i r Hi') as (j & r' & Hij & Hj & Hkey & Hlater & Hidx).
    exists j, r'. split; [done|]. split; [by apply lookup_app_l_Some|].
    split; [done|]. split.
    + intros j' r'' Hj' Hr''.
      apply lookup_app_Some in Hr'' as [Hr''|[Hge Hr'']]; [by eapply Hlater|].
      destruct (j' - length l); simplify_eq/=. done.
    + by rewrite lookup_insert_ne.
Qed.

(** A key that no record has is not in the dictionary. *)
Lemma build_mindex_absent (l : list Match.t) k :
  (∀ r, r ∈ l → Match.match_ r ≠ k) →
  Competitions.build_mindex l !! k = None.
Proof.
  induction l as [|x l IH] using rev_ind; intros Hk; [done|].
  rewrite build_mindex_snoc, lookup_insert_ne.
  - apply IH. intros r Hr. apply Hk, elem_of_app. by left.
  - apply Hk, elem_of_app. right. by apply list_elem_of_singleton.
Qed.

(** *** The event summary *)

Lemma groupby_sum_snoc rows e p :
  Competitions.groupby_sum (rows ++ [(e, p)])
  = <[e := default 0 (Competitions.groupby_sum rows !! e) + p]>
      (Competitions.groupby_sum rows).
Proof. unfold Competitions.groupby_sum. by rewrite foldl_app. Qed.

Lemma group_total_snoc rows e' p e :
  group_total (rows ++ [(e', p)]) e
  = group_total rows e + (if decide (e' = e) then p else 0).
Proof.
  unfold group_total. rewrite filter_app, fmap_app, sum_list_with_app.
  f_equal. rewrite filter_cons. simpl.
  destruct (decide (e' = e)); simpl; lia.
Qed.

Lemma group_total_cons rows e' p e :
  group_total ((e', p) :: rows) e
  = (if decide (e' = e) then p else 0) + group_total rows e.
Proof.
  unfold group_total. rewrite filter_cons. simpl.
  by destruct (decide (e' = e)).
Qed.

Lemma filter_bool_length_cons {A} (P : A → bool) a (l : list A) :
  length (filter P (a :: l)) = (if P a then 1 else 0) + length (filter P l).
Proof. rewrite filter_cons. by destruct (P a). Qed.

(** The entry of an event is the sum of its rows. *)
Lemma groupby_sum_total rows e :
  default 0 (Competitions.groupby_sum rows !! e) = group_total rows e.
Proof.
  induction rows as [|[e' p] rows IH] using rev_ind; [done|].
  rewrite groupby_sum_snoc, group_total_snoc.
  destruct (decide (e' = e)) as [->|Hne].
  - by rewrite lookup_insert_eq, IH.
  - rewrite lookup_insert_ne by done. lia.
Qed.

(** The events of the summary are the events of the rows. *)
Lemma groupby_sum_is_Some rows e :
  is_Some (Competitions.groupby_sum rows !! e) ↔ e ∈ rows.*1.
Proof.
  induction rows as [|[e' p] rows IH] using rev_ind.
  - unfold Competitions.groupby_sum. simpl. rewrite lookup_empty, elem_of_nil.
    split; [by intros [? ?]|done].
  - rewrite groupby_sum_snoc, fmap_app, elem_of_app. simpl.
    rewrite list_elem_of_singleton.
    destruct (decide (e' = e)) as [->|Hne].
    + rewrite lookup_insert_eq. split; eauto.
    + rewrite lookup_insert_ne, IH by done.
      split; [by left|intros [?|?]; [done|congruence]].
Qed.

Lemma groupby_sum_lookup rows e :
  e ∈ rows.*1 →
  Competitions.groupby_sum rows !! e = Some (group_total rows e).
Proof.
  intros He. apply groupby_sum_is_Some in He as [n Hn].
  rewrite <-groupby_sum_total, Hn. done.
Qed.

Lemma filter_both_length {A} (P Q : A → bool) (l : list A) :
  length (filter (λ x, P x && Q x) l) ≤ length (filter P l) ∧
  (length (filter (λ x, P x && Q x) l) = length (filter P l) ↔
   ∀ x, x ∈ l → P x → Q x).
Proof.
  induction l as [|a l [IHle IHeq]].
  - split; [done|]. split; [intros _ x Hx; by apply elem_of_nil in Hx|done].
  - rewrite !filter_cons.
    destruct (P a) eqn:HP, (Q a) eqn:HQ; simpl;
      repeat case_decide; simpl; try done; try tauto.
    + split; [lia|]. rewrite Nat.succ_inj_wd, IHeq. split.
      * intros H x [->|Hx]%elem_of_cons; [by rewrite HQ|by apply H].
      * intros H x Hx. apply H. by right.
    + split; [lia|]. split; [lia|].
      intros H. specialize (H a). rewrite HP, HQ in H.
      exfalso. apply H; [by left|done].
    + split; [done|]. rewrite IHeq. split.
      * intros H x [->|Hx]%elem_of_cons; [by rewrite HP|by apply H].
      * intros H x Hx. apply H. by right.
    + split; [done|]. rewrite IHeq. split.
      * intros H x [->|Hx]%elem_of_cons; [by rewrite HP|by apply H].
      * intros H x Hx. apply H. by right.
Qed.

Section index.
Variable json_loads : string → pyres json.

(** The attributes that the constructor assigns. *)
Lemma Competitions_init_fields lines c :
  Competitions.__init__ json_loads lines = Ok c →
  ∃ paths summary zmatches,
    Competitions._read_file json_loads lines = Ok (paths, summary, zmatches) ∧
    c = {| Competitions.paths := paths;
           Competitions.event_summary := summary;
           Competitions.zmatches := zmatches;
           Competitions.mindex := Competitions.build_mindex zmatches;
           Competitions.events := list_to_set (Match.event <$> zmatches) |}.
Proof.
  unfold Competitions.__init__. intros H.
  destruct (Competitions._read_file json_loads lines) as [[[p s] z]|];
    [|done].
  cbn in H. injection H as <-. eauto.
Qed.

Lemma read_file_Ok lines paths summary zmatches :
  Competitions._read_file json_loads lines = Ok (paths, summary, zmatches) →
  mapM json_loads lines = Ok paths ∧
  Competitions.read_matches json_loads paths = Ok zmatches ∧
  ∃ evs zs,
    Forall2 (λ p e, getitem p "event" ≫= as_str = Ok e) paths evs ∧
    Forall2 (λ p f, (z ← getitem p "zebra";
                     Ok (if is_null z then 0 else 1)) = Ok f) paths zs ∧
    summary = Competitions.groupby_sum (zip evs zs).
Proof.
  unfold Competitions._read_file. intros H.
  bind_inv H ps Hps. bind_inv H evs Hevs. bind_inv H ms Hms.
  bind_inv H zs Hzs. bind_inv H zms Hzms. injection H as <- <- <-.
  split; [done|]. split; [done|]. exists evs, zs.
  split; [by apply mapM_Ok_Forall2|]. split; [by apply mapM_Ok_Forall2|done].
Qed.

Lemma line_event_decoded p ev e :
  getitem p "event" ≫= as_str = Ok ev → line_event p e = bool_decide (ev = e).
Proof.
  unfold line_event. destruct (getitem p "event") as [[]|]; by intros [= ->].
Qed.

Lemma has_zebra_decoded p f :
  (z ← getitem p "zebra"; Ok (if is_null z then 0 else 1)) = Ok f →
  f = if has_zebra p then 1 else 0.
Proof.
  unfold has_zebra. destruct (getitem p "zebra") as [z|]; [|done].
  intros [= <-]. by destruct (is_null z).
Qed.

(** The rows of the data frame against the lines they come from. *)
Lemma summary_rows paths evs zs e :
  Forall2 (λ p e, getitem p "event" ≫= as_str = Ok e) paths evs →
  Forall2 (λ p f, (z ← getitem p "zebra";
                   Ok (if is_null z then 0 else 1)) = Ok f) paths zs →
  group_total (zip evs zs) e
  = length (filter (λ p, line_event p e && has_zebra p) paths) ∧
  ((∃ p, p ∈ paths ∧ line_event p e) → e ∈ (zip evs zs).*1).
Proof.
  intros Hevs. revert zs.
  induction Hevs as [|p ev paths evs Hev _ IH]; intros zs Hzs.
  - split; [done|]. intros (p & Hp & _). by apply elem_of_nil in Hp.
  - destruct zs as [|f zs]; [by apply Forall2_length in Hzs|].
    apply Forall2_cons in Hzs as [Hf Hzs].
    destruct (IH zs Hzs) as [IHtot IHin].
    apply has_zebra_decoded in Hf.
    split.
    + change (zip (ev :: evs) (f :: zs)) with ((ev, f) :: zip evs zs).
      rewrite group_total_cons, filter_bool_length_cons, IHtot, Hf.
      rewrite (line_event_decoded _ _ e Hev).
      destruct (decide (ev = e)) as [->|Hne].
      * rewrite bool_decide_eq_true_2 by done. by destruct (has_zebra p).
      * by rewrite bool_decide_eq_false_2 by done.
    + intros (p' & [->|Hp']%elem_of_cons & He); simpl.
      * rewrite (line_event_decoded _ _ e Hev) in He.
        apply bool_decide_unpack in He as ->. by left.
      * right. apply IHin. eauto.
Qed.

(** C7: the summary is built from all the lines of the file; the entry of
    an event that appears on a line is the number of lines of this event
    with tracking data, at most the number of lines of the event, and
    equal to it exactly when all lines of the event have tracking data. *)
Theorem event_summary_counts lines c e :
  Competitions.__init__ json_loads lines = Ok c →
  (∃ p, p ∈ Competitions.paths c ∧ line_event p e) →
  mapM json_loads lines = Ok (Competitions.paths c) ∧
  Competitions.event_summary c !! e
  = Some (length (filter (λ p, line_event p e && has_zebra p)
                         (Competitions.paths c))) ∧
  length (filter (λ p, line_event p e && has_zebra p) (Competitions.paths c))
  ≤ length (filter (λ p, line_event p e) (Competitions.paths c)) ∧
  (length (filter (λ p, line_event p e && has_zebra p) (Competitions.paths c))
   = length (filter (λ p, line_event p e) (Competitions.paths c)) ↔
   ∀ p, p ∈ Competitions.paths c → line_event p e → has_zebra p).
Proof.
  intros Hc He.
  destruct (Competitions_init_fields _ _ Hc) as (p & s & z & Hread & ->).
  cbn [Competitions.paths Competitions.event_summary] in *.
  apply read_file_Ok in Hread
    as (Hlines & _ & evs & zs & Hevs & Hzs & ->).
  destruct (summary_rows _ _ _ e Hevs Hzs) as [Htot Hin].
  split; [done|]. split.
  - rewrite groupby_sum_lookup by auto. by rewrite Htot.
  - apply (filter_both_length (λ p, line_event p e) has_zebra).
Qed.

Lemma read_matches_null paths :
  Forall (λ p, getitem p "zebra" = Ok JNull) paths →
  Competitions.read_matches json_loads paths = Ok [].
Proof. induction 1 as [|p paths Hp _ IH]; simpl; [done|]. by rewrite Hp. Qed.

Lemma mapM_Forall_Ok {A B} (f : A → pyres B) (l : list A) :
  Forall (λ a, ∃ b, f a = Ok b) l → ∃ k, mapM f l = Ok k.
Proof.
  induction 1 as [|a l [b Hb] _ [k IH]]; simpl; [by eexists|].
  rewrite Hb, IH. by eexists.
Qed.

(** C4 (amended): a file none of whose lines carries tracking data builds
    an index without records, on which the length is 0, the matches of
    every event are the empty list, a key is not found and no position is
    in range. *)
Theorem init_no_tracking_data lines paths :
  mapM json_loads lines = Ok paths →
  Forall (λ p, (∃ e, getitem p "event" = Ok (JStr e)) ∧
               (∃ m, getitem p "match" = Ok m) ∧
               getitem p "zebra" = Ok JNull) paths →
  ∃ c, Competitions.__init__ json_loads lines = Ok c ∧
       Competitions.paths c = paths ∧
       Competitions.zmatches c = [] ∧
       Competitions.mindex c = ∅ ∧
       Competitions.events c = ∅ ∧
       Competitions.__len__ c = 0 ∧
       (∀ e, Competitions.matches c e = []) ∧
       (∀ k, Competitions.__getitem__ c (Competitions.KStr k)
             = Raise KeyError) ∧
       (∀ i, Competitions.__getitem__ c (Competitions.KInt i)
             = Raise IndexError).
Proof.
  intros Hlines Hnull.
  destruct (mapM_Forall_Ok (λ p, getitem p "event" ≫= as_str) paths)
    as [evs Hevs].
  { eapply Forall_impl; [done|]. intros p ([e He] & _). rewrite He. eauto. }
  destruct (mapM_Forall_Ok (λ p, getitem p "match") paths) as [ms Hms].
  { eapply Forall_impl; [done|]. by intros p (_ & Hm & _). }
  destruct (mapM_Forall_Ok
              (λ p, z ← getitem p "zebra"; Ok (if is_null z then 0 else 1))
              paths) as [zs Hzs].
  { eapply Forall_impl; [done|]. intros p (_ & _ & Hz). rewrite Hz. eauto. }
  eexists. split.
  - unfold Competitions.__init__, Competitions._read_file.
    rewrite Hlines. cbn [mbind pyres_bind].
    rewrite Hevs. cbn [mbind pyres_bind].
    rewrite Hms. cbn [mbind pyres_bind].
    rewrite Hzs. cbn [mbind pyres_bind].
    rewrite read_matches_null; [reflexivity|].
    eapply Forall_impl; [done|]. by intros p (_ & _ & Hz).
  - cbn. repeat split; try done.
    intros i. symmetry. apply eq_sym, list_getitem_outside. simpl. lia.
Qed.

(** C5 (amended): [__getitem__] at an integer position returns the record
    at that position for a position from 0 up to the number of records,
    returns the record counted from the end for a negative position down
    to minus the number of records, and raises [IndexError] exactly at the
    positions outside these two ranges. *)
Theorem getitem_position (c : Competitions.t) (i : Z) :
  let n := Z.of_nat (length (Competitions.zmatches c)) in
  ((0 ≤ i < n)%Z →
   ∃ r, Competitions.zmatches c !! Z.to_nat i = Some r ∧
        Competitions.__getitem__ c (Competitions.KInt i) = Ok r) ∧
  ((- n ≤ i < 0)%Z →
   ∃ r, Competitions.zmatches c !! Z.to_nat (n + i) = Some r ∧
        Competitions.__getitem__ c (Competitions.KInt i) = Ok r) ∧
  ((i < - n ∨ n ≤ i)%Z ↔
   Competitions.__getitem__ c (Competitions.KInt i) = Raise IndexError).
Proof.
  simpl. split; [apply list_getitem_inside|].
  split; [apply list_getitem_negative|apply list_getitem_outside].
Qed.

(** C6 (amended): in a constructed index, the key of a record resolves to
    the last record that has this key, and so to the record itself when
    no later record has its key. *)
Theorem getitem_match_key lines c i r :
  Competitions.__init__ json_loads lines = Ok c →
  Competitions.zmatches c !! i = Some r →
  (∃ j r', i ≤ j ∧ Competitions.zmatches c !! j = Some r' ∧
     Match.match_ r' = Match.match_ r ∧
     (∀ j' r'', j < j' → Competitions.zmatches c !! j' = Some r'' →
                Match.match_ r'' ≠ Match.match_ r) ∧
     Competitions.__getitem__ c (Competitions.KStr (Match.match_ r)) = Ok r') ∧
  ((∀ j' r'', i < j' → Competitions.zmatches c !! j' = Some r'' →
              Match.match_ r'' ≠ Match.match_ r) →
   Competitions.__getitem__ c (Competitions.KStr (Match.match_ r)) = Ok r).
Proof.
  intros Hc Hi.
  destruct (Competitions_init_fields _ _ Hc) as (p & s & z & _ & ->).
  cbn [Competitions.zmatches] in *.
  destruct (build_mindex_last z i r Hi) as (j & r' & Hij & Hj & Hkey & Hl & Hm).
  assert (Competitions.__getitem__
            {| Competitions.paths := p; Competitions.event_summary := s;
               Competitions.zmatches := z;
               Competitions.mindex := Competitions.build_mindex z;
               Competitions.events := list_to_set (Match.event <$> z) |}
            (Competitions.KStr (Match.match_ r)) = Ok r') as Hget.
  { simpl. rewrite Hm. by apply index_lookup. }
  split; [by exists j, r'|].
  intros Hlast. rewrite Hget. f_equal.
  destruct (decide (i = j)) as [->|Hne]; [congruence|].
  exfalso. apply (Hlast j r'); [lia|done..].
Qed.

End index.

(** ** Runs on the sample files *)

Section samples.
Import Sample.
Open Scope string_scope.

(** The scenario of the specification: two records, one event, two
    matches with tracking data out of three, no record for the match
    without tracking data and no record at position 100. *)
Example scenario_index :
  ∃ c, Competitions.__init__ (decoder scenario) (lines_of scenario) = Ok c ∧
       Competitions.__len__ c = 2 ∧
       Competitions.events c = {["2020wasno"]} ∧
       Competitions.event_summary c !! "2020wasno" = Some 2 ∧
       Competitions.matches c "2020wasno" = ["2020wasno_qm1"; "2020wasno_qm3"] ∧
       Competitions.__getitem__ c (Competitions.KStr "2020wasno_qm2")
       = Raise KeyError ∧
       Competitions.__getitem__ c (Competitions.KInt 100) = Raise IndexError.
Proof.
  eexists. split; [vm_compute; reflexivity|].
  repeat split; vm_compute; reflexivity.
Qed.

(** The scan of the scenario's station: the start is sample 2, the end is
    sample 3 recorded with index 4. *)
Example scan_gap :
  Match._scan_path gap_xs gap_ys
  = Ok {| Match.st_start := Some (5.0%Q, 1.0%Q, 2);
          Match.st_end := Some (6.0%Q, 2.0%Q, 4);
          Match.st_n := 2; Match.st_missing := Some [0; 1; 4] |}.
Proof. reflexivity. Qed.

Lemma scan_path_end_witness :
  length gap_xs = length gap_ys ∧
  last_valid_at gap_xs gap_ys 3 6.0%Q 2.0%Q ∧
  ∃ st, Match._scan_path gap_xs gap_ys = Ok st ∧
        Match.st_end st = Some (6.0%Q, 2.0%Q, 4).
Proof.
  assert (last_valid_at gap_xs gap_ys 3 6.0%Q 2.0%Q) as H.
  { split; [split; reflexivity|].
    intros j H1 H2. simpl in H2. assert (j = 4) as -> by lia.
    left. reflexivity. }
  split; [reflexivity|]. split; [exact H|].
  apply (scan_path_end gap_xs gap_ys 3 6.0%Q 2.0%Q); [reflexivity|exact H].
Defined.

(** C2, as stated, fails on a path that is entirely missing: the scan
    returns, and ['missing'] is not the list of the missing indices. *)
Lemma scan_path_missing_entirely_null :
  ¬ ∃ st, Match._scan_path [None; None] [None; None] = Ok st ∧
          Match.st_missing st
          = Some (missing_indices [None; None] [None; None]).
Proof.
  intros (st & Hst & Hmissing). vm_compute in Hst.
  injection Hst as <-. discriminate Hmissing.
Qed.

Lemma scan_path_missing_count_witness :
  ∃ st, Match._scan_path gap_xs gap_ys = Ok st ∧
        Match.st_missing st = Some (missing_indices gap_xs gap_ys) ∧
        Match.st_n st = length gap_xs - length (missing_indices gap_xs gap_ys).
Proof.
  apply (proj1 (scan_path_missing_count gap_xs gap_ys eq_refl)).
  exists 2, 5.0%Q, 1.0%Q. split; reflexivity.
Defined.

Lemma scan_path_no_valid_raises_witness :
  Match._scan_path [None; None] [None; Some 0.5%Q] = Raise UnboundLocalError.
Proof.
  apply scan_path_no_valid_raises; [reflexivity| |].
  - intros [|[|i]] Hi; [left; reflexivity..|simpl in Hi; lia].
  - exists 1, 0.5%Q. right. reflexivity.
Defined.

(** C4, as stated, fails on a file of one line without tracking data:
    the constructor returns. *)
Lemma init_untracked_returns :
  Forall (λ p, getitem p "zebra" = Ok JNull) untracked.*2 ∧
  ¬ is_raise (Competitions.__init__ (decoder untracked) (lines_of untracked)).
Proof.
  split; [by repeat constructor|].
  intros [e He]. vm_compute in He. discriminate He.
Qed.

Lemma init_no_tracking_data_witness :
  ∃ c, Competitions.__init__ (decoder untracked) (lines_of untracked) = Ok c ∧
       Competitions.paths c = [qm2] ∧
       Competitions.zmatches c = [] ∧
       Competitions.mindex c = ∅ ∧
       Competitions.events c = ∅ ∧
       Competitions.__len__ c = 0 ∧
       (∀ e, Competitions.matches c e = []) ∧
       (∀ k, Competitions.__getitem__ c (Competitions.KStr k)
             = Raise KeyError) ∧
       (∀ i, Competitions.__getitem__ c (Competitions.KInt i)
             = Raise IndexError).
Proof.
  apply (init_no_tracking_data (decoder untracked) (lines_of untracked) [qm2]);
    [reflexivity|].
  repeat constructor; eexists; reflexivity.
Defined.

(** C5, as stated, fails at position -1 of the scenario's index: the last
    record is returned. *)
Lemma getitem_minus_one_returns :
  ∃ c r, Competitions.__init__ (decoder scenario) (lines_of scenario) = Ok c ∧
         Competitions.zmatches c ≠ [] ∧
         Competitions.__getitem__ c (Competitions.KInt (-1)) = Ok r ∧
         Match.match_ r = "2020wasno_qm3".
Proof.
  eexists _, _. split; [vm_compute; reflexivity|].
  split; [discriminate|]. split; vm_compute; reflexivity.
Qed.

(** C6, as stated, fails on a file with one key on two lines: the key of
    the first record resolves to the second record. *)
Lemma getitem_replayed_key :
  ∃ c r, Competitions.__init__ (decoder replayed) (lines_of replayed) = Ok c ∧
         Competitions.zmatches c !! 0 = Some r ∧
         Competitions.__getitem__ c (Competitions.KStr (Match.match_ r))
         ≠ Ok r.
Proof.
  eexists _, _. split; [vm_compute; reflexivity|].
  split; [reflexivity|]. vm_compute. discriminate.
Qed.

Lemma getitem_match_key_witness :
  ∃ c r, Competitions.__init__ (decoder scenario) (lines_of scenario) = Ok c ∧
         Competitions.zmatches c !! 0 = Some r ∧
         ∃ j r', (0 ≤ j)%nat ∧ Competitions.zmatches c !! j = Some r' ∧
           Match.match_ r' = Match.match_ r ∧
           (∀ j' r'', (j < j')%nat →
                      Competitions.zmatches c !! j' = Some r'' →
                      Match.match_ r'' ≠ Match.match_ r) ∧
           Competitions.__getitem__ c (Competitions.KStr (Match.match_ r))
           = Ok r'.
Proof.
  eexists _, _. split; [vm_compute; reflexivity|]. split; [reflexivity|].
  apply (getitem_match_key (decoder scenario) (lines_of scenario) _ 0 _);
    [vm_compute; reflexivity|reflexivity].
Defined.

Lemma event_summary_counts_witness :
  ∃ c, Competitions.__init__ (decoder scenario) (lines_of scenario) = Ok c ∧
       Competitions.event_summary c !! "2020wasno" = Some 2.
Proof.
  eexists. split; [vm_compute; reflexivity|].
  refine (proj1 (proj2 (event_summary_counts (decoder scenario)
                          (lines_of scenario) _ "2020wasno" _ _))).
  - vm_compute; reflexivity.
  - exists qm1. split; [by left|reflexivity].
Defined.

(** C8, as stated, fails on a record with two blue teams: it is parsed. *)
Lemma init_two_blue_returns :
  length <$> Match.alliance two_blue "blue" = Ok 2 ∧
  ∃ m, Match.__init__ (decoder []) two_blue = Ok m ∧
       Match.blue m = ["frc2046"; "frc360"].
Proof.
  split; [reflexivity|]. eexists. split; [vm_compute; reflexivity|reflexivity].
Qed.

Lemma init_missing_field_raises_witness :
  is_raise (Match.__init__ (decoder []) no_xs).
Proof.
  eapply (init_missing_field_raises (decoder []) no_xs _ _
            (JObj [("team_key", JStr "frc2046");
                   ("ys", JArr (cell_json <$> two_ys))]) _ "xs");
    [reflexivity|reflexivity| |reflexivity| |reflexivity].
  - apply elem_of_app. left. apply elem_of_cons. by left.
  - apply elem_of_cons. right. apply elem_of_cons. by left.
Defined.

(** C9 (as the code has it): a record of three and three teams with rows
    of one length is not parsed when a station has no valid sample and a
    coordinate that is present: the scan of this station raises. *)
Theorem init_valid_record_raises (json_loads : string → pyres json) :
  ∃ r, is_record lone_y r ∧
       length (r_blue r) = 3 ∧ length (r_red r) = 3 ∧
       Forall (λ t, length (xs t) = 2 ∧ length (ys t) = 2)
              (r_blue r ++ r_red r) ∧
       Match.__init__ json_loads lone_y = Raise UnboundLocalError.
Proof.
  exists {| r_event := "2020wasno"; r_match := "2020wasno_qm6";
            r_blue := [{| team_key := "frc2046"; xs := [None; None];
                          ys := [None; Some 0.5%Q] |};
                       {| team_key := "frc360"; xs := two_xs; ys := two_ys |};
                       {| team_key := "frc1318"; xs := two_xs; ys := two_ys |}];
            r_red := [{| team_key := "frc2910"; xs := two_xs; ys := two_ys |};
                      {| team_key := "frc4911"; xs := two_xs; ys := two_ys |};
                      {| team_key := "frc2557"; xs := two_xs; ys := two_ys |}];
            r_times := [Some 0.0%Q; Some 0.1%Q]; r_score := JNull |}.
  split.
  { repeat split; try reflexivity.
    eexists _, _, _, _. repeat split; try reflexivity;
      repeat constructor. }
  split; [reflexivity|]. split; [reflexivity|].
  split; [by repeat constructor|reflexivity].
Qed.

Lemma init_dumps_loads_witness :
  ∃ m, Match.__init__ (Json.loads Decimal.num_of) qm1 = Ok m ∧
       Match.__init__ (Json.loads Decimal.num_of)
                      (JStr (Json.dumps Decimal.num_repr qm1)) = Ok m.
Proof.
  eexists. split; [vm_compute; reflexivity|].
  etrans;
    [apply (init_dumps_loads Decimal.num_repr Decimal.num_of
              [("event", JStr "2020wasno"); ("match", JStr "2020wasno_qm1");
               ("zebra", tracked); ("score", JNull)]);
     vm_compute; exact I|].
  vm_compute; reflexivity.
Defined.

End samples.

(** * Further properties *)

(** ** The scan of a path: outcomes and invariants *)

Section scan_more.
Import Match.

Lemma first_valid_inv (l : list (cell * cell)) k t x y :
  first_valid (enumerate_from k l) = Some (t, x, y) →
  ∃ j, t = k + j ∧ l !! j = Some (Some x, Some y) ∧
       ∀ j' p, j' < j → l !! j' = Some p → gap p.
Proof.
  revert k. induction l as [|[a b] l IH]; intros k H; [done|].
  destruct a as [a|], b as [b|]; simpl in H.
  - injection H as <- <- <-. exists 0. split; [lia|]. split; [done|].
    intros j' p Hj'. lia.
  - apply IH in H as (j & -> & Hj & Hbefore). exists (S j).
    split; [lia|]. split; [done|].
    intros [|j'] p Hj' Hp; simplify_eq/=; [by right|].
    apply (Hbefore j'); [lia|done].
  - apply IH in H as (j & -> & Hj & Hbefore). exists (S j).
    split; [lia|]. split; [done|].
    intros [|j'] p Hj' Hp; simplify_eq/=; [by left|].
    apply (Hbefore j'); [lia|done].
  - apply IH in H as (j & -> & Hj & Hbefore). exists (S j).
    split; [lia|]. split; [done|].
    intros [|j'] p Hj' Hp; simplify_eq/=; [by left|].
    apply (Hbefore j'); [lia|done].
Qed.

Lemma first_valid_None_inv (l : list (cell * cell)) k :
  first_valid (enumerate_from k l) = None →
  ∀ j p, l !! j = Some p → gap p.
Proof.
  revert k. induction l as [|[a b] l IH]; intros k H j p Hp; [done|].
  destruct a as [a|], b as [b|]; simpl in H; try done;
    destruct j as [|j]; simplify_eq/=;
    first [by left|by right|by eapply IH].
Qed.

Lemma zip_lookup_valid (xs ys : list cell) j x y :
  zip xs ys !! j = Some (Some x, Some y) → valid_at xs ys j x y.
Proof.
  rewrite lookup_zip_with. unfold valid_at.
  destruct (xs !! j), (ys !! j); intros; by simplify_eq/=.
Qed.

Lemma zip_lookup_gap (xs ys : list cell) j p :
  zip xs ys !! j = Some p → gap p → missing_at xs ys j.
Proof.
  rewrite lookup_zip_with. unfold missing_at, gap.
  destruct (xs !! j), (ys !! j); intros Hp [H|H]; simplify_eq/=;
    [left|right]; by f_equal.
Qed.

Lemma zip_lookup_lt (xs ys : list cell) j :
  length xs = length ys → j < length xs → is_Some (zip xs ys !! j).
Proof.
  intros Hlen Hj. apply lookup_lt_is_Some_2.
  rewrite length_zip_with. lia.
Qed.

Lemma forallb_is_None_false (xs : list cell) :
  forallb is_None xs = false → ∃ i v, xs !! i = Some (Some v).
Proof.
  induction xs as [|[v|] xs IH]; simpl; [done| |].
  - intros _. by exists 0, v.
  - intros H. destruct (IH H) as (i & v & Hi). by exists (S i), v.
Qed.

Lemma valid_not_missing (xs ys : list cell) i x y :
  valid_at xs ys i x y → ¬ missing_at xs ys i.
Proof. intros [Hx Hy] [H|H]; congruence. Qed.

Lemma not_missing_valid (xs ys : list cell) i :
  length xs = length ys → i < length xs → ¬ missing_at xs ys i →
  ∃ x y, valid_at xs ys i x y.
Proof.
  intros Hlen Hi Hnot. unfold missing_at, valid_at in *.
  destruct (lookup_lt_is_Some_2 xs i Hi) as [[x|] Hx]; [|tauto].
  destruct (lookup_lt_is_Some_2 ys i) as [[y|] Hy]; [lia| |tauto].
  by exists x, y.
Qed.

(** The outcomes of the scan, from its three loops. *)
Lemma scan_path_cases (xs ys : list cell) :
  length xs = length ys →
  ((∀ i, i < length xs → xs !! i = Some None ∧ ys !! i = Some None) ∧
   _scan_path xs ys
   = Ok {| st_start := None; st_end := None; st_n := 0;
           st_missing := None |}) ∨
  ((∃ i v, xs !! i = Some (Some v) ∨ ys !! i = Some (Some v)) ∧
   (∀ i, i < length xs → missing_at xs ys i) ∧
   _scan_path xs ys = Raise UnboundLocalError) ∨
  (∃ s x0 y0 l x1 y1,
     first_valid_at xs ys s x0 y0 ∧ last_valid_at xs ys l x1 y1 ∧
     _scan_path xs ys
     = Ok {| st_start := Some (x0, y0, s); st_end := Some (x1, y1, S l);
             st_n := length xs - length (missing_indices xs ys);
             st_missing := Some (missing_indices xs ys) |}).
Proof.
  intros Hlen. unfold _scan_path.
  destruct (forallb is_None xs && forallb is_None ys) eqn:Hguard.
  { left. apply andb_true_iff in Hguard as [Hx Hy]. split; [|done].
    intros i Hi. split.
    - by apply forallb_is_None_all.
    - apply forallb_is_None_all; [done|lia]. }
  right.
  assert (∃ i v, xs !! i = Some (Some v) ∨ ys !! i = Some (Some v)) as Hsome.
  { apply andb_false_iff in Hguard as [H|H];
      apply forallb_is_None_false in H as (i & v & H); eauto. }
  rewrite missing_coords_indices by done. unfold enumerate.
  destruct (first_valid (enumerate_from 0 (zip xs ys)))
    as [[[t x0] y0]|] eqn:Hs.
  - right. apply first_valid_inv in Hs as (s & -> & Hs & Hbefore).
    apply zip_lookup_valid in Hs.
    pose proof (lookup_lt_Some _ _ _ (proj1 Hs)) as Hlt.
    destruct (first_valid_some (zip (reverse xs) (reverse ys)) 0
                (length xs - S s) x0 y0) as [[[t' x1] y1] He];
      [by apply zip_valid, valid_at_reverse|].
    rewrite He. simpl.
    apply first_valid_inv in He as (j & -> & Hj & Hafter).
    apply zip_lookup_valid in Hj.
    pose proof (lookup_lt_Some _ _ _ (proj1 Hj)) as Hjlt.
    rewrite length_reverse in Hjlt.
    exists s, x0, y0, (length xs - S j), x1, y1.
    split; [|split].
    + split; [done|]. intros i Hi.
      destruct (zip_lookup_lt xs ys i) as [p Hp]; [done|lia|].
      apply (zip_lookup_gap _ _ _ _ Hp), (Hbefore i); [lia|done].
    + split.
      * destruct Hj as [Hjx Hjy]. rewrite reverse_lookup in Hjx, Hjy by lia.
        split; [done|]. by rewrite Hlen.
      * intros i Hi Hilen.
        destruct (zip_lookup_lt (reverse xs) (reverse ys) (length xs - S i))
          as [p Hp]; [by rewrite !length_reverse|rewrite length_reverse; lia|].
        pose proof (zip_lookup_gap _ _ _ _ Hp
                      (Hafter (length xs - S i) p ltac:(lia) Hp)) as [H|H];
          rewrite reverse_lookup in H by lia; [left|right].
        -- by replace (length xs - S (length xs - S i)) with i in H by lia.
        -- rewrite <-Hlen in H.
           by replace (length xs - S (length xs - S i)) with i in H by lia.
    + simpl. do 4 f_equal. lia.
  - left. split; [done|]. split; [|done]. intros i Hi.
    destruct (zip_lookup_lt xs ys i) as [p Hp]; [done..|].
    apply (zip_lookup_gap _ _ _ _ Hp).
    by eapply first_valid_None_inv.
Qed.

Lemma indices_split (xs ys : list cell) :
  length (missing_indices xs ys) + length (valid_indices xs ys) = length xs.
Proof.
  unfold missing_indices, valid_indices.
  rewrite <-length_app, filter_app_complement. apply length_seq.
Qed.

Lemma valid_indices_within (xs ys : list cell) s e :
  (∀ i, i < length xs → i < s ∨ e ≤ i → missing_at xs ys i) →
  length (valid_indices xs ys) ≤ e - s.
Proof.
  intros Hout.
  trans (length (seq s (e - s))); [|by rewrite length_seq].
  apply submseteq_length, NoDup_submseteq.
  - apply NoDup_filter, NoDup_seq.
  - intros i [Hi Hin]%list_elem_of_filter. apply elem_of_seq in Hin.
    apply elem_of_seq.
    destruct (decide (i < s ∨ e ≤ i)) as [Hio|]; [|lia].
    destruct Hi. apply Hout; [lia|done].
Qed.

(** The scan of two lists of one length returns unless no sample is valid
    and some coordinate is present; it raises nothing but
    [UnboundLocalError]. *)
Theorem scan_path_outcome (xs ys : list cell) :
  length xs = length ys →
  (is_raise (_scan_path xs ys) ↔
   (∀ i, i < length xs → missing_at xs ys i) ∧
   (∃ i v, xs !! i = Some (Some v) ∨ ys !! i = Some (Some v))) ∧
  (∀ e, _scan_path xs ys = Raise e → e = UnboundLocalError).
Proof.
  intros Hlen.
  destruct (scan_path_cases xs ys Hlen)
    as [[Hall ->]|[(Hsome & Hgaps & ->)|(s & x0 & y0 & l & x1 & y1
                                          & [Hs _] & _ & ->)]].
  - split; [|done]. split; [by intros [e ?]|].
    intros (_ & i & v & Hv). exfalso.
    assert (i < length xs) as Hi.
    { destruct Hv as [Hv|Hv]; apply lookup_lt_Some in Hv; lia. }
    destruct (Hall i Hi) as [Hx Hy]. destruct Hv; congruence.
  - split; [|by intros e [= <-]]. split; [done|]. intros _. by eexists.
  - split; [|done]. split; [by intros [e ?]|].
    intros (Hgaps & _). exfalso.
    apply (valid_not_missing _ _ _ _ _ Hs), Hgaps.
    by apply (lookup_lt_Some _ _ _ (proj1 Hs)).
Qed.

(** When the scan returns a start and an end, the samples from the start
    index up to the end index (not included) hold all the valid samples:
    both bounds are valid samples, every sample outside is missing, and
    ['n'] is at least 1 and at most the width of this window. *)
Theorem scan_path_window (xs ys : list cell) st x0 y0 s x1 y1 e :
  length xs = length ys →
  _scan_path xs ys = Ok st →
  st_start st = Some (x0, y0, s) → st_end st = Some (x1, y1, e) →
  s < e ≤ length xs ∧
  valid_at xs ys s x0 y0 ∧ valid_at xs ys (e - 1) x1 y1 ∧
  (∀ i, i < length xs → i < s ∨ e ≤ i → missing_at xs ys i) ∧
  1 ≤ st_n st ≤ e - s.
Proof.
  intros Hlen Hst Hstart Hend.
  destruct (scan_path_cases xs ys Hlen)
    as [[_ H]|[(_ & _ & H)|(s' & a & b & l & c & d
                            & [Hs Hbefore] & [Hl Hafter] & H)]];
    rewrite H in Hst; simplify_eq/=.
  pose proof (lookup_lt_Some _ _ _ (proj1 Hl)) as Hllt.
  assert (s ≤ l) as Hsl.
  { destruct (decide (s ≤ l)) as [|Hgt]; [done|exfalso].
    apply (valid_not_missing _ _ _ _ _ Hl), Hbefore. lia. }
  assert (∀ i, i < length xs → i < s ∨ S l ≤ i → missing_at xs ys i) as Hout.
  { intros i Hi [Hlt|Hge]; [by apply Hbefore|apply Hafter; lia]. }
  split; [lia|]. split; [done|].
  split; [by rewrite Nat.sub_0_r|]. split; [done|].
  pose proof (indices_split xs ys) as Hsplit.
  pose proof (valid_indices_within xs ys s (S l) Hout) as Hwithin.
  assert (s ∈ valid_indices xs ys) as Hin.
  { apply list_elem_of_filter. split; [by eapply valid_not_missing|].
    apply elem_of_seq. lia. }
  destruct (valid_indices xs ys) as [|v vs] eqn:Hv;
    [by apply elem_of_nil in Hin|].
  simpl in *. lia.
Qed.

(** Whenever the scan returns, ['n'] is the number of samples that are not
    missing. *)
Theorem scan_path_count_valid (xs ys : list cell) st :
  length xs = length ys →
  _scan_path xs ys = Ok st →
  st_n st = length (valid_indices xs ys).
Proof.
  intros Hlen Hst.
  pose proof (indices_split xs ys) as Hsplit.
  destruct (scan_path_cases xs ys Hlen)
    as [[Hall H]|[(_ & _ & H)|(s & a & b & l & c & d & _ & _ & H)]];
    rewrite H in Hst; simplify_eq/=; [|lia].
  rewrite missing_indices_all, length_seq in Hsplit; [lia|].
  intros i Hi. left. by apply Hall.
Qed.

End scan_more.

(** ** The constructor of [Match]: what every parsed match satisfies *)

Section init_more.
Variable json_loads : string → pyres json.

Lemma mapM_length {A B} (f : A → pyres B) (l : list A) (k : list B) :
  mapM f l = Ok k → length k = length l.
Proof. intros H. symmetry. by eapply Forall2_length, mapM_Ok_Forall2. Qed.

Lemma team_keys_inv d name ks :
  Match.team_keys d name = Ok ks →
  ∃ l, Match.alliance d name = Ok l ∧ length ks = length l.
Proof.
  unfold Match.team_keys. intros H. bind_inv H l Hl.
  exists l. split; [done|]. by eapply mapM_length.
Qed.

Lemma alliance_rows_inv d name rows :
  Match.alliance_rows d name = Ok rows →
  ∃ l, Match.alliance d name = Ok l ∧ length rows = 2 * length l.
Proof.
  unfold Match.alliance_rows. intros H. bind_inv H l Hl. bind_inv H rs Hrs.
  injection H as <-. exists l. split; [done|].
  apply mapM_Ok_Forall2 in Hrs. clear Hl.
  induction Hrs as [|t r l rs Hr _ IH]; [done|].
  unfold Match.team_rows in Hr. bind_inv Hr x Hx. bind_inv Hr y Hy.
  injection Hr as <-. simpl in *. lia.
Qed.

Lemma np_array_inv rows a :
  np_array rows = Ok a →
  length a = length rows ∧ ∃ n, Forall (λ r, length r = n) a.
Proof.
  unfold np_array. intros H. bind_inv H a' Ha.
  apply mapM_length in Ha. destruct a' as [|r rs].
  { injection H as <-. split; [done|]. exists 0. constructor. }
  destruct (forallb _ rs) eqn:Hall; [|done]. injection H as <-.
  split; [done|]. exists (length r). constructor; [done|].
  apply Forall_forall. intros r' Hr'.
  rewrite forallb_forall in Hall. apply Nat.eqb_eq, Hall.
  by apply list_elem_of_In.
Qed.

(** What the loop over the teams has done when it ends without a raise. *)
Lemma scan_teams_inv (paths : list (list cell)) (ks : list string) k acc teams :
  foldlM (Match.scan_team paths) acc (enumerate_from k ks) = Ok teams →
  (∀ j, j < length ks → k + j < 6) ∧
  dom teams = dom acc ∪ list_to_set ks ∧
  (∀ key, key ∉ ks → teams !! key = acc !! key) ∧
  (∀ j tm, ks !! j = Some tm →
     ∃ xs ys st station,
       paths !! (2 * (k + j)) = Some xs ∧
       paths !! (2 * (k + j) + 1) = Some ys ∧
       Match._scan_path xs ys = Ok st ∧
       Match.stations !! (k + j) = Some station ∧
       ((∀ j' tm', j < j' → ks !! j' = Some tm' → tm' ≠ tm) →
        teams !! tm
        = Some {| Match.td_stats := st; Match.td_xs := xs;
                  Match.td_ys := ys; Match.td_station := station |})).
Proof.
  revert k acc. induction ks as [|tm ks IH]; intros k acc H.
  { injection H as <-. split; [simpl; lia|].
    split; [by rewrite list_to_set_nil, (right_id_L ∅ (∪))|].
    split; [done|]. by intros j tm Hj. }
  cbn [enumerate_from foldlM Match.scan_team] in H.
  bind_inv H acc' Hacc.
  unfold index in Hacc.
  destruct (paths !! (2 * k)) as [xs|] eqn:Hxs; [|done].
  cbn [mbind pyres_bind] in Hacc.
  destruct (paths !! (2 * k + 1)) as [ys|] eqn:Hys; [|done].
  cbn [mbind pyres_bind] in Hacc.
  destruct (Match._scan_path xs ys) as [st|] eqn:Hst; [|done].
  cbn [mbind pyres_bind] in Hacc.
  destruct (Match.stations !! k) as [stn|] eqn:Hstn; [|done].
  cbn [mbind pyres_bind] in Hacc. injection Hacc as <-.
  apply IH in H as (Hsix & Hdom & Hother & Hteams).
  pose proof (lookup_lt_Some _ _ _ Hstn) as Hk. simpl in Hk.
  split; [|split; [|split]].
  - intros [|j] Hj; simpl in Hj; [lia|].
    specialize (Hsix j ltac:(lia)). lia.
  - rewrite Hdom, dom_insert_L, list_to_set_cons.
    by rewrite (comm_L (∪) {[tm]}), (assoc_L (∪)).
  - intros key [Hne Hnot]%not_elem_of_cons.
    by rewrite Hother, lookup_insert_ne.
  - intros [|j] tm' Hj; simplify_eq/=.
    + exists xs, ys, st, stn. rewrite Nat.add_0_r.
      repeat (split; [done|]). intros Hlater.
      rewrite Hother; [apply lookup_insert_eq|].
      intros [i Hi]%list_elem_of_lookup.
      apply (Hlater (S i) tm'); [lia|done|done].
    + destruct (Hteams j tm' Hj) as (xs' & ys' & st' & stn' & H1 & H2 & H3
                                     & H4 & H5).
      exists xs', ys', st', stn'.
      replace (k + S j) with (S k + j) by lia.
      repeat (split; [done|]). intros Hlater. apply H5.
      intros j' tm'' Hj' Hlook. apply (Hlater (S j')); [lia|done].
Qed.

(** The attributes of a parsed match, from the steps of the constructor. *)
Lemma init_inv d m :
  Match.__init__ json_loads d = Ok m →
  (∃ n, Forall (λ r, length r = n) (Match.paths m)) ∧
  length (Match.paths m) = 2 * length (Match.blue m ++ Match.red m) ∧
  foldlM (Match.scan_team (Match.paths m)) ∅
         (enumerate (Match.blue m ++ Match.red m)) = Ok (Match.teams m).
Proof.
  unfold Match.__init__. intros H.
  bind_inv H d' Hd'. bind_inv H ev Hev. bind_inv H mk Hmk.
  bind_inv H bl Hbl. bind_inv H rd Hrd.
  bind_inv H rb Hrb. bind_inv H rr Hrr. bind_inv H ps Hps.
  bind_inv H z Hz. bind_inv H tms Htms. bind_inv H score Hscore.
  bind_inv H teams Hteams. injection H as <-. simpl.
  apply np_array_inv in Hps as [Hlen Hrect].
  apply team_keys_inv in Hbl as (lb & Hlb & Hbl).
  apply team_keys_inv in Hrd as (lr & Hlr & Hrd).
  apply alliance_rows_inv in Hrb as (lb' & Hlb' & Hrb).
  apply alliance_rows_inv in Hrr as (lr' & Hlr' & Hrr).
  rewrite Hlb in Hlb'. injection Hlb' as <-.
  rewrite Hlr in Hlr'. injection Hlr' as <-.
  split; [done|]. split; [|done].
  rewrite Hlen, !length_app. lia.
Qed.

(** A parsed match has at most six teams, two rows of [paths] for each of
    them, all rows of one length, and an entry of [teams] for exactly the
    keys of its teams. *)
Theorem init_shape d m :
  Match.__init__ json_loads d = Ok m →
  length (Match.blue m ++ Match.red m) ≤ 6 ∧
  length (Match.paths m) = 2 * length (Match.blue m ++ Match.red m) ∧
  (∃ n, Forall (λ r, length r = n) (Match.paths m)) ∧
  dom (Match.teams m) = list_to_set (Match.blue m ++ Match.red m).
Proof.
  intros (Hrect & Hlen & Hteams)%init_inv.
  apply scan_teams_inv in Hteams as (Hsix & Hdom & _ & _).
  split; [|split; [done|split; [done|]]].
  - destruct (Match.blue m ++ Match.red m) as [|tm ks] eqn:Hks; [simpl; lia|].
    specialize (Hsix (length ks) ltac:(simpl; lia)). simpl in *. lia.
  - by rewrite Hdom, dom_empty_L, (left_id_L ∅ (∪)).
Qed.

(** In a parsed match, the team at position [idx] of [blue + red] has the
    rows [2 idx] and [2 idx + 1] of [paths]; their scan returned, and the
    entry of the team's key in [teams] holds this scan, the two rows and
    the station of position [idx], unless a later team has the same key. *)
Theorem init_station d m idx tm :
  Match.__init__ json_loads d = Ok m →
  (Match.blue m ++ Match.red m) !! idx = Some tm →
  ∃ xs ys st station,
    Match.paths m !! (2 * idx) = Some xs ∧
    Match.paths m !! (2 * idx + 1) = Some ys ∧
    Match._scan_path xs ys = Ok st ∧
    Match.stations !! idx = Some station ∧
    ((∀ idx' tm', idx < idx' →
                  (Match.blue m ++ Match.red m) !! idx' = Some tm' →
                  tm' ≠ tm) →
     Match.teams m !! tm
     = Some {| Match.td_stats := st; Match.td_xs := xs;
               Match.td_ys := ys; Match.td_station := station |}).
Proof.
  intros (_ & _ & Hteams)%init_inv Hidx.
  apply scan_teams_inv in Hteams as (_ & _ & _ & Hstations).
  apply (Hstations idx tm Hidx).
Qed.

(** The loop over the teams stops with [IndexError] at the seventh team:
    [stations] has six names. *)
Lemma scan_teams_seventh (paths : list (list cell)) (ts : list team) k acc :
  k ≤ 6 → 6 < k + length ts →
  (∀ j t, ts !! j = Some t → k + j ≤ 6 →
     paths !! (2 * (k + j)) = Some (xs t) ∧
     paths !! (2 * (k + j) + 1) = Some (ys t) ∧
     ∃ st, Match._scan_path (xs t) (ys t) = Ok st) →
  foldlM (Match.scan_team paths) acc (enumerate_from k (team_key <$> ts))
  = Raise IndexError.
Proof.
  revert k acc. induction ts as [|t ts IH]; intros k acc Hk Hlen Hts;
    [simpl in Hlen; lia|].
  destruct (Hts 0 t eq_refl ltac:(lia)) as (Hx & Hy & st & Hst).
  rewrite Nat.add_0_r in Hx, Hy.
  cbn [fmap list_fmap enumerate_from foldlM Match.scan_team].
  unfold index. rewrite Hx, Hy. cbn [mbind pyres_bind].
  rewrite Hst. cbn [mbind pyres_bind].
  destruct (decide (k = 6)) as [->|Hne]; [done|].
  destruct (lookup_lt_is_Some_2 Match.stations k) as [stn Hstn];
    [simpl; lia|].
  rewrite Hstn. cbn [mbind pyres_bind].
  apply IH; [lia|simpl in Hlen; lia|].
  intros j t' Hj Hle. replace (S k + j) with (k + S j) by lia.
  apply Hts; [done|lia].
Qed.

(** A raw match record of more than six teams with rows of one length is
    not parsed: when the scans of its first seven stations return, the
    constructor raises [IndexError]. *)
Theorem init_seventh_team d r n :
  is_record d r →
  Forall (λ t, length (xs t) = n ∧ length (ys t) = n) (r_blue r ++ r_red r) →
  6 < length (r_blue r ++ r_red r) →
  Forall (λ t, ∃ st, Match._scan_path (xs t) (ys t) = Ok st)
         (take 7 (r_blue r ++ r_red r)) →
  Match.__init__ json_loads d = Raise IndexError.
Proof.
  intros (He & Hm & Hsc & z & a & bl & rd & Hz & Ht & Ha & Hb & Hbl & Hr & Hrd)
         Hlen Hseven Hscan.
  destruct (getitem_Ok_obj _ _ _ He) as [kvs ->].
  pose proof (alliance_list _ _ _ _ _ Hz Ha Hb) as Hab.
  pose proof (alliance_list _ _ _ _ _ Hz Ha Hr) as Har.
  unfold Match.__init__. cbn [mbind pyres_bind].
  rewrite He, Hm. cbn [mbind pyres_bind as_str].
  rewrite (team_keys_ok _ _ _ _ Hab Hbl), (team_keys_ok _ _ _ _ Har Hrd).
  cbn [mbind pyres_bind].
  rewrite (alliance_rows_ok _ _ _ _ Hab Hbl), (alliance_rows_ok _ _ _ _ Har Hrd).
  cbn [mbind pyres_bind].
  rewrite <-(fmap_app _ (rows_of (r_blue r))), <-rows_of_app, (np_array_ok _ n)
    by by apply rows_of_length.
  cbn [mbind pyres_bind]. rewrite Hz. cbn [mbind pyres_bind].
  rewrite Ht. cbn [mbind pyres_bind].
  rewrite as_cells_cell_json. cbn [mbind pyres_bind].
  rewrite Hsc. cbn [mbind pyres_bind].
  unfold enumerate. rewrite <-(fmap_app team_key).
  rewrite scan_teams_seventh; [done|lia|simpl; lia|].
  intros j t Hj Hle. destruct (rows_of_lookup _ _ _ Hj) as [Hx Hy].
  split; [done|]. split; [done|].
  rewrite Forall_forall in Hscan. apply Hscan.
  apply list_elem_of_lookup. exists j. rewrite lookup_take_lt by lia. done.
Qed.

(** A dictionary whose [zebra] is [None] is not parsed: with its [event]
    and [match] in place, the constructor raises [TypeError]. *)
Theorem init_null_zebra d e k :
  getitem d "event" = Ok (JStr e) → getitem d "match" = Ok (JStr k) →
  getitem d "zebra" = Ok JNull →
  Match.__init__ json_loads d = Raise TypeError.
Proof.
  intros He Hk Hz. destruct (getitem_Ok_obj _ _ _ He) as [kvs ->].
  unfold Match.__init__. cbn [mbind pyres_bind].
  rewrite He, Hk. cbn [mbind pyres_bind as_str].
  unfold Match.team_keys, Match.alliance. by rewrite Hz.
Qed.

End init_more.

(** ** The index: records, keys, events and the summary *)

Section index_more.
Variable json_loads : string → pyres json.

Lemma init_line_keys kvs zm :
  Match.__init__ json_loads (JObj kvs) = Ok zm →
  getitem (JObj kvs) "event" = Ok (JStr (Match.event zm)) ∧
  getitem (JObj kvs) "match" = Ok (JStr (Match.match_ zm)).
Proof.
  unfold Match.__init__. remember (JObj kvs) as d eqn:Hd. intros H.
  bind_inv H d' Hd'. rewrite Hd in Hd'. injection Hd' as Hd'.
  rewrite <-Hd in Hd'. subst d'.
  bind_inv H ev Hev. bind_inv H mk Hmk.
  bind_inv H bl Hbl. bind_inv H rd Hrd.
  bind_inv H rb Hrb. bind_inv H rr Hrr. bind_inv H ps Hps.
  bind_inv H z Hz. bind_inv H tms Htms. bind_inv H score Hscore.
  bind_inv H teams Hteams. injection H as <-. simpl.
  destruct (getitem d "event") as [[]|]; try done.
  destruct (getitem d "match") as [[]|]; try done.
  by simplify_eq/=.
Qed.

Lemma has_zebra_filter_cons p paths :
  filter has_zebra (p :: paths)
  = if has_zebra p then p :: filter has_zebra paths
    else filter has_zebra paths.
Proof. rewrite filter_cons. by destruct (has_zebra p). Qed.

(** The comprehension parses the lines with tracking data, in order. *)
Lemma read_matches_inv paths zms :
  Competitions.read_matches json_loads paths = Ok zms →
  Forall2 (λ zm p, Match.__init__ json_loads p = Ok zm ∧
                   getitem p "event" = Ok (JStr (Match.event zm)) ∧
                   getitem p "match" = Ok (JStr (Match.match_ zm)))
          zms (filter has_zebra paths).
Proof.
  revert zms. induction paths as [|p paths IH]; intros zms H; simpl in H.
  { injection H as <-. constructor. }
  bind_inv H z Hz. rewrite has_zebra_filter_cons. unfold has_zebra at 1.
  rewrite Hz. destruct (is_null z); simpl; [by apply IH|].
  bind_inv H zm Hzm. bind_inv H zms' Hzms. injection H as <-.
  constructor; [|by apply IH].
  destruct (getitem_Ok_obj _ _ _ Hz) as [kvs ->].
  split; [done|]. by apply init_line_keys.
Qed.

Lemma built_records lines c :
  Competitions.__init__ json_loads lines = Ok c →
  Forall2 (λ zm p, Match.__init__ json_loads p = Ok zm ∧
                   getitem p "event" = Ok (JStr (Match.event zm)) ∧
                   getitem p "match" = Ok (JStr (Match.match_ zm)))
          (Competitions.zmatches c) (filter has_zebra (Competitions.paths c)).
Proof.
  intros Hc.
  destruct (Competitions_init_fields _ _ _ Hc) as (p & s & z & Hread & ->).
  apply read_file_Ok in Hread as (_ & Hz & _). by apply read_matches_inv.
Qed.

Lemma line_event_key p ev e :
  getitem p "event" = Ok (JStr ev) → line_event p e = bool_decide (ev = e).
Proof. unfold line_event. by intros ->. Qed.

(** The records of an event against the tracked lines of the event. *)
Lemma records_of_event zms paths e :
  Forall2 (λ zm p, Match.__init__ json_loads p = Ok zm ∧
                   getitem p "event" = Ok (JStr (Match.event zm)) ∧
                   getitem p "match" = Ok (JStr (Match.match_ zm)))
          zms (filter has_zebra paths) →
  length (filter (λ zm, Match.event zm = e) zms)
  = length (filter (λ p, line_event p e && has_zebra p) paths).
Proof.
  intros H.
  trans (length (filter (λ p, line_event p e) (filter has_zebra paths))).
  - induction H as [|zm p zms ps (_ & Hev & _) _ IH]; [done|].
    rewrite filter_bool_length_cons, filter_cons, <-IH.
    rewrite (line_event_key _ _ e Hev).
    destruct (decide (Match.event zm = e)).
    + by rewrite bool_decide_eq_true_2.
    + by rewrite bool_decide_eq_false_2.
  - clear H. induction paths as [|p paths IH]; [done|].
    rewrite has_zebra_filter_cons, (filter_bool_length_cons (λ p, _ && _)).
    destruct (has_zebra p).
    + by rewrite filter_bool_length_cons, IH, andb_true_r.
    + by rewrite IH, andb_false_r.
Qed.

Lemma built_summary lines c e :
  Competitions.__init__ json_loads lines = Ok c →
  default 0 (Competitions.event_summary c !! e)
  = length (filter (λ p, line_event p e && has_zebra p)
                   (Competitions.paths c)) ∧
  (is_Some (Competitions.event_summary c !! e) ↔
   ∃ p, p ∈ Competitions.paths c ∧ line_event p e).
Proof.
  intros Hc.
  destruct (Competitions_init_fields _ _ _ Hc) as (p & s & z & Hread & ->).
  apply read_file_Ok in Hread as (_ & _ & evs & zs & Hevs & Hzs & ->).
  cbn [Competitions.paths Competitions.event_summary].
  destruct (summary_rows _ _ _ e Hevs Hzs) as [Htot Hin].
  split; [by rewrite groupby_sum_total|].
  rewrite groupby_sum_is_Some. split; [|done].
  rewrite fst_zip
    by (apply Forall2_length in Hevs, Hzs; lia).
  intros Hev. clear Hzs Hin Htot Hc.
  induction Hevs as [|q ev ps evs Hq _ IH]; [by apply elem_of_nil in Hev|].
  apply elem_of_cons in Hev as [->|Hev].
  - exists q. split; [by left|].
    rewrite (line_event_decoded _ _ ev Hq). by apply bool_decide_pack.
  - destruct (IH Hev) as (q' & Hq' & He). exists q'. split; [by right|done].
Qed.

Lemma built_key_lookup lines c k :
  Competitions.__init__ json_loads lines = Ok c →
  ((∃ r, r ∈ Competitions.zmatches c ∧ Match.match_ r = k) →
   ∃ r', Competitions.__getitem__ c (Competitions.KStr k) = Ok r' ∧
         Match.match_ r' = k ∧ r' ∈ Competitions.zmatches c) ∧
  ((∀ r, r ∈ Competitions.zmatches c → Match.match_ r ≠ k) →
   Competitions.__getitem__ c (Competitions.KStr k) = Raise KeyError).
Proof.
  intros Hc.
  destruct (Competitions_init_fields _ _ _ Hc) as (p & s & z & _ & ->).
  cbn [Competitions.zmatches Competitions.__getitem__ Competitions.mindex].
  split.
  - intros (r & [i Hi]%list_elem_of_lookup & <-).
    destruct (build_mindex_last z i r Hi) as (j & r' & _ & Hj & Hkey & _ & Hm).
    exists r'. rewrite Hm. split; [by apply index_lookup|].
    split; [done|]. by eapply list_elem_of_lookup_2.
  - intros Hnone. by rewrite build_mindex_absent.
Qed.

Lemma built_paths lines c :
  Competitions.__init__ json_loads lines = Ok c →
  mapM json_loads lines = Ok (Competitions.paths c).
Proof.
  intros Hc.
  destruct (Competitions_init_fields _ _ _ Hc) as (p & s & z & Hread & ->).
  by apply read_file_Ok in Hread as (Hlines & _).
Qed.

(** The records of a constructed index are the parses of the lines with
    tracking data, in the order of the file: [paths] holds the decoded
    lines of the file, the records are the parses of those of them whose
    [zebra] is not null, each with the event and the match key of its
    line, and the length of the index is the number of these lines. *)
Theorem zmatches_tracked_lines lines c :
  Competitions.__init__ json_loads lines = Ok c →
  mapM json_loads lines = Ok (Competitions.paths c) ∧
  Forall2 (λ zm p, Match.__init__ json_loads p = Ok zm ∧
                   getitem p "event" = Ok (JStr (Match.event zm)) ∧
                   getitem p "match" = Ok (JStr (Match.match_ zm)))
          (Competitions.zmatches c) (filter has_zebra (Competitions.paths c)) ∧
  Competitions.__len__ c = length (filter has_zebra (Competitions.paths c)).
Proof.
  intros Hc. pose proof (built_records _ _ Hc) as H.
  split; [by apply built_paths|].
  split; [done|]. by apply Forall2_length in H.
Qed.

(** In a constructed index a match key is found exactly when a record has
    it: the lookup returns a record with this key, and raises [KeyError]
    when no record has the key. *)
Theorem getitem_key_outcome lines c k :
  Competitions.__init__ json_loads lines = Ok c →
  ((∃ r, r ∈ Competitions.zmatches c ∧ Match.match_ r = k) →
   ∃ r', Competitions.__getitem__ c (Competitions.KStr k) = Ok r' ∧
         Match.match_ r' = k ∧ r' ∈ Competitions.zmatches c) ∧
  ((∀ r, r ∈ Competitions.zmatches c → Match.match_ r ≠ k) →
   Competitions.__getitem__ c (Competitions.KStr k) = Raise KeyError).
Proof. apply built_key_lookup. Qed.

(** [matches] of an event returns as many keys as the summary counts for
    the event, and every key it returns is found by [__getitem__]. *)
Theorem matches_of_event lines c e :
  Competitions.__init__ json_loads lines = Ok c →
  length (Competitions.matches c e)
  = default 0 (Competitions.event_summary c !! e) ∧
  (∀ k, k ∈ Competitions.matches c e →
        ∃ r, Competitions.__getitem__ c (Competitions.KStr k) = Ok r ∧
             Match.match_ r = k).
Proof.
  intros Hc. split.
  - unfold Competitions.matches. rewrite length_fmap.
    rewrite (proj1 (built_summary _ _ e Hc)).
    apply records_of_event, (built_records _ _ Hc).
  - intros k (r & -> & [_ Hr]%list_elem_of_filter)%list_elem_of_fmap.
    destruct (proj1 (built_key_lookup _ _ (Match.match_ r) Hc))
      as (r' & Hr' & Hkey & _); eauto.
Qed.

(** The events of a constructed index are the events whose count in the
    summary is positive, which are the events with a match; [paths]
    holds the decoded lines of the file, and the summary has an entry for
    exactly the events of these lines. *)
Theorem events_of_summary lines c e :
  Competitions.__init__ json_loads lines = Ok c →
  (e ∈ Competitions.events c ↔
   0 < default 0 (Competitions.event_summary c !! e)) ∧
  (e ∈ Competitions.events c ↔ Competitions.matches c e ≠ []) ∧
  mapM json_loads lines = Ok (Competitions.paths c) ∧
  (is_Some (Competitions.event_summary c !! e) ↔
   ∃ p, p ∈ Competitions.paths c ∧ line_event p e).
Proof.
  intros Hc.
  assert (e ∈ Competitions.events c ↔ Competitions.matches c e ≠ []) as Hev.
  { destruct (Competitions_init_fields _ _ _ Hc) as (p & s & z & _ & ->).
    unfold Competitions.matches.
    cbn [Competitions.events Competitions.zmatches].
    rewrite elem_of_list_to_set, list_elem_of_fmap. split.
    - intros (r & -> & Hr) Hnil. apply fmap_nil_inv in Hnil.
      apply (filter_nil_not_elem_of _ _ r Hnil); done.
    - intros Hne. destruct (filter _ z) as [|r rs] eqn:Hf; [done|].
      assert (r ∈ filter (λ zm, Match.event zm = e) z) as Hr
        by (rewrite Hf; by left).
      apply list_elem_of_filter in Hr as [Hre Hr]. eauto. }
  split; [|split; [done|split; [by apply built_paths|
                                apply (built_summary _ _ e Hc)]]].
  rewrite Hev, (proj1 (built_summary _ _ e Hc)).
  assert (length (Competitions.matches c e)
          = length (filter (λ p, line_event p e && has_zebra p)
                           (Competitions.paths c))) as <-.
  { unfold Competitions.matches. rewrite length_fmap.
    apply records_of_event, (built_records _ _ Hc). }
  destruct (Competitions.matches c e); simpl; split; (done || lia).
Qed.

Lemma summary_sum_insert_fresh (m : gmap string nat) e n :
  m !! e = None → summary_sum (<[e:=n]> m) = n + summary_sum m.
Proof.
  intros He. unfold summary_sum.
  rewrite map_fold_insert_L; [done| |done]. intros; lia.
Qed.

Lemma summary_sum_insert (m : gmap string nat) e n :
  summary_sum (<[e:=n]> m) + default 0 (m !! e) = n + summary_sum m.
Proof.
  destruct (m !! e) as [old|] eqn:He; simpl.
  - rewrite <-(insert_delete_id m e old He) at 2.
    rewrite <-insert_delete_eq.
    rewrite !summary_sum_insert_fresh by apply lookup_delete_eq. lia.
  - rewrite summary_sum_insert_fresh by done. lia.
Qed.

Lemma groupby_sum_sum rows :
  summary_sum (Competitions.groupby_sum rows) = sum_list rows.*2.
Proof.
  induction rows as [|[e p] rows IH] using rev_ind; [done|].
  rewrite groupby_sum_snoc, fmap_app, sum_list_with_app. simpl.
  pose proof (summary_sum_insert (Competitions.groupby_sum rows) e
                (default 0 (Competitions.groupby_sum rows !! e) + p)).
  lia.
Qed.

Lemma flags_sum paths zs :
  Forall2 (λ p f, (z ← getitem p "zebra";
                   Ok (if is_null z then 0 else 1)) = Ok f) paths zs →
  sum_list zs = length (filter has_zebra paths).
Proof.
  induction 1 as [|p f paths zs Hf _ IH]; [done|].
  apply has_zebra_decoded in Hf.
  rewrite filter_bool_length_cons. simpl. rewrite IH, Hf.
  by destruct (has_zebra p).
Qed.

(** The counts of the summary add up to the length of the index. *)
Theorem summary_sum_len lines c :
  Competitions.__init__ json_loads lines = Ok c →
  summary_sum (Competitions.event_summary c) = Competitions.__len__ c.
Proof.
  intros Hc. pose proof (built_records _ _ Hc) as Hrec.
  apply Forall2_length in Hrec. unfold Competitions.__len__. rewrite Hrec.
  destruct (Competitions_init_fields _ _ _ Hc) as (p & s & z & Hread & ->).
  apply read_file_Ok in Hread as (_ & _ & evs & zs & Hevs & Hzs & ->).
  cbn [Competitions.paths Competitions.event_summary].
  rewrite groupby_sum_sum, snd_zip
    by (apply Forall2_length in Hevs, Hzs; lia).
  by apply flags_sum.
Qed.

Lemma read_matches_raise paths p :
  p ∈ paths → has_zebra p → is_raise (Match.__init__ json_loads p) →
  is_raise (Competitions.read_matches json_loads paths).
Proof.
  intros Hp Hz Hraise. induction paths as [|q paths IH];
    [by apply elem_of_nil in Hp|].
  simpl. destruct (getitem q "zebra") as [z|] eqn:Hq; [|by eexists].
  cbn [mbind pyres_bind]. apply elem_of_cons in Hp as [<-|Hp].
  - unfold has_zebra in Hz. rewrite Hq in Hz.
    destruct (is_null z); [done|]. by apply is_raise_bind.
  - destruct (is_null z); [by apply IH|].
    destruct (Match.__init__ json_loads q); [|by eexists].
    cbn [mbind pyres_bind]. by apply is_raise_bind, IH.
Qed.

(** One line with tracking data that [Match] cannot parse makes the
    construction of the index raise: there is no index of the other
    lines. *)
Theorem init_unparsed_line lines paths p :
  mapM json_loads lines = Ok paths →
  p ∈ paths → has_zebra p → is_raise (Match.__init__ json_loads p) →
  is_raise (Competitions.__init__ json_loads lines).
Proof.
  intros Hlines Hp Hz Hraise.
  unfold Competitions.__init__. apply is_raise_bind.
  unfold Competitions._read_file. rewrite Hlines. cbn [mbind pyres_bind].
  do 3 (lazymatch goal with
        | |- is_raise (mbind _ ?m) =>
            destruct m; cbn [mbind pyres_bind]; [|by eexists]
        end).
  by eapply is_raise_bind, read_matches_raise.
Qed.

End index_more.

(** ** [filter_by_event] *)

Section filter_event.
Variable json_loads : string → pyres json.

Lemma keep_line_tracked e line b :
  Data.keep_line json_loads e line = Ok b → tracked_line json_loads e line = b.
Proof.
  unfold Data.keep_line, tracked_line, line_event, has_zebra. intros H.
  bind_inv H d Hd. bind_inv H ev Hev.
  destruct ev as [| | |s| |]; simpl in H; try by injection H as <-.
  destruct (bool_decide (s = e)); simpl in *; [|by injection H as <-].
  bind_inv H z Hz. by injection H as <-.
Qed.

(** The loop, from any state: it appends to the output file and adds to
    the count. *)
Lemma filter_lines_state e ifile ofile n :
  Data.filter_lines json_loads e ifile ofile n
  = (ofile ++ (Data.filter_lines json_loads e ifile [] 0).1,
     (λ k, n + k) <$> (Data.filter_lines json_loads e ifile [] 0).2).
Proof.
  revert ofile n. induction ifile as [|line ifile IH]; intros ofile n; simpl.
  { by rewrite app_nil_r, Nat.add_0_r. }
  destruct (Data.keep_line json_loads e line) as [[|]|]; simpl.
  - rewrite (IH (ofile ++ [line])), (IH [line] 1), <-(assoc_L (++)).
    f_equal. destruct (Data.filter_lines json_loads e ifile [] 0).2; simpl;
      f_equal; lia.
  - apply IH.
  - by rewrite app_nil_r.
Qed.

Lemma filter_lines_written e ifile :
  (Data.filter_lines json_loads e ifile [] 0).1
  `prefix_of` filter (tracked_line json_loads e) ifile ∧
  ∀ n, (Data.filter_lines json_loads e ifile [] 0).2 = Ok n →
       (Data.filter_lines json_loads e ifile [] 0).1
       = filter (tracked_line json_loads e) ifile ∧
       n = length (filter (tracked_line json_loads e) ifile).
Proof.
  induction ifile as [|line ifile [IHpre IHok]]; simpl.
  { split; [done|]. by intros n [= <-]. }
  destruct (Data.keep_line json_loads e line) as [b|] eqn:Hk; simpl.
  - apply keep_line_tracked in Hk. rewrite filter_cons, Hk.
    destruct b; simpl.
    + rewrite filter_lines_state. simpl. split; [by apply prefix_cons|].
      intros n Hn.
      destruct (Data.filter_lines json_loads e ifile [] 0).2 as [k|];
        [|done].
      injection Hn as <-. destruct (IHok k eq_refl) as [-> ->]. done.
    + done.
  - split; [apply prefix_nil|done].
Qed.

(** The output file of [filter_by_event] begins the list of the input
    lines that decode to the event with tracking data, in their order;
    when no line raises it is this whole list and the count printed is
    its length. *)
Theorem filter_by_event_written e ifile ofile r :
  Data.filter_by_event json_loads e ifile = (ofile, r) →
  ofile `prefix_of` filter (tracked_line json_loads e) ifile ∧
  ∀ n, r = Ok n →
       ofile = filter (tracked_line json_loads e) ifile ∧ n = length ofile.
Proof.
  unfold Data.filter_by_event. intros H.
  destruct (filter_lines_written e ifile) as [Hpre Hok].
  rewrite H in Hpre, Hok. simpl in *. split; [done|].
  intros n Hn. destruct (Hok n Hn) as [-> ->]. done.
Qed.

Lemma filter_lines_kept e lines :
  Forall (λ line, Data.keep_line json_loads e line = Ok true) lines →
  Data.filter_lines json_loads e lines [] 0 = (lines, Ok (length lines)).
Proof.
  induction 1 as [|line lines Hk _ IH]; simpl; [done|].
  rewrite Hk, filter_lines_state, IH. done.
Qed.

Lemma filter_lines_keeps e ifile n :
  (Data.filter_lines json_loads e ifile [] 0).2 = Ok n →
  Forall (λ line, Data.keep_line json_loads e line = Ok true)
         (Data.filter_lines json_loads e ifile [] 0).1.
Proof.
  revert n. induction ifile as [|line ifile IH]; intros n; simpl;
    [by constructor|].
  destruct (Data.keep_line json_loads e line) as [[|]|] eqn:Hk; simpl;
    [|by apply IH|done].
  rewrite filter_lines_state. simpl.
  destruct (Data.filter_lines json_loads e ifile [] 0).2 as [k|] eqn:Hr;
    [|done].
  intros _. constructor; [done|]. by eapply IH.
Qed.

(** Filtering twice is filtering once: the output file of a run without
    a raise is left as it is by [filter_by_event] for the same event. *)
Theorem filter_by_event_again e ifile ofile n :
  Data.filter_by_event json_loads e ifile = (ofile, Ok n) →
  Data.filter_by_event json_loads e ofile = (ofile, Ok n).
Proof.
  unfold Data.filter_by_event. intros H.
  pose proof (filter_lines_keeps e ifile n) as Hkeeps.
  destruct (filter_lines_written e ifile) as [_ Hok].
  rewrite H in Hkeeps, Hok. simpl in *.
  rewrite (filter_lines_kept e ofile) by auto.
  destruct (Hok n eq_refl) as [<- ->]. done.
Qed.

Lemma Forall2_filter_bool {A B} (R : A → B → Prop) (P : A → bool)
    (Q : B → bool) (l : list A) (k : list B) :
  Forall2 (λ x y, R x y ∧ P x = Q y) l k →
  Forall2 R (filter P l) (filter Q k).
Proof.
  induction 1 as [|x y l k [HR HPQ] _ IH]; [constructor|].
  rewrite !filter_cons, HPQ. destruct (Q y); simpl; [by constructor|done].
Qed.

Lemma Forall_filter_bool {A} (R : A → Prop) (P : A → bool) (l : list A) :
  Forall R l → Forall R (filter P l).
Proof.
  rewrite !Forall_forall. intros H x [_ Hx]%list_elem_of_filter. by apply H.
Qed.

(** What [_read_file] has checked on every line when it returns. *)
Lemma read_file_lines lines paths summary zmatches :
  Competitions._read_file json_loads lines = Ok (paths, summary, zmatches) →
  Forall2 (λ line p, json_loads line = Ok p) lines paths ∧
  Forall (λ p, (∃ ev, getitem p "event" = Ok (JStr ev)) ∧
               (∃ mk, getitem p "match" = Ok mk) ∧
               (∃ z, getitem p "zebra" = Ok z)) paths ∧
  Competitions.read_matches json_loads paths = Ok zmatches.
Proof.
  unfold Competitions._read_file. intros H.
  bind_inv H ps Hps. bind_inv H evs Hevs. bind_inv H ms Hms.
  bind_inv H zs Hzs. bind_inv H zms Hzms. injection H as <- <- <-.
  split; [by apply mapM_Ok_Forall2|]. split; [|done].
  apply mapM_Ok_Forall2 in Hevs, Hms, Hzs. clear Hps Hzms.
  revert ms zs Hms Hzs.
  induction Hevs as [|p ev ps evs Hev _ IH]; intros ms zs Hms Hzs;
    [constructor|].
  inversion Hms as [|? mk ? ms' Hmk Hms']; subst.
  inversion Hzs as [|? zf ? zs' Hzf Hzs']; subst.
  constructor; [|by eapply IH].
  split; [|split; [by eexists|]].
  - destruct (getitem p "event") as [[]|]; try done. by eexists.
  - destruct (getitem p "zebra"); [by eexists|done].
Qed.

Lemma keep_line_decoded e line p :
  json_loads line = Ok p →
  (∃ ev, getitem p "event" = Ok (JStr ev)) →
  (∃ z, getitem p "zebra" = Ok z) →
  Data.keep_line json_loads e line = Ok (line_event p e && has_zebra p).
Proof.
  intros Hp [ev Hev] [z Hz].
  unfold Data.keep_line, line_event, has_zebra.
  rewrite Hp. cbn [mbind pyres_bind]. rewrite Hev. cbn [mbind pyres_bind].
  simpl. destruct (bool_decide (ev = e)); [|done]. by rewrite Hz.
Qed.

Lemma filter_lines_total e lines :
  Forall (λ line, ∃ b, Data.keep_line json_loads e line = Ok b) lines →
  Data.filter_lines json_loads e lines [] 0
  = (filter (tracked_line json_loads e) lines,
     Ok (length (filter (tracked_line json_loads e) lines))).
Proof.
  induction 1 as [|line lines [b Hb] _ IH]; simpl; [done|].
  rewrite Hb, filter_cons, (keep_line_tracked _ _ _ Hb).
  destruct b; simpl; [|done]. by rewrite filter_lines_state, IH.
Qed.

Lemma filter_bool_cons {A} (P : A → bool) a (l : list A) :
  filter P (a :: l) = if P a then a :: filter P l else filter P l.
Proof. rewrite filter_cons. by destruct (P a). Qed.

(** The records of the lines of one event are the records of this event. *)
Lemma read_matches_filter e paths zms :
  Competitions.read_matches json_loads paths = Ok zms →
  Competitions.read_matches json_loads
    (filter (λ p, line_event p e && has_zebra p) paths)
  = Ok (filter (λ zm, Match.event zm = e) zms).
Proof.
  revert zms. induction paths as [|p paths IH]; intros zms H; simpl in H.
  { by injection H as <-. }
  bind_inv H z Hz.
  assert (has_zebra p = negb (is_null z)) as Hhas
    by (unfold has_zebra; by rewrite Hz).
  rewrite (filter_bool_cons (λ p, line_event p e && has_zebra p)), Hhas.
  destruct (is_null z) eqn:Hnull; simpl.
  { rewrite andb_false_r. by apply IH. }
  bind_inv H zm Hzm. bind_inv H zms' Hzms. injection H as <-.
  assert (getitem p "event" = Ok (JStr (Match.event zm))) as Hev.
  { destruct (getitem_Ok_obj _ _ _ Hz) as [kvs ->].
    by apply (init_line_keys json_loads). }
  rewrite (line_event_key _ _ e Hev), andb_true_r, filter_cons.
  destruct (decide (Match.event zm = e)) as [Heq|Hne].
  - rewrite bool_decide_eq_true_2 by done. simpl.
    rewrite Hz. cbn [mbind pyres_bind]. rewrite Hnull, Hzm.
    cbn [mbind pyres_bind]. by rewrite (IH zms').
  - rewrite bool_decide_eq_false_2 by done. by apply IH.
Qed.

(** Filtering the file for an event and loading the output gives the
    records of this event of the index of the whole file: when the file
    is loaded, [filter_by_event] does not raise, the count it prints is
    the number of matches of the event, and its output file is loaded to
    an index whose records are the records of the event, in order. *)
Theorem filter_then_load e lines c :
  Competitions.__init__ json_loads lines = Ok c →
  ∃ ofile c',
    Data.filter_by_event json_loads e lines
    = (ofile, Ok (length (Competitions.matches c e))) ∧
    Competitions.__init__ json_loads ofile = Ok c' ∧
    Competitions.zmatches c'
    = filter (λ zm, Match.event zm = e) (Competitions.zmatches c) ∧
    Competitions.matches c' e = Competitions.matches c e.
Proof.
  intros Hc.
  destruct (Competitions_init_fields _ _ _ Hc) as (ps & s & zms & Hread & ->).
  apply read_file_lines in Hread as (Hdec & Hkeys & Hzms).
  assert (Forall2 (λ line p, json_loads line = Ok p ∧
                    tracked_line json_loads e line
                    = line_event p e && has_zebra p) lines ps) as Hdec'.
  { eapply Forall2_impl; [done|]. intros line p Hp. split; [done|].
    unfold tracked_line. by rewrite Hp. }
  apply Forall2_filter_bool in Hdec'.
  pose (P := λ p : json, line_event p e && has_zebra p).
  assert (mapM json_loads (filter (tracked_line json_loads e) lines)
          = Ok (filter P ps)) as Hload by apply mapM_Forall2, Hdec'.
  assert (Competitions.read_matches json_loads (filter P ps)
          = Ok (filter (λ zm, Match.event zm = e) zms)) as Hrecords
    by apply read_matches_filter, Hzms.
  pose proof (Forall_filter_bool _ P _ Hkeys) as Hkeys'.
  destruct (mapM_Forall_Ok (λ p, getitem p "event" ≫= as_str)
              (filter P ps)) as [evs Hevs].
  { eapply Forall_impl; [done|]. intros p ([ev Hev] & _). rewrite Hev.
    by eexists. }
  destruct (mapM_Forall_Ok (λ p, getitem p "match") (filter P ps))
    as [ms Hms].
  { eapply Forall_impl; [done|]. by intros p (_ & Hm & _). }
  destruct (mapM_Forall_Ok
              (λ p, z ← getitem p "zebra"; Ok (if is_null z then 0 else 1))
              (filter P ps)) as [zs Hzs].
  { eapply Forall_impl; [done|]. intros p (_ & _ & [z Hz]). rewrite Hz.
    by eexists. }
  exists (filter (tracked_line json_loads e) lines).
  eexists. split; [|split; [|split]].
  - unfold Data.filter_by_event. rewrite filter_lines_total.
    + do 2 f_equal. apply Forall2_length in Hdec'. rewrite Hdec'.
      unfold Competitions.matches. rewrite length_fmap.
      symmetry. by apply (records_of_event json_loads), read_matches_inv.
    + rewrite Forall_forall in Hkeys. apply Forall_forall. intros line Hline.
      apply list_elem_of_lookup in Hline as [i Hi].
      destruct (Forall2_lookup_l _ _ _ _ _ Hdec Hi) as (p & Hp & Hlp).
      apply list_elem_of_lookup_2 in Hp.
      destruct (Hkeys p Hp) as (Hev & _ & Hz).
      eexists. by apply keep_line_decoded.
  - unfold Competitions.__init__, Competitions._read_file.
    rewrite Hload. cbn [mbind pyres_bind].
    rewrite Hevs. cbn [mbind pyres_bind].
    rewrite Hms. cbn [mbind pyres_bind].
    rewrite Hzs. cbn [mbind pyres_bind].
    rewrite Hrecords. reflexivity.
  - reflexivity.
  - unfold Competitions.matches. cbn [Competitions.zmatches].
    f_equal. rewrite list_filter_filter. apply list_filter_iff. tauto.
Qed.

End filter_event.

(** ** [download_match] *)

Section download.
Variable api : Data.tba.

Lemma row_of_data ev mk z sc :
  Data.fetch api mk = Some (z, sc) →
  row_of api ev mk = match_data ev mk z sc ∧ failed api mk = false.
Proof. intros H. unfold row_of, failed. by rewrite H. Qed.

Lemma row_of_failed ev mk :
  Data.fetch api mk = None →
  row_of api ev mk = match_data ev mk JNull JNull ∧ failed api mk = true.
Proof. intros H. unfold row_of, failed. by rewrite H. Qed.

Lemma match_rows_with_data max ev mks n :
  Data.match_rows api max ev mks n true = row_of api ev <$> mks.
Proof.
  revert n. induction mks as [|mk mks IH]; intros n; [done|].
  cbn [Data.match_rows]. rewrite fmap_cons.
  destruct (Data.fetch api mk) as [[z sc]|] eqn:Hf.
  - destruct (row_of_data ev mk z sc Hf) as [-> _]. by rewrite IH.
  - destruct (row_of_failed ev mk Hf) as [-> _].
    by rewrite andb_false_r, IH.
Qed.

Lemma match_rows_from max ev mks n :
  Data.match_rows api max ev mks n false
  = row_of api ev <$>
    (if forallb (failed api) (take (S (Z.to_nat (max - n))) mks)
     then take (S (Z.to_nat (max - n))) mks else mks).
Proof.
  revert n. induction mks as [|mk mks IH]; intros n; [done|].
  cbn [Data.match_rows take forallb].
  destruct (Data.fetch api mk) as [[z sc]|] eqn:Hf.
  { destruct (row_of_data ev mk z sc Hf) as [Hrow ->]. cbn [andb].
    by rewrite fmap_cons, Hrow, match_rows_with_data. }
  destruct (row_of_failed ev mk Hf) as [Hrow ->]. cbn [andb negb].
  rewrite andb_true_r. destruct (Z.ltb_spec max (n + 1)) as [Hlt|Hge].
  - replace (Z.to_nat (max - n)) with 0 by lia. rewrite take_0.
    cbn [forallb]. by rewrite fmap_cons, Hrow.
  - rewrite IH.
    replace (Z.to_nat (max - n)) with (S (Z.to_nat (max - (n + 1)))) by lia.
    destruct (forallb (failed api)
                (take (S (Z.to_nat (max - (n + 1)))) mks));
      by rewrite fmap_cons, Hrow.
Qed.

(** The rows written for an event are the rows of all its matches, in
    order, unless the requests fail for each of its first matches, as
    many as are tried: then the rows of these first matches only are
    written, all of them without data. *)
Theorem match_rows_given_up max ev mks :
  Data.match_rows api max ev mks 0 false
  = row_of api ev <$>
    (if forallb (failed api) (take (tries max) mks)
     then take (tries max) mks else mks).
Proof. rewrite match_rows_from. unfold tries. by rewrite Z.sub_0_r. Qed.

Lemma match_rows_of max ev mks :
  Forall (λ row, ∃ mk, mk ∈ mks ∧ row = row_of api ev mk)
         (Data.match_rows api max ev mks 0 false).
Proof.
  rewrite match_rows_from. apply Forall_fmap, Forall_forall.
  intros mk Hmk. exists mk. split; [|done].
  destruct (forallb _ _); [|done].
  apply elem_of_take in Hmk as (i & Hi & _). by eapply list_elem_of_lookup_2.
Qed.

Lemma event_rows_of max evs rows o :
  Data.event_rows api max evs = (rows, o) →
  (o = Data.HTTPError ↔ ∃ ev, ev ∈ evs ∧ Data.get_match_keys api ev = None) ∧
  Forall (λ row, ∃ ev mks mk,
            ev ∈ evs ∧ Data.get_match_keys api ev = Some mks ∧
            mk ∈ mks ∧ row = row_of api ev mk) rows.
Proof.
  revert rows o. induction evs as [|ev evs IH]; intros rows o; simpl.
  { intros [= <- <-]. split; [|done]. split; [done|].
    by intros (ev & Hev%elem_of_nil & _). }
  destruct (Data.get_match_keys api ev) as [mks|] eqn:Hmks.
  - destruct (Data.event_rows api max evs) as [rows' o'].
    intros [= <- <-]. destruct (IH rows' o' eq_refl) as [Ho Hrows]. split.
    + rewrite Ho. split.
      * intros (ev' & Hev' & Hnone). exists ev'. split; [by right|done].
      * intros (ev' & Hev' & Hnone). exists ev'. split; [|done].
        apply elem_of_cons in Hev' as [->|]; [congruence|done].
    + apply Forall_app. split.
      * eapply Forall_impl; [apply match_rows_of|]. simpl.
        intros row (mk & Hmk & ->). exists ev, mks, mk.
        split; [by left|done].
      * eapply Forall_impl; [exact Hrows|]. simpl.
        intros row (ev' & mks' & mk & Hev' & Hrest). exists ev', mks', mk.
        split; [by right|done].
  - intros [= <- <-]. split; [|done]. split; [|done].
    intros _. exists ev. split; [by left|done].
Qed.

(** Each dictionary that [download_match] writes is that of a match of
    an event of the key, and the download ends with an error exactly when
    the request for the events or the request for the matches of one of
    the events fails. *)
Theorem download_match_rows key max rows o :
  Data.download_match api key max = (rows, o) →
  (o = Data.HTTPError ↔
   Data.get_events api key = None ∨
   ∃ evs ev, Data.get_events api key = Some evs ∧ ev ∈ evs ∧
             Data.get_match_keys api ev = None) ∧
  Forall (λ row, ∃ evs ev mks mk,
            Data.get_events api key = Some evs ∧ ev ∈ evs ∧
            Data.get_match_keys api ev = Some mks ∧ mk ∈ mks ∧
            row = row_of api ev mk) rows.
Proof.
  unfold Data.download_match.
  destruct (Data.get_events api key) as [evs|].
  - intros [Ho Hrows]%event_rows_of. split.
    + rewrite Ho. split.
      * intros (ev & Hev & Hnone). right. by exists evs, ev.
      * intros [|(evs' & ev & [= <-] & Hev & Hnone)]; [done|]. by exists ev.
    + eapply Forall_impl; [exact Hrows|]. simpl.
      intros row (ev & mks & mk & H). by exists evs, ev, mks, mk.
  - intros [= <- <-]. split; [|done]. split; [by left|done].
Qed.

End download.

(** ** The viewer *)

From Stdlib Require Import Sorting.Sorted.

Lemma Sorted_impl {A} (R R' : A → A → Prop) l :
  (∀ a b, R a b → R' a b) → Sorted R l → Sorted R' l.
Proof.
  intros HR. induction 1 as [|a l _ IH Ha]; constructor; [done|].
  destruct Ha; constructor; auto.
Qed.

Section sorting.
Context {K A : Type} (le : K → K → bool).
Hypothesis le_total : ∀ x y, le x y = true ∨ le y x = true.

Lemma insert_sorted_perm (x : K * A) l :
  Viewer.insert_sorted le x l ≡ₚ x :: l.
Proof.
  induction l as [|y l IH]; simpl; [done|].
  destruct (le x.1 y.1); [done|]. by rewrite IH, Permutation_swap.
Qed.

Lemma sort_keyed_perm (l : list (K * A)) : Viewer.sort_keyed le l ≡ₚ l.
Proof.
  induction l as [|x l IH]; simpl; [done|].
  by rewrite insert_sorted_perm, IH.
Qed.

Lemma insert_sorted_HdRel (x y : K * A) l :
  le y.1 x.1 = true → HdRel (λ a b, le a.1 b.1 = true) y l →
  HdRel (λ a b, le a.1 b.1 = true) y (Viewer.insert_sorted le x l).
Proof.
  intros Hyx Hy. destruct l as [|z l]; simpl; [by constructor|].
  destruct (le x.1 z.1); constructor; [done|]. by inversion Hy.
Qed.

Lemma insert_sorted_Sorted (x : K * A) l :
  Sorted (λ a b, le a.1 b.1 = true) l →
  Sorted (λ a b, le a.1 b.1 = true) (Viewer.insert_sorted le x l).
Proof.
  induction 1 as [|y l Hl IH Hy]; simpl; [by repeat constructor|].
  destruct (le x.1 y.1) eqn:Hxy.
  - constructor; [by constructor|by constructor].
  - constructor; [done|]. apply insert_sorted_HdRel; [|done].
    destruct (le_total x.1 y.1); [congruence|done].
Qed.

Lemma sort_keyed_Sorted (l : list (K * A)) :
  Sorted (λ a b, le a.1 b.1 = true) (Viewer.sort_keyed le l).
Proof.
  induction l as [|x l IH]; simpl; [constructor|].
  by apply insert_sorted_Sorted.
Qed.

(** The result of [sorted] is a rearrangement of the list in the order of
    the keys. *)
Lemma sorted_spec (key : A → pyres K) (l l' : list A) :
  Viewer.sorted le key l = Ok l' →
  l' ≡ₚ l ∧
  Sorted (λ a b, ∃ ka kb, key a = Ok ka ∧ key b = Ok kb ∧ le ka kb = true) l'.
Proof.
  unfold Viewer.sorted. intros H. bind_inv H keys Hkeys. injection H as <-.
  pose proof (mapM_length _ _ _ Hkeys) as Hlen.
  apply mapM_Ok_Forall2 in Hkeys. split.
  - rewrite sort_keyed_perm. by rewrite snd_zip by lia.
  - assert (Forall (λ p, key p.2 = Ok p.1) (Viewer.sort_keyed le (zip keys l)))
      as Hall.
    { rewrite sort_keyed_perm. clear Hlen.
      induction Hkeys as [|a k l keys Hk _ IH]; simpl; by constructor. }
    pose proof (sort_keyed_Sorted (zip keys l)) as Hs.
    induction Hs as [|p ps Hps IH Hp]; simpl; [constructor|].
    apply Forall_cons in Hall as [Hp1 Hall].
    constructor; [by apply IH|].
    destruct Hp as [|q ps Hpq]; simpl; constructor.
    apply Forall_cons in Hall as [Hq _]. eauto.
Qed.

End sorting.

Lemma mapM_Raise_elem {A B} (f : A → pyres B) (l : list A) e :
  mapM f l = Raise e → ∃ x, x ∈ l ∧ f x = Raise e.
Proof.
  induction l as [|a l IH]; simpl; [done|].
  destruct (f a) as [b|e'] eqn:Ha; cbn [mbind pyres_bind].
  - destruct (mapM f l) as [k|e'']; cbn [mbind pyres_bind]; [done|].
    intros [= ->]. destruct IH as (x & Hx & Hfx); [done|].
    exists x. split; [by right|done].
  - intros [= ->]. exists a. split; [by left|done].
Qed.

Lemma py_slice_nonneg {A} (l : list A) (s e : Z) :
  (0 ≤ s)%Z → (0 ≤ e)%Z →
  Viewer.py_slice l s e
  = take (Z.to_nat (Z.min e (Z.of_nat (length l))) - Z.to_nat s)
         (drop (Z.to_nat s) l).
Proof.
  intros Hs He. unfold Viewer.py_slice, Viewer.slice_index.
  destruct (Z.ltb_spec s 0); [lia|]. destruct (Z.ltb_spec e 0); [lia|].
  destruct (Z.le_gt_cases s (Z.of_nat (length l))).
  - rewrite (Z.min_l s) by done. f_equal. lia.
  - rewrite (Z.min_r s) by lia.
    rewrite !drop_ge by lia. by rewrite !take_nil.
Qed.

Lemma py_slice_last {A} (l : list A) (s e : Z) :
  (0 ≤ s)%Z → (0 ≤ e)%Z →
  let hi := Z.min e (Z.of_nat (length l)) in
  if decide (s < hi)%Z
  then ∃ x, l !! (Z.to_nat hi - 1) = Some x ∧
            list_getitem (Viewer.py_slice l s e) (-1) = Ok x
  else Viewer.py_slice l s e = [] ∧
       list_getitem (Viewer.py_slice l s e) (-1) = Raise IndexError.
Proof.
  intros Hs He hi. rewrite py_slice_nonneg by done. fold hi.
  destruct (decide (s < hi)%Z) as [Hlt|Hge].
  - set (sl := take (Z.to_nat hi - Z.to_nat s) (drop (Z.to_nat s) l)).
    assert (length sl = Z.to_nat hi - Z.to_nat s) as Hlen.
    { unfold sl. rewrite length_take, length_drop. lia. }
    destruct (list_getitem_negative sl (-1)) as (x & Hx & Hget); [lia|].
    exists x. split; [|done]. unfold sl in Hx.
    rewrite lookup_take_lt in Hx by (fold sl; lia).
    rewrite lookup_drop in Hx. rewrite <- Hx. f_equal. fold sl. lia.
  - assert (Z.to_nat hi - Z.to_nat s = 0) as -> by lia.
    rewrite take_0. split; [done|]. by apply list_getitem_outside; simpl; lia.
Qed.

Section viewer.
Variable json_loads : string → pyres json.

(** [get_level_matches] returns the keys of the event that the pattern of
    the level matches, each with what follows the level, rearranged in
    the order of the numbers after [qm] for the qualification level and
    in the order of the strings for the other levels. *)
Theorem get_level_matches_sorted data event lvl l :
  Viewer.get_level_matches data event lvl = Ok l →
  l ≡ₚ omap (Viewer.search lvl) (Competitions.matches data event) ∧
  (∀ a, a ∈ l → a.1 ∈ Competitions.matches data event ∧
                Viewer.search lvl a.1 = Some a) ∧
  match lvl with
  | Viewer.qm =>
      Sorted (λ a b, ∃ x y, Viewer.py_int a.2 = Ok x ∧
                            Viewer.py_int b.2 = Ok y ∧ (x ≤ y)%Z) l
  | _ => Sorted (λ a b, String.leb a.2 b.2 = true) l
  end.
Proof.
  intros H.
  assert (l ≡ₚ omap (Viewer.search lvl) (Competitions.matches data event) ∧
          match lvl with
          | Viewer.qm =>
              Sorted (λ a b, ∃ x y, Viewer.py_int a.2 = Ok x ∧
                                    Viewer.py_int b.2 = Ok y ∧ (x ≤ y)%Z) l
          | _ => Sorted (λ a b, String.leb a.2 b.2 = true) l
          end) as [Hperm Hsorted].
  { unfold Viewer.get_level_matches in H. destruct lvl.
    - apply sorted_spec in H as [Hperm Hs]; [|intros x y; lia].
      split; [done|]. eapply Sorted_impl; [|done].
      intros a b (x & y & Hx & Hy & Hle). exists x, y.
      split; [done|]. split; [done|]. by apply Z.leb_le.
    - apply sorted_spec in H as [Hperm Hs]; [|apply String.leb_total].
      split; [done|]. eapply Sorted_impl; [|done].
      by intros a b (x & y & [= <-] & [= <-] & Hle).
    - apply sorted_spec in H as [Hperm Hs]; [|apply String.leb_total].
      split; [done|]. eapply Sorted_impl; [|done].
      by intros a b (x & y & [= <-] & [= <-] & Hle).
    - apply sorted_spec in H as [Hperm Hs]; [|apply String.leb_total].
      split; [done|]. eapply Sorted_impl; [|done].
      by intros a b (x & y & [= <-] & [= <-] & Hle). }
  split; [done|]. split; [|done].
  intros a Ha. rewrite Hperm in Ha.
  apply list_elem_of_omap in Ha as (k & Hk & Hsearch).
  assert (a.1 = k) as ->; [|done].
  unfold Viewer.search in Hsearch.
  destruct (Viewer.split_underscore k) as [[p rest]|]; [|done].
  simpl in Hsearch. repeat case_match; by simplify_eq/=.
Qed.

Lemma station_source_Ok mv m teams (st et : Z) idx src :
  (0 ≤ st)%Z → (0 ≤ et)%Z →
  Viewer.station_source mv m teams (st * 10) (et * 10) idx = Ok src →
  ∃ xrow yrow r,
    Match.paths m !! (2 * idx) = Some xrow ∧
    Match.paths m !! (2 * idx + 1) = Some yrow ∧
    Viewer.STATION_NAMES !! idx = Some (Viewer.ds_position src) ∧
    teams !! idx = Some (Viewer.ds_team src) ∧
    Viewer.ds_match src = mv ∧
    (st * 10 < Z.min (et * 10) (Z.of_nat (length xrow)))%Z ∧
    (st * 10 < Z.min (et * 10) (Z.of_nat (length yrow)))%Z ∧
    Viewer.ds_xs src
    = take (Z.to_nat (Z.min (et * 10) (Z.of_nat (length xrow)))
            - Z.to_nat (st * 10)) (drop (Z.to_nat (st * 10)) xrow) ∧
    Viewer.ds_ys src
    = take (Z.to_nat (Z.min (et * 10) (Z.of_nat (length yrow)))
            - Z.to_nat (st * 10)) (drop (Z.to_nat (st * 10)) yrow) ∧
    xrow !! (Z.to_nat (Z.min (et * 10) (Z.of_nat (length xrow))) - 1)
    = Some (Viewer.ds_x src) ∧
    yrow !! (Z.to_nat (Z.min (et * 10) (Z.of_nat (length yrow))) - 1)
    = Some (Viewer.ds_y src) ∧
    Match.paths m !! 0 = Some r ∧ Viewer.ds_path_len src = length r.
Proof.
  intros Hst Het H. unfold Viewer.station_source in H.
  bind_inv H position Hposition. bind_inv H tm Htm.
  bind_inv H xrow Hxrow. bind_inv H yrow Hyrow.
  bind_inv H x Hx. bind_inv H y Hy. bind_inv H path_len Hlen.
  injection H as <-. simpl.
  unfold index in Hposition, Htm, Hxrow, Hyrow.
  destruct (Viewer.STATION_NAMES !! idx) eqn:E1; [|done].
  destruct (teams !! idx) eqn:E2; [|done].
  destruct (Match.paths m !! (2 * idx)) eqn:E3; [|done].
  destruct (Match.paths m !! (2 * idx + 1)) eqn:E4; [|done].
  simplify_eq.
  unfold Viewer.shape1 in Hlen.
  destruct (Match.paths m) as [|r rows] eqn:E5; [done|]. injection Hlen as <-.
  exists xrow, yrow, r.
  pose proof (py_slice_last xrow (st * 10) (et * 10)) as Hxl.
  pose proof (py_slice_last yrow (st * 10) (et * 10)) as Hyl.
  cbv zeta in Hxl, Hyl.
  destruct (decide (st * 10 < Z.min (et * 10) (Z.of_nat (length xrow)))%Z);
    [|destruct Hxl as [_ Hxl]; [lia..|by rewrite Hxl in Hx]].
  destruct (decide (st * 10 < Z.min (et * 10) (Z.of_nat (length yrow)))%Z);
    [|destruct Hyl as [_ Hyl]; [lia..|by rewrite Hyl in Hy]].
  destruct Hxl as (x' & Hx' & Hgx); [lia..|].
  destruct Hyl as (y' & Hy' & Hgy); [lia..|].
  rewrite Hgx in Hx. rewrite Hgy in Hy. simplify_eq.
  rewrite !py_slice_nonneg by lia. done.
Qed.

Lemma station_source_Raise mv m teams (st et : Z) idx e :
  Viewer.station_source mv m teams st et idx = Raise e → e = IndexError.
Proof.
  assert (∀ A (l : list A) i e', index l i = Raise e' → e' = IndexError)
    as Hindex.
  { intros A l i e'. unfold index. case_match; congruence. }
  assert (∀ A (l : list A) i e', list_getitem l i = Raise e' → e' = IndexError)
    as Hgetitem.
  { intros A l i e'. unfold list_getitem. case_match; [apply Hindex|congruence]. }
  unfold Viewer.station_source. intros H.
  repeat lazymatch type of H with
  | mbind _ ?m = Raise _ =>
      let E := fresh "E" in
      destruct m eqn:E; cbn [mbind pyres_bind] in H;
      [|injection H as <-; first [by eapply Hindex|by eapply Hgetitem|idtac]]
  end; [done|].
  unfold Viewer.shape1 in *. case_match; congruence.
Qed.

Lemma station_source_returns mv m teams (st et : Z) idx :
  (0 ≤ st)%Z → (0 ≤ et)%Z →
  idx < 6 → idx < length teams → 2 * idx + 1 < length (Match.paths m) →
  Forall (λ row, (st * 10 < Z.min (et * 10) (Z.of_nat (length row)))%Z)
         (Match.paths m) →
  ∃ src, Viewer.station_source mv m teams (st * 10) (et * 10) idx = Ok src.
Proof.
  intros Hst Het Hidx Hteams Hpaths Hrows. unfold Viewer.station_source.
  destruct (lookup_lt_is_Some_2 Viewer.STATION_NAMES idx) as [position Hp];
    [simpl; lia|].
  destruct (lookup_lt_is_Some_2 teams idx) as [tm Htm]; [done|].
  destruct (lookup_lt_is_Some_2 (Match.paths m) (2 * idx)) as [xrow Hx]; [lia|].
  destruct (lookup_lt_is_Some_2 (Match.paths m) (2 * idx + 1)) as [yrow Hy];
    [lia|].
  rewrite (index_lookup _ _ _ Hp). cbn [mbind pyres_bind].
  rewrite (index_lookup _ _ _ Htm). cbn [mbind pyres_bind].
  rewrite (index_lookup _ _ _ Hx). cbn [mbind pyres_bind].
  rewrite (index_lookup _ _ _ Hy). cbn [mbind pyres_bind].
  pose proof (py_slice_last xrow (st * 10) (et * 10)) as Hxl.
  pose proof (py_slice_last yrow (st * 10) (et * 10)) as Hyl.
  cbv zeta in Hxl, Hyl.
  pose proof (Forall_lookup_1 _ _ _ _ Hrows Hx) as Hxw.
  pose proof (Forall_lookup_1 _ _ _ _ Hrows Hy) as Hyw. simpl in Hxw, Hyw.
  rewrite decide_True in Hxl by done. rewrite decide_True in Hyl by done.
  destruct Hxl as (x & _ & ->); [lia..|].
  destruct Hyl as (y & _ & ->); [lia..|]. cbn [mbind pyres_bind].
  destruct (Match.paths m) as [|r rows]; [simpl in Hpaths; lia|].
  cbn [Viewer.shape1 mbind pyres_bind]. eauto.
Qed.

Lemma update_datasources_stations data mv (st et : Z) srcs :
  Viewer.update_datasources data mv st et = Ok srcs →
  ∃ m, Competitions.__getitem__ data (Competitions.KStr mv) = Ok m ∧
    length srcs = 6 ∧
    ∀ idx src, srcs !! idx = Some src →
      Viewer.station_source mv m (Match.blue m ++ Match.red m)
        (st * 10) (et * 10) idx = Ok src.
Proof.
  intros H. unfold Viewer.update_datasources in H.
  bind_inv H m Hm. exists m. split; [done|].
  pose proof (mapM_length _ _ _ H) as Hlen. split; [done|].
  intros idx src Hsrc. apply mapM_Ok_Forall2 in H.
  destruct (Forall2_lookup_r _ _ _ _ _ H Hsrc) as (i & Hi & Hsource).
  by apply lookup_seq in Hi as [-> _].
Qed.

(** For times that are not negative, [update_datasources] assigns to the
    six entries, in the order of the stations, the name of the station,
    the team at this position of the blue teams followed by the red teams,
    the samples of its two rows from ten times the start time to ten times
    the end time or to the end of the row, and as the position the last
    sample of this window, which holds at least one sample. *)
Theorem update_datasources_window data mv (st et : Z) srcs :
  (0 ≤ st)%Z → (0 ≤ et)%Z →
  Viewer.update_datasources data mv st et = Ok srcs →
  ∃ m, Competitions.__getitem__ data (Competitions.KStr mv) = Ok m ∧
    length srcs = 6 ∧
    ∀ idx src, srcs !! idx = Some src →
      ∃ xrow yrow r,
        Match.paths m !! (2 * idx) = Some xrow ∧
        Match.paths m !! (2 * idx + 1) = Some yrow ∧
        Viewer.STATION_NAMES !! idx = Some (Viewer.ds_position src) ∧
        (Match.blue m ++ Match.red m) !! idx = Some (Viewer.ds_team src) ∧
        Viewer.ds_match src = mv ∧
        (st * 10 < Z.min (et * 10) (Z.of_nat (length xrow)))%Z ∧
        (st * 10 < Z.min (et * 10) (Z.of_nat (length yrow)))%Z ∧
        Viewer.ds_xs src
        = take (Z.to_nat (Z.min (et * 10) (Z.of_nat (length xrow)))
                - Z.to_nat (st * 10)) (drop (Z.to_nat (st * 10)) xrow) ∧
        Viewer.ds_ys src
        = take (Z.to_nat (Z.min (et * 10) (Z.of_nat (length yrow)))
                - Z.to_nat (st * 10)) (drop (Z.to_nat (st * 10)) yrow) ∧
        xrow !! (Z.to_nat (Z.min (et * 10) (Z.of_nat (length xrow))) - 1)
        = Some (Viewer.ds_x src) ∧
        yrow !! (Z.to_nat (Z.min (et * 10) (Z.of_nat (length yrow))) - 1)
        = Some (Viewer.ds_y src) ∧
        Match.paths m !! 0 = Some r ∧ Viewer.ds_path_len src = length r.
Proof.
  intros Hst Het H.
  apply update_datasources_stations in H as (m & Hm & Hlen & Hsrcs).
  exists m. split; [done|]. split; [done|].
  intros idx src Hsrc. by apply station_source_Ok, Hsrcs.
Qed.

Lemma getitem_str_elem (c : Competitions.t) k m :
  Competitions.__getitem__ c (Competitions.KStr k) = Ok m →
  m ∈ Competitions.zmatches c.
Proof.
  simpl. destruct (Competitions.mindex c !! k) as [i|]; [|done].
  unfold index. destruct (Competitions.zmatches c !! i) as [r|] eqn:Hr; [|done].
  intros [= <-]. by eapply list_elem_of_lookup_2.
Qed.

(** On an index built from a file, [update_datasources] with times that
    are not negative returns exactly for a match of six teams whose paths
    are longer than ten times the start time, with an end time after the
    start time; for any other match it raises [IndexError]. *)
Theorem update_datasources_outcome lines data mv (st et : Z) m :
  Competitions.__init__ json_loads lines = Ok data →
  (0 ≤ st)%Z → (0 ≤ et)%Z →
  Competitions.__getitem__ data (Competitions.KStr mv) = Ok m →
  match Viewer.update_datasources data mv st et with
  | Ok srcs =>
      length (Match.blue m ++ Match.red m) = 6 ∧
      Forall (λ row, (st * 10 < Z.min (et * 10) (Z.of_nat (length row)))%Z)
             (Match.paths m)
  | Raise e =>
      e = IndexError ∧
      (length (Match.blue m ++ Match.red m) < 6 ∨
       Forall (λ row, (Z.min (et * 10) (Z.of_nat (length row)) ≤ st * 10)%Z)
              (Match.paths m))
  end.
Proof.
  intros Hc Hst Het Hm.
  pose proof (getitem_str_elem _ _ _ Hm) as Hin.
  pose proof (built_records json_loads _ _ Hc) as Hrecs.
  apply list_elem_of_lookup in Hin as [i Hi].
  destruct (Forall2_lookup_l _ _ _ _ _ Hrecs Hi) as (p & _ & Hp & _).
  destruct (init_inv json_loads _ _ Hp) as ((n & Hrows) & Hlen & Hteams).
  destruct (scan_teams_inv _ _ _ _ _ Hteams) as (Hsix & _).
  assert (length (Match.blue m ++ Match.red m) ≤ 6) as Hle.
  { destruct (length (Match.blue m ++ Match.red m)) as [|k] eqn:E; [lia|].
    specialize (Hsix k). lia. }
  destruct (Viewer.update_datasources data mv st et) as [srcs|e] eqn:Hup.
  - apply update_datasources_stations in Hup as (m' & Hm' & Hn & Hsrcs).
    rewrite Hm in Hm'. injection Hm' as <-.
    destruct (lookup_lt_is_Some_2 srcs 5) as [src5 H5]; [lia|].
    apply Hsrcs, station_source_Ok in H5
      as (_ & _ & _ & _ & _ & _ & Ht5 & _); [|done..].
    apply lookup_lt_Some in Ht5. split; [lia|].
    destruct (lookup_lt_is_Some_2 srcs 0) as [src0 H0]; [lia|].
    apply Hsrcs, station_source_Ok in H0
      as (xrow & _ & _ & Hx0 & _ & _ & _ & _ & Hw & _); [|done..].
    assert (length xrow = n) as Hxn.
    { eapply (Forall_lookup_1 _ _ _ _ Hrows), Hx0. }
    eapply Forall_impl; [exact Hrows|]. simpl. intros row ->. by rewrite <- Hxn.
  - unfold Viewer.update_datasources in Hup. rewrite Hm in Hup.
    cbn [mbind pyres_bind] in Hup.
    apply mapM_Raise_elem in Hup as (idx & Hidx & Hup).
    split; [by eapply station_source_Raise|].
    apply list_elem_of_lookup in Hidx as [j Hj].
    apply lookup_seq in Hj as [-> Hj]. simpl in Hup.
    destruct (decide (length (Match.blue m ++ Match.red m) < 6)) as [|Hsix'];
      [by left|right].
    destruct (decide (st * 10 < Z.min (et * 10) (Z.of_nat n))%Z) as [Hw|Hw].
    + destruct (station_source_returns mv m (Match.blue m ++ Match.red m)
                  st et j) as [src Hsrc]; [done|done|done|lia|lia| |congruence].
      eapply Forall_impl; [exact Hrows|]. by intros row ->.
    + eapply Forall_impl; [exact Hrows|]. simpl. intros row ->. lia.
Qed.

End viewer.

(** ** Samples of the further properties *)

Section more_samples.
Import Sample Season.
Open Scope string_scope.

Lemma is_record_qm1 : is_record qm1 qm1_record.
Proof.
  repeat split; try reflexivity.
  eexists _, _, _, _. repeat split; try reflexivity; repeat constructor.
Qed.

Lemma is_record_seven : is_record seven seven_record.
Proof.
  repeat split; try reflexivity.
  eexists _, _, _, _. repeat split; try reflexivity; repeat constructor.
Qed.

Lemma scan_path_start_witness :
  ∃ st, Match._scan_path gap_xs gap_ys = Ok st ∧
        Match.st_start st = Some (5.0%Q, 1.0%Q, 2).
Proof.
  apply (scan_path_start gap_xs gap_ys 2 5.0%Q 1.0%Q); [reflexivity|].
  split; [split; reflexivity|].
  intros [|[|j]] Hj; [left; reflexivity..|lia].
Defined.

Lemma scan_path_outcome_witness :
  (is_raise (Match._scan_path [None; None] [None; Some 0.5%Q]) ↔
   (∀ i, (i < 2)%nat → missing_at [None; None] [None; Some 0.5%Q] i) ∧
   (∃ i v, [None; None] !! i = Some (Some v) ∨
           [None; Some 0.5%Q] !! i = Some (Some v))) ∧
  (∀ e, Match._scan_path [None; None] [None; Some 0.5%Q] = Raise e →
        e = UnboundLocalError).
Proof.
  apply (scan_path_outcome [None; None] [None; Some 0.5%Q]). reflexivity.
Defined.

Lemma scan_path_window_witness :
  (2 < 4 ≤ length gap_xs)%nat ∧
  valid_at gap_xs gap_ys 2 5.0%Q 1.0%Q ∧
  valid_at gap_xs gap_ys (4 - 1) 6.0%Q 2.0%Q ∧
  (∀ i, (i < length gap_xs)%nat → (i < 2)%nat ∨ (4 ≤ i)%nat →
        missing_at gap_xs gap_ys i) ∧
  (1 ≤ 2 ≤ 4 - 2)%nat.
Proof.
  apply (scan_path_window gap_xs gap_ys
           {| Match.st_start := Some (5.0%Q, 1.0%Q, 2);
              Match.st_end := Some (6.0%Q, 2.0%Q, 4);
              Match.st_n := 2; Match.st_missing := Some [0; 1; 4] |}
           5.0%Q 1.0%Q 2 6.0%Q 2.0%Q 4); reflexivity.
Defined.

Lemma scan_path_count_valid_witness :
  2 = length (valid_indices gap_xs gap_ys).
Proof.
  apply (scan_path_count_valid gap_xs gap_ys
           {| Match.st_start := Some (5.0%Q, 1.0%Q, 2);
              Match.st_end := Some (6.0%Q, 2.0%Q, 4);
              Match.st_n := 2; Match.st_missing := Some [0; 1; 4] |});
    reflexivity.
Defined.

Lemma init_record_witness :
  ∃ m, Match.__init__ (decoder []) qm1 = Ok m ∧
       Match.blue m = ["frc2046"; "frc360"; "frc1318"] ∧
       Match.red m = ["frc2910"; "frc4911"; "frc2557"] ∧
       Match.paths m = rows_of (blue_teams ++ red_teams)%list.
Proof.
  destruct (init_record (decoder []) qm1 qm1_record 2) as (teams & Hm & _).
  - exact is_record_qm1.
  - repeat constructor.
  - simpl. lia.
  - repeat constructor; eexists; reflexivity.
  - eexists. split; [exact Hm|]. repeat split.
Defined.

Lemma init_shape_witness :
  ∃ m, Match.__init__ (decoder []) qm1 = Ok m ∧
       (length (Match.blue m ++ Match.red m) ≤ 6)%nat ∧
       length (Match.paths m) = 2 * length (Match.blue m ++ Match.red m) ∧
       (∃ n, Forall (λ r, length r = n) (Match.paths m)) ∧
       dom (Match.teams m) = list_to_set (Match.blue m ++ Match.red m)%list.
Proof.
  eexists. split; [vm_compute; reflexivity|].
  apply (init_shape (decoder []) qm1). vm_compute; reflexivity.
Defined.

Lemma init_station_witness :
  ∃ m, Match.__init__ (decoder []) qm1 = Ok m ∧
       ∃ xs ys st station,
         Match.paths m !! (2 * 1) = Some xs ∧
         Match.paths m !! (2 * 1 + 1) = Some ys ∧
         Match._scan_path xs ys = Ok st ∧
         Match.stations !! 1 = Some station ∧
         ((∀ idx' tm', (1 < idx')%nat →
                       (Match.blue m ++ Match.red m)%list !! idx' = Some tm' →
                       tm' ≠ "frc360") →
          Match.teams m !! "frc360"
          = Some {| Match.td_stats := st; Match.td_xs := xs;
                    Match.td_ys := ys; Match.td_station := station |}).
Proof.
  eexists. split; [vm_compute; reflexivity|].
  apply (init_station (decoder []) qm1 _ 1 "frc360");
    [vm_compute; reflexivity|reflexivity].
Defined.

Lemma init_seventh_team_witness :
  Match.__init__ (decoder []) seven = Raise IndexError.
Proof.
  apply (init_seventh_team (decoder []) seven seven_record 2).
  - exact is_record_seven.
  - repeat constructor.
  - simpl. lia.
  - repeat constructor; eexists; reflexivity.
Defined.

Lemma init_null_zebra_witness :
  Match.__init__ (decoder []) qm2 = Raise TypeError.
Proof.
  apply (init_null_zebra (decoder []) qm2 "2020wasno" "2020wasno_qm2");
    reflexivity.
Defined.

Lemma zmatches_tracked_lines_witness :
  ∃ c, Competitions.__init__ (decoder scenario) (lines_of scenario) = Ok c ∧
       mapM (decoder scenario) (lines_of scenario)
       = Ok (Competitions.paths c) ∧
       Forall2 (λ zm p, Match.__init__ (decoder scenario) p = Ok zm ∧
                        getitem p "event" = Ok (JStr (Match.event zm)) ∧
                        getitem p "match" = Ok (JStr (Match.match_ zm)))
               (Competitions.zmatches c)
               (filter has_zebra (Competitions.paths c)) ∧
       Competitions.__len__ c = length (filter has_zebra (Competitions.paths c)).
Proof.
  eexists. split; [vm_compute; reflexivity|].
  apply (zmatches_tracked_lines (decoder scenario) (lines_of scenario)).
  vm_compute; reflexivity.
Defined.

Lemma getitem_key_outcome_witness :
  ∃ c, Competitions.__init__ (decoder scenario) (lines_of scenario) = Ok c ∧
       ((∃ r, r ∈ Competitions.zmatches c ∧ Match.match_ r = "2020wasno_qm2") →
        ∃ r', Competitions.__getitem__ c (Competitions.KStr "2020wasno_qm2")
              = Ok r' ∧
              Match.match_ r' = "2020wasno_qm2" ∧
              r' ∈ Competitions.zmatches c) ∧
       ((∀ r, r ∈ Competitions.zmatches c →
              Match.match_ r ≠ "2020wasno_qm2") →
        Competitions.__getitem__ c (Competitions.KStr "2020wasno_qm2")
        = Raise KeyError).
Proof.
  eexists. split; [vm_compute; reflexivity|].
  apply (getitem_key_outcome (decoder scenario) (lines_of scenario)).
  vm_compute; reflexivity.
Defined.

Lemma matches_of_event_witness :
  ∃ c, Competitions.__init__ (decoder mixed) (lines_of mixed) = Ok c ∧
       length (Competitions.matches c "2020wasno")
       = default 0 (Competitions.event_summary c !! "2020wasno") ∧
       (∀ k, k ∈ Competitions.matches c "2020wasno" →
             ∃ r, Competitions.__getitem__ c (Competitions.KStr k) = Ok r ∧
                  Match.match_ r = k).
Proof.
  eexists. split; [vm_compute; reflexivity|].
  apply (matches_of_event (decoder mixed) (lines_of mixed)).
  vm_compute; reflexivity.
Defined.

Lemma events_of_summary_witness :
  ∃ c, Competitions.__init__ (decoder mixed) (lines_of mixed) = Ok c ∧
       ("2020wasam" ∈ Competitions.events c ↔
        (0 < default 0 (Competitions.event_summary c !! "2020wasam"))%nat) ∧
       ("2020wasam" ∈ Competitions.events c ↔
        Competitions.matches c "2020wasam" ≠ []) ∧
       mapM (decoder mixed) (lines_of mixed) = Ok (Competitions.paths c) ∧
       (is_Some (Competitions.event_summary c !! "2020wasam") ↔
        ∃ p, p ∈ Competitions.paths c ∧ line_event p "2020wasam").
Proof.
  eexists. split; [vm_compute; reflexivity|].
  apply (events_of_summary (decoder mixed) (lines_of mixed)).
  vm_compute; reflexivity.
Defined.

Lemma summary_sum_len_witness :
  ∃ c, Competitions.__init__ (decoder mixed) (lines_of mixed) = Ok c ∧
       summary_sum (Competitions.event_summary c) = Competitions.__len__ c.
Proof.
  eexists. split; [vm_compute; reflexivity|].
  apply (summary_sum_len (decoder mixed) (lines_of mixed)).
  vm_compute; reflexivity.
Defined.

Lemma init_unparsed_line_witness :
  is_raise (Competitions.__init__ (decoder broken) (lines_of broken)).
Proof.
  apply (init_unparsed_line (decoder broken) (lines_of broken)
           [qm1; lone_y] lone_y).
  - reflexivity.
  - apply elem_of_cons. right. apply elem_of_cons. by left.
  - exact I.
  - exists UnboundLocalError. reflexivity.
Defined.

Lemma filter_by_event_written_witness :
  ["line 1"; "line 4"]
    `prefix_of` filter (tracked_line (decoder mixed) "2020wasno")
                       (lines_of mixed) ∧
  ∀ n, Ok 2 = Ok n →
       ["line 1"; "line 4"]
       = filter (tracked_line (decoder mixed) "2020wasno") (lines_of mixed) ∧
       n = length ["line 1"; "line 4"].
Proof.
  apply (filter_by_event_written (decoder mixed) "2020wasno" (lines_of mixed)).
  vm_compute; reflexivity.
Defined.

Lemma filter_by_event_again_witness :
  Data.filter_by_event (decoder mixed) "2020wasno" ["line 1"; "line 4"]
  = (["line 1"; "line 4"], Ok 2).
Proof.
  apply (filter_by_event_again (decoder mixed) "2020wasno" (lines_of mixed)).
  vm_compute; reflexivity.
Defined.

Lemma filter_then_load_witness :
  ∃ c, Competitions.__init__ (decoder mixed) (lines_of mixed) = Ok c ∧
  ∃ ofile c',
    Data.filter_by_event (decoder mixed) "2020wasno" (lines_of mixed)
    = (ofile, Ok (length (Competitions.matches c "2020wasno"))) ∧
    Competitions.__init__ (decoder mixed) ofile = Ok c' ∧
    Competitions.zmatches c'
    = filter (λ zm, Match.event zm = "2020wasno") (Competitions.zmatches c) ∧
    Competitions.matches c' "2020wasno" = Competitions.matches c "2020wasno".
Proof.
  eexists. split; [vm_compute; reflexivity|].
  apply (filter_then_load (decoder mixed) "2020wasno" (lines_of mixed)).
  vm_compute; reflexivity.
Defined.

Lemma download_match_rows_witness :
  ∃ rows o, Data.download_match api "2020" 5 = (rows, o) ∧
    length rows = 2 ∧
    (o = Data.HTTPError ↔
     Data.get_events api "2020" = None ∨
     ∃ evs ev, Data.get_events api "2020" = Some evs ∧ ev ∈ evs ∧
               Data.get_match_keys api ev = None) ∧
    Forall (λ row, ∃ evs ev mks mk,
              Data.get_events api "2020" = Some evs ∧ ev ∈ evs ∧
              Data.get_match_keys api ev = Some mks ∧ mk ∈ mks ∧
              row = row_of api ev mk) rows.
Proof.
  eexists _, _. split; [vm_compute; reflexivity|]. split; [reflexivity|].
  apply (download_match_rows api "2020" 5). vm_compute; reflexivity.
Defined.

Lemma get_level_matches_sorted_witness :
  ∃ c l, Competitions.__init__ (decoder levels) (lines_of levels) = Ok c ∧
    Viewer.get_level_matches c "2020wasno" Viewer.qm = Ok l ∧
    l = [("2020wasno_qm3", "3"); ("2020wasno_qm10", "10")] ∧
    l ≡ₚ omap (Viewer.search Viewer.qm) (Competitions.matches c "2020wasno") ∧
    (∀ a, a ∈ l → a.1 ∈ Competitions.matches c "2020wasno" ∧
                  Viewer.search Viewer.qm a.1 = Some a) ∧
    Sorted (λ a b, ∃ x y, Viewer.py_int a.2 = Ok x ∧
                          Viewer.py_int b.2 = Ok y ∧ (x ≤ y)%Z) l.
Proof.
  eexists _, _. split; [vm_compute; reflexivity|].
  split; [vm_compute; reflexivity|]. split; [reflexivity|].
  apply (get_level_matches_sorted _ "2020wasno" Viewer.qm).
  vm_compute; reflexivity.
Defined.

Lemma update_datasources_window_witness :
  ∃ c srcs,
    Competitions.__init__ (decoder scenario) (lines_of scenario) = Ok c ∧
    Viewer.update_datasources c "2020wasno_qm1" 0 150 = Ok srcs ∧
    ∃ m, Competitions.__getitem__ c (Competitions.KStr "2020wasno_qm1") = Ok m ∧
      length srcs = 6 ∧
      ∀ idx src, srcs !! idx = Some src →
        ∃ xrow yrow r,
          Match.paths m !! (2 * idx) = Some xrow ∧
          Match.paths m !! (2 * idx + 1) = Some yrow ∧
          Viewer.STATION_NAMES !! idx = Some (Viewer.ds_position src) ∧
          (Match.blue m ++ Match.red m)%list !! idx = Some (Viewer.ds_team src) ∧
          Viewer.ds_match src = "2020wasno_qm1" ∧
          (0 * 10 < Z.min (150 * 10) (Z.of_nat (length xrow)))%Z ∧
          (0 * 10 < Z.min (150 * 10) (Z.of_nat (length yrow)))%Z ∧
          Viewer.ds_xs src
          = take (Z.to_nat (Z.min (150 * 10) (Z.of_nat (length xrow)))
                  - Z.to_nat (0 * 10)) (drop (Z.to_nat (0 * 10)) xrow) ∧
          Viewer.ds_ys src
          = take (Z.to_nat (Z.min (150 * 10) (Z.of_nat (length yrow)))
                  - Z.to_nat (0 * 10)) (drop (Z.to_nat (0 * 10)) yrow) ∧
          xrow !! (Z.to_nat (Z.min (150 * 10) (Z.of_nat (length xrow))) - 1)
          = Some (Viewer.ds_x src) ∧
          yrow !! (Z.to_nat (Z.min (150 * 10) (Z.of_nat (length yrow))) - 1)
          = Some (Viewer.ds_y src) ∧
          Match.paths m !! 0 = Some r ∧ Viewer.ds_path_len src = length r.
Proof.
  eexists _, _. split; [vm_compute; reflexivity|].
  split; [vm_compute; reflexivity|].
  apply (update_datasources_window _ "2020wasno_qm1" 0 150);
    [lia|lia|vm_compute; reflexivity].
Defined.

Lemma update_datasources_outcome_witness :
  ∃ c m,
    Competitions.__init__ (decoder scenario) (lines_of scenario) = Ok c ∧
    Competitions.__getitem__ c (Competitions.KStr "2020wasno_qm1") = Ok m ∧
    Viewer.update_datasources c "2020wasno_qm1" 1 150 = Raise IndexError ∧
    match Viewer.update_datasources c "2020wasno_qm1" 1 150 with
    | Ok srcs =>
        length (Match.blue m ++ Match.red m) = 6 ∧
        Forall (λ row, (1 * 10 < Z.min (150 * 10) (Z.of_nat (length row)))%Z)
               (Match.paths m)
    | Raise e =>
        e = IndexError ∧
        ((length (Match.blue m ++ Match.red m) < 6)%nat ∨
         Forall (λ row, (Z.min (150 * 10) (Z.of_nat (length row)) ≤ 1 * 10)%Z)
                (Match.paths m))
    end.
Proof.
  eexists _, _. split; [vm_compute; reflexivity|].
  split; [vm_compute; reflexivity|]. split; [vm_compute; reflexivity|].
  apply (update_datasources_outcome (decoder scenario) (lines_of scenario));
    [vm_compute; reflexivity|lia|lia|vm_compute; reflexivity].
Defined.

End more_samples.
